(** * beads: the sync engine of cmd/bd/main.go

    A shallow embedding of the journal (JSONL) import and flush paths of
    [cmd/bd/main.go]: the hash gate, the conflict-marker scan, collision
    handling, the entity and dependency upserts, the closed_at coupling,
    the incremental flush with its atomic rewrite, and the failure
    accounting.  The store ([storage.Storage], [sqlite.SQLiteStorage]) is an
    interface in the Go code; it is an interface here as well, and every
    theorem about [main.go] holds for any implementation of it. *)

From Stdlib Require Import ZArith Lia Ascii String List.
From Stdlib.Strings Require Import Byte.
From stdpp Require Import gmap strings list fin_maps sorting pretty.

Local Open Scope Z_scope.

(** ** Bytes

    A Go [[]byte] is a [list byte]; a Go [string] is a [string] (both are
    byte sequences, converted with [string(b)] and [[]byte(s)]). *)

Notation bytes := (list byte) (only parsing).

#[export] Instance byte_eq_decision : EqDecision byte := Byte.byte_eq_dec.

Definition bytes_of_string (s : string) : bytes := String.list_byte_of_string s.
Definition string_of_bytes (b : bytes) : string := String.string_of_list_byte b.

Definition byte_to_Z (b : byte) : Z := Z.of_N (Byte.to_N b).

Definition byte_of_Z (z : Z) : byte :=
  match Byte.of_N (Z.to_N (z mod 256)) with
  | Some b => b
  | None => x00
  end.

(** ** crypto/sha256 and encoding/hex

    SHA-256 as in FIPS 180-4, on 32-bit words carried as [Z] with the
    wrap-around written out. *)

Module SHA256.

Definition w32 (x : Z) : Z := x mod 2 ^ 32.
Definition add32 (x y : Z) : Z := w32 (x + y).
Definition rotr (n x : Z) : Z :=
  Z.lor (Z.shiftr x n) (w32 (Z.shiftl x (32 - n))).
Definition not32 (x : Z) : Z := Z.lxor x 0xFFFFFFFF.

Definition Ch (x y z : Z) : Z := Z.lxor (Z.land x y) (Z.land (not32 x) z).
Definition Maj (x y z : Z) : Z :=
  Z.lxor (Z.lxor (Z.land x y) (Z.land x z)) (Z.land y z).
Definition bsig0 (x : Z) : Z := Z.lxor (Z.lxor (rotr 2 x) (rotr 13 x)) (rotr 22 x).
Definition bsig1 (x : Z) : Z := Z.lxor (Z.lxor (rotr 6 x) (rotr 11 x)) (rotr 25 x).
Definition ssig0 (x : Z) : Z := Z.lxor (Z.lxor (rotr 7 x) (rotr 18 x)) (Z.shiftr x 3).
Definition ssig1 (x : Z) : Z := Z.lxor (Z.lxor (rotr 17 x) (rotr 19 x)) (Z.shiftr x 10).

(** The round constants are the first 32 bits of the fractional parts of the
    cube roots of the first 64 primes; the initial chaining value comes from
    the square roots of the first 8 in the same way. *)
Definition is_prime (n : Z) : bool :=
  (2 <=? n)
  && forallb (fun d => negb (n mod d =? 0) || (n <=? d))
       (List.map Z.of_nat (seq 2 (Z.to_nat (Z.sqrt n)))).

Definition primes : list Z :=
  List.filter is_prime (List.map Z.of_nat (seq 2 310)).

(** The largest [r] with [r ^ 3 <= n], one bit at a time. *)
Definition cube_root (n : Z) : Z :=
  fold_left (fun r bit => if (r + 2 ^ bit) ^ 3 <=? n then r + 2 ^ bit else r)
    (List.map Z.of_nat (rev (seq 0 40))) 0.

Definition K : list Z :=
  Eval vm_compute in List.map (fun p => cube_root (p * 2 ^ 96) mod 2 ^ 32) primes.

(** The eight working variables a..h, and the chaining value. *)
Record digest := Digest
  { h0 : Z; h1 : Z; h2 : Z; h3 : Z; h4 : Z; h5 : Z; h6 : Z; h7 : Z }.

Definition root_word (i : nat) : Z :=
  Z.sqrt (nth i primes 0 * 2 ^ 64) mod 2 ^ 32.

Definition init : digest :=
  Eval vm_compute in
    Digest (root_word 0) (root_word 1) (root_word 2) (root_word 3)
           (root_word 4) (root_word 5) (root_word 6) (root_word 7).

Definition word_at (ws : list Z) (i : nat) : Z := nth i ws 0.

(** [ws] is the sliding window W[t..t+15] of the message schedule. *)
Definition next_word (ws : list Z) : Z :=
  add32 (add32 (ssig1 (word_at ws 14)) (word_at ws 9))
        (add32 (ssig0 (word_at ws 1)) (word_at ws 0)).

Definition round (d : digest) (k w : Z) : digest :=
  let t1 := add32 (add32 (add32 (h7 d) (bsig1 (h4 d)))
                         (add32 (Ch (h4 d) (h5 d) (h6 d)) k)) w in
  let t2 := add32 (bsig0 (h0 d)) (Maj (h0 d) (h1 d) (h2 d)) in
  Digest (add32 t1 t2) (h0 d) (h1 d) (h2 d)
         (add32 (h3 d) t1) (h4 d) (h5 d) (h6 d).

Fixpoint rounds (ks : list Z) (ws : list Z) (d : digest) : digest :=
  match ks with
  | [] => d
  | k :: ks' =>
      rounds ks' (List.tl ws ++ [next_word ws]) (round d k (word_at ws 0))
  end.

Definition block (d : digest) (ws : list Z) : digest :=
  let r := rounds K ws d in
  Digest (add32 (h0 d) (h0 r)) (add32 (h1 d) (h1 r))
         (add32 (h2 d) (h2 r)) (add32 (h3 d) (h3 r))
         (add32 (h4 d) (h4 r)) (add32 (h5 d) (h5 r))
         (add32 (h6 d) (h6 r)) (add32 (h7 d) (h7 r)).

(** Big-endian packing of bytes into 32-bit words, and back. *)
Fixpoint be_words (bs : list Z) : list Z :=
  match bs with
  | a :: b :: c :: d :: rest =>
      (Z.shiftl a 24 + Z.shiftl b 16 + Z.shiftl c 8 + d) :: be_words rest
  | _ => []
  end.

Definition be_bytes (w : Z) : list Z :=
  [ Z.shiftr w 24 mod 256; Z.shiftr w 16 mod 256;
    Z.shiftr w 8 mod 256; w mod 256 ].

Definition be_bytes64 (n : Z) : list Z :=
  be_bytes (Z.shiftr n 32 mod 2 ^ 32) ++ be_bytes (n mod 2 ^ 32).

Definition pad (msg : list Z) : list Z :=
  let len := Z.of_nat (length msg) in
  let zeros := Z.to_nat ((55 - len) mod 64) in
  msg ++ [0x80] ++ repeat 0 zeros ++ be_bytes64 ((len * 8) mod 2 ^ 64).

Fixpoint blocks (fuel : nat) (bs : list Z) (d : digest) : digest :=
  match fuel, bs with
  | S fuel', _ :: _ =>
      blocks fuel' (skipn 64 bs) (block d (be_words (firstn 64 bs)))
  | _, _ => d
  end.

Definition digest_bytes (d : digest) : list Z :=
  be_bytes (h0 d) ++ be_bytes (h1 d) ++ be_bytes (h2 d) ++ be_bytes (h3 d) ++
  be_bytes (h4 d) ++ be_bytes (h5 d) ++ be_bytes (h6 d) ++ be_bytes (h7 d).

(** [hasher.Write(data); hasher.Sum(nil)] *)
Definition Sum (data : bytes) : bytes :=
  let p := pad (List.map byte_to_Z data) in
  List.map byte_of_Z (digest_bytes (blocks (length p) p init)).

End SHA256.

Module Hex.

Definition digit (n : Z) : ascii :=
  nth (Z.to_nat n)
    [ "0"; "1"; "2"; "3"; "4"; "5"; "6"; "7";
      "8"; "9"; "a"; "b"; "c"; "d"; "e"; "f" ]%char "0"%char.

(** [hex.EncodeToString] *)
Fixpoint EncodeToString (b : bytes) : string :=
  match b with
  | [] => EmptyString
  | x :: rest =>
      String (digit (byte_to_Z x / 16))
        (String (digit (byte_to_Z x mod 16)) (EncodeToString rest))
  end.

End Hex.

(** The hex SHA-256 of a file's content, as both [validateJSONLHash] and
    [flushToJSONL] compute it. *)
Definition sha256_hex (data : bytes) : string :=
  Hex.EncodeToString (SHA256.Sum data).


(** ** Values shared with the packages that are not part of this file

    [types.Issue] and [types.Dependency] are declared in [internal/types];
    the records below carry the fields [main.go] reads and writes (and the
    data model's remaining ones).  [types.Status], [types.IssueType] and
    [types.DependencyType] are Go string types.  A [*T] that may be nil is
    an [option T]. *)

(** [time.Time] at one-second resolution: seconds since the zero value
    (January 1, year 1, 00:00:00 UTC). *)
Definition Time := Z.
Definition Time_IsZero (t : Time) : bool := t =? 0.

(** A Go [error], by its message. *)
Definition error := string.

Inductive result (A : Type) : Type :=
| Ok (a : A)
| Err (e : error).
Arguments Ok {A} a.
Arguments Err {A} e.

Module types.

Record Dependency := mkDependency
  { IssueID : string;
    DependsOnID : string;
    Type_ : string }.

Record Issue := mkIssue
  { ID : string;
    Title : string;
    Description : string;
    Design : string;
    AcceptanceCriteria : string;
    Notes : string;
    Status : string;
    Priority : Z;
    IssueType : string;
    Assignee : string;
    EstimatedMinutes : option Z;
    ExternalRef : option string;
    CreatedAt : Time;
    UpdatedAt : Time;
    ClosedAt : option Time;
    CompactionLevel : Z;
    CompactedAt : option Time;
    OriginalSize : Z;
    Dependencies : list Dependency }.

Definition StatusOpen : string := "open".
Definition StatusClosed : string := "closed".

Definition with_ClosedAt (c : option Time) (i : Issue) : Issue :=
  mkIssue (ID i) (Title i) (Description i) (Design i)
    (AcceptanceCriteria i) (Notes i) (Status i) (Priority i) (IssueType i)
    (Assignee i) (EstimatedMinutes i) (ExternalRef i) (CreatedAt i)
    (UpdatedAt i) c (CompactionLevel i) (CompactedAt i) (OriginalSize i)
    (Dependencies i).

Definition with_Dependencies (d : list Dependency) (i : Issue) : Issue :=
  mkIssue (ID i) (Title i) (Description i) (Design i)
    (AcceptanceCriteria i) (Notes i) (Status i) (Priority i) (IssueType i)
    (Assignee i) (EstimatedMinutes i) (ExternalRef i) (CreatedAt i)
    (UpdatedAt i) (ClosedAt i) (CompactionLevel i) (CompactedAt i)
    (OriginalSize i) d.

(** [types.IssueFilter{}]: the empty filter is the only one [main.go]
    builds on the sync paths. *)
Inductive IssueFilter := EmptyFilter.

End types.

#[export] Instance Dependency_eq_dec : EqDecision types.Dependency.
Proof. solve_decision. Defined.

#[export] Instance Issue_eq_dec : EqDecision types.Issue.
Proof. solve_decision. Defined.

(** The dynamic values of the [map[string]interface{}] that [UpdateIssue]
    takes. *)
Inductive Value :=
| VString (s : string)
| VInt (n : Z)
| VTime (t : Time)
| VNil.

#[export] Instance Value_eq_dec : EqDecision Value.
Proof. solve_decision. Defined.

Module sqlite.

(** [sqlite.CollisionDetail]: [main.go] reads [ID] and [IncomingIssue];
    the existing entity and the score are what the resolver records
    (spec, Collision Resolver). *)
Record CollisionDetail := mkCollisionDetail
  { ID : string;
    IncomingIssue : types.Issue;
    ExistingIssue : types.Issue;
    ReferenceScore : Z }.

Record CollisionResult := mkCollisionResult
  { Collisions : list CollisionDetail }.

End sqlite.

(** ** The store interface

    [storage.Storage] with the operations the sync paths call, and the three
    collision functions of package [sqlite] that take the store.  Reads are
    functions of the store state; a mutation returns the next state together
    with its error, if any.  [CreateIssue] also returns the issue, which the
    Go method fills in through the pointer it receives.

    The collision functions are handed pointers as well.  [ScoreCollisions]
    returns the collision records as it leaves them.  [RemapCollisions],
    which gives incoming entities their new ids, reaches the incoming issues
    through the [IncomingIssue] of the records, and these may be the very
    pointers of the caller's [allIssues]: it is given the incoming issues
    (its last argument) and returns the records and the incoming issues as it
    leaves them, since [handleCollisions] reads both afterwards. *)
Class Storage (S : Type) : Type :=
  { GetMetadata : S -> string -> result string;
    SetMetadata : S -> string -> string -> S * option error;
    SearchIssues : S -> string -> types.IssueFilter -> result (list types.Issue);
    GetIssue : S -> string -> result (option types.Issue);
    CreateIssue : S -> types.Issue -> string -> S * types.Issue * option error;
    UpdateIssue : S -> string -> gmap string Value -> string -> S * option error;
    GetDependencyRecords : S -> string -> result (list types.Dependency);
    AddDependency : S -> types.Dependency -> string -> S * option error;
    GetDirtyIssues : S -> result (list string);
    ClearDirtyIssuesByID : S -> list string -> S * option error;
    (** whether the type assertion of [store] to [sqlite.SQLiteStorage] succeeds *)
    IsSQLite : S -> bool;
    DetectCollisions : S -> list types.Issue -> result sqlite.CollisionResult;
    ScoreCollisions :
      S -> list sqlite.CollisionDetail -> list types.Issue ->
      result (list sqlite.CollisionDetail);
    RemapCollisions :
      S -> list sqlite.CollisionDetail -> list types.Issue -> list types.Issue ->
      S * (list sqlite.CollisionDetail * list types.Issue)
      * result (gmap string string) }.

(** ** encoding/json on [types.Issue]

    [json.Unmarshal(line, &issue)] and the bytes [json.Marshal(issue)]
    produces; the struct tags live in [internal/types]. *)
Class JSON : Type :=
  { json_Unmarshal : bytes -> result types.Issue;
    json_Marshal : types.Issue -> result bytes }.

(** ** Files

    The files of the [.beads] directory by path.  An operation listed in
    [fs_faults] fails when it is attempted, as a full disk, a permission or
    a cross-device rename would make it; a file that is absent cannot be
    read or opened. *)
Inductive FsOp :=
| OpReadFile | OpOpen | OpCreate | OpWrite | OpClose | OpRename.

#[export] Instance FsOp_eq_dec : EqDecision FsOp.
Proof. solve_decision. Defined.

Record FS := mkFS
  { files : gmap string bytes;
    fs_faults : list FsOp }.

Definition fs_fails (op : FsOp) (f : FS) : bool := bool_decide (op ∈ fs_faults f).

Definition with_files (m : gmap string bytes) (f : FS) : FS := mkFS m (fs_faults f).

Definition os_ReadFile (f : FS) (path : string) : result bytes :=
  if fs_fails OpReadFile f then Err ("read " +:+ path +:+ ": input/output error")
  else match files f !! path with
       | Some data => Ok data
       | None => Err ("open " +:+ path +:+ ": no such file or directory")
       end.

Definition os_Open (f : FS) (path : string) : result bytes :=
  if fs_fails OpOpen f then Err ("open " +:+ path +:+ ": permission denied")
  else match files f !! path with
       | Some data => Ok data
       | None => Err ("open " +:+ path +:+ ": no such file or directory")
       end.

(** [os.Create] truncates or creates. *)
Definition os_Create (f : FS) (path : string) : FS * option error :=
  if fs_fails OpCreate f then (f, Some ("open " +:+ path +:+ ": permission denied"))
  else (with_files (<[path := []]> (files f)) f, None).

(** One [Write] on the open file, appending. *)
Definition file_Write (f : FS) (path : string) (data : bytes) : FS * option error :=
  if fs_fails OpWrite f then (f, Some ("write " +:+ path +:+ ": no space left on device"))
  else (with_files (<[path := default [] (files f !! path) ++ data]> (files f)) f, None).

Definition file_Close (f : FS) (path : string) : option error :=
  if fs_fails OpClose f then Some ("close " +:+ path +:+ ": input/output error") else None.

Definition os_Rename (f : FS) (old new : string) : FS * option error :=
  if fs_fails OpRename f then (f, Some ("rename " +:+ old +:+ " " +:+ new +:+ ": invalid cross-device link"))
  else match files f !! old with
       | Some data => (with_files (<[new := data]> (delete old (files f))) f, None)
       | None => (f, Some ("rename " +:+ old +:+ " " +:+ new +:+ ": no such file or directory"))
       end.

(** [os.Remove]; its error is never looked at. *)
Definition os_Remove (f : FS) (path : string) : FS :=
  with_files (delete path (files f)) f.

(** ** The process state

    The package-level variables of [main.go] that the sync paths use, the
    store behind the [store] interface variable, the files, what has been
    written to standard error, and the environment.  [findJSONLPath] asks
    [beads.FindJSONLPath] for the journal's path; the path it finds is
    [env_jsonlPath].  Directories are not represented, so [os.MkdirAll] has
    no effect here. *)
Record Env := mkEnv
  { env_BD_DEBUG : string;
    env_jsonlPath : string;
    env_pid : Z;
    (** the instant [time.Now().UTC()] returns *)
    env_now : Time }.

Record FlushState := mkFlushState
  { autoFlushEnabled : bool;
    isDirty : bool;
    needsFullExport : bool;
    (** whether [flushTimer] is armed *)
    flushTimer : bool;
    storeActive : bool;
    flushFailureCount : Z;
    lastFlushError : option error }.

Record World (S : Type) := mkWorld
  { store : S;
    fs : FS;
    stderr : list string;
    flush : FlushState;
    env : Env }.
Arguments mkWorld {S} _ _ _ _ _.
Arguments store {S} _.
Arguments fs {S} _.
Arguments stderr {S} _.
Arguments flush {S} _.
Arguments env {S} _.

Definition with_store {S} (s : S) (w : World S) : World S :=
  mkWorld s (fs w) (stderr w) (flush w) (env w).
Definition with_fs {S} (f : FS) (w : World S) : World S :=
  mkWorld (store w) f (stderr w) (flush w) (env w).
Definition with_flush {S} (f : FlushState) (w : World S) : World S :=
  mkWorld (store w) (fs w) (stderr w) f (env w).

(** [fmt.Fprintf(os.Stderr, ...)] with the formatted text. *)
Definition eprintf {S} (msg : string) (w : World S) : World S :=
  mkWorld (store w) (fs w) (stderr w ++ [msg]) (flush w) (env w).

(** [if os.Getenv("BD_DEBUG") != "" { fmt.Fprintf(os.Stderr, ...) }] *)
Definition debugf {S} (msg : string) (w : World S) : World S :=
  if decide (env_BD_DEBUG (env w) = "") then w else eprintf msg w.

Definition LF : string := String "010"%char EmptyString.
Definition byte_LF : byte := x0a.
Definition byte_CR : byte := x0d.

Definition findJSONLPath {S} (w : World S) : string := env_jsonlPath (env w).

(** ** packages bytes, unicode/utf8 and bufio *)

(** [bytes.Split(data, []byte("\n"))]: one more piece than separators. *)
Fixpoint bytes_Split (sep : byte) (data : bytes) : list bytes :=
  match data with
  | [] => [[]]
  | b :: rest =>
      if Byte.eqb b sep then [] :: bytes_Split sep rest
      else match bytes_Split sep rest with
           | piece :: pieces => (b :: piece) :: pieces
           | [] => [[b]]
           end
  end.

Definition utf8_RuneError : Z := 0xFFFD.
Definition utf8_RuneSelf : Z := 0x80.
Definition utf8_UTFMax : nat := 4.

(** The table [first] of package utf8 with its [acceptRanges]: for a leading
    byte, the length of its sequence and the range its second byte is taken
    from; [None] for the bytes that start no sequence of two bytes or more. *)
Definition utf8_first (p0 : Z) : option (nat * Z * Z) :=
  if p0 <? 0xC2 then None
  else if p0 <=? 0xDF then Some (2%nat, 0x80, 0xBF)
  else if p0 =? 0xE0 then Some (3%nat, 0xA0, 0xBF)
  else if p0 <=? 0xEC then Some (3%nat, 0x80, 0xBF)
  else if p0 =? 0xED then Some (3%nat, 0x80, 0x9F)
  else if p0 <=? 0xEF then Some (3%nat, 0x80, 0xBF)
  else if p0 =? 0xF0 then Some (4%nat, 0x90, 0xBF)
  else if p0 <=? 0xF3 then Some (4%nat, 0x80, 0xBF)
  else if p0 =? 0xF4 then Some (4%nat, 0x80, 0x8F)
  else None.

Definition continuation (c : Z) : bool := (0x80 <=? c) && (c <=? 0xBF).

(** [utf8.DecodeRune]: the first rune of [p] and its width in bytes;
    [(utf8_RuneError, 1)] for an encoding that is not valid. *)
Definition utf8_DecodeRune (p : bytes) : Z * nat :=
  match p with
  | [] => (utf8_RuneError, 0%nat)
  | b0 :: rest =>
      let p0 := byte_to_Z b0 in
      if p0 <? utf8_RuneSelf then (p0, 1%nat)
      else
        match utf8_first p0 with
        | None => (utf8_RuneError, 1%nat)
        | Some (sz, lo, hi) =>
            if (length p <? sz)%nat then (utf8_RuneError, 1%nat)
            else
              match rest with
              | [] => (utf8_RuneError, 1%nat)
              | b1 :: rest1 =>
                  let c1 := byte_to_Z b1 in
                  if (c1 <? lo) || (hi <? c1) then (utf8_RuneError, 1%nat)
                  else if (sz <=? 2)%nat then
                    (Z.lor (Z.shiftl (Z.land p0 0x1F) 6) (Z.land c1 0x3F), 2%nat)
                  else
                    match rest1 with
                    | [] => (utf8_RuneError, 1%nat)
                    | b2 :: rest2 =>
                        let c2 := byte_to_Z b2 in
                        if negb (continuation c2) then (utf8_RuneError, 1%nat)
                        else if (sz <=? 3)%nat then
                          (Z.lor (Z.lor (Z.shiftl (Z.land p0 0x0F) 12)
                                        (Z.shiftl (Z.land c1 0x3F) 6))
                                 (Z.land c2 0x3F), 3%nat)
                        else
                          match rest2 with
                          | [] => (utf8_RuneError, 1%nat)
                          | b3 :: _ =>
                              let c3 := byte_to_Z b3 in
                              if negb (continuation c3) then (utf8_RuneError, 1%nat)
                              else
                                (Z.lor (Z.lor (Z.lor (Z.shiftl (Z.land p0 0x07) 18)
                                                     (Z.shiftl (Z.land c1 0x3F) 12))
                                              (Z.shiftl (Z.land c2 0x3F) 6))
                                       (Z.land c3 0x3F), 4%nat)
                          end
                    end
              end
        end
  end.

(** [utf8.RuneStart] *)
Definition utf8_RuneStart (b : byte) : bool :=
  negb (Z.land (byte_to_Z b) 0xC0 =? 0x80).

(** The loop of [utf8.DecodeLastRune] that backs up from [start] to the byte
    that starts the last rune, no further than [lim]. *)
Fixpoint backUp (n : nat) (p : bytes) (lim start : Z) : Z :=
  match n with
  | O => start
  | S n' =>
      if start <? lim then start
      else if utf8_RuneStart (nth (Z.to_nat start) p x00) then start
      else backUp n' p lim (start - 1)
  end.

(** [utf8.DecodeLastRune]: the last rune of [p] and its width. *)
Definition utf8_DecodeLastRune (p : bytes) : Z * nat :=
  let end_ := Z.of_nat (length p) in
  if end_ =? 0 then (utf8_RuneError, 0%nat)
  else
    let r := byte_to_Z (nth (Z.to_nat (end_ - 1)) p x00) in
    if r <? utf8_RuneSelf then (r, 1%nat)
    else
      let lim := Z.max 0 (end_ - Z.of_nat utf8_UTFMax) in
      let start := Z.max 0 (backUp (S utf8_UTFMax) p lim (end_ - 2)) in
      let '(r, size) := utf8_DecodeRune (skipn (Z.to_nat start) p) in
      if start + Z.of_nat size =? end_ then (r, size) else (utf8_RuneError, 1%nat).

(** [unicode.IsSpace]: the Latin-1 spaces and the rest of the White_Space
    property. *)
Definition unicode_IsSpace (r : Z) : bool :=
  if (0 <=? r) && (r <=? 0xFF) then
    (r =? 0x09) || (r =? 0x0A) || (r =? 0x0B) || (r =? 0x0C) || (r =? 0x0D)
    || (r =? 0x20) || (r =? 0x85) || (r =? 0xA0)
  else
    (r =? 0x1680) || ((0x2000 <=? r) && (r <=? 0x200A)) || (r =? 0x2028)
    || (r =? 0x2029) || (r =? 0x202F) || (r =? 0x205F) || (r =? 0x3000).

(** [indexFunc(s, f, false)] as the suffix from the first rune that does not
    satisfy [f], which is what [TrimLeftFunc] returns. *)
Fixpoint trimLeftFunc_loop (n : nat) (f : Z -> bool) (s : bytes) : bytes :=
  match n, s with
  | S n', _ :: _ =>
      let '(r, wid) := utf8_DecodeRune s in
      if f r then trimLeftFunc_loop n' f (skipn wid s) else s
  | _, _ => []
  end.

Definition bytes_TrimLeftFunc (s : bytes) (f : Z -> bool) : bytes :=
  trimLeftFunc_loop (length s) f s.

(** [lastIndexFunc(s, f, false)]: the index where the last rune that does not
    satisfy [f] starts. *)
Fixpoint lastIndexFunc_loop (n : nat) (f : Z -> bool) (s : bytes) (i : nat)
  : option nat :=
  match n, i with
  | S n', S _ =>
      let '(r, size) := utf8_DecodeLastRune (firstn i s) in
      let i := (i - size)%nat in
      if f r then lastIndexFunc_loop n' f s i else Some i
  | _, _ => None
  end.

Definition bytes_TrimRightFunc (s : bytes) (f : Z -> bool) : bytes :=
  match lastIndexFunc_loop (length s) f s (length s) with
  | Some i =>
      if utf8_RuneSelf <=? byte_to_Z (nth i s x00)
      then firstn (i + (utf8_DecodeRune (skipn i s)).2) s
      else firstn (i + 1) s
  | None => []
  end.

Definition bytes_TrimFunc (s : bytes) (f : Z -> bool) : bytes :=
  bytes_TrimRightFunc (bytes_TrimLeftFunc s f) f.

(** The table [asciiSpace]: tab, newline, vertical tab, form feed, carriage
    return and space. *)
Definition asciiSpace (b : byte) : bool :=
  match b with
  | x09 | x0a | x0b | x0c | x0d | x20 => true
  | _ => false
  end.

(** The two loops of [bytes.TrimSpace], which drop ASCII spaces from one end
    and stop at a byte that is not ASCII ([true]) or not a space. *)
Fixpoint trimASCII (s : bytes) : bool * bytes :=
  match s with
  | [] => (false, [])
  | c :: rest =>
      if utf8_RuneSelf <=? byte_to_Z c then (true, s)
      else if asciiSpace c then trimASCII rest
      else (false, s)
  end.

(** [bytes.TrimSpace]: the fast path over ASCII, and [TrimFunc] with
    [unicode.IsSpace] on what is left once a byte that is not ASCII is met. *)
Definition bytes_TrimSpace (s : bytes) : bytes :=
  match trimASCII s with
  | (true, s1) => bytes_TrimFunc s1 unicode_IsSpace
  | (false, s1) =>
      match trimASCII (rev s1) with
      | (true, r) => bytes_TrimFunc (rev r) unicode_IsSpace
      | (false, r) => rev r
      end
  end.

Fixpoint bytes_HasPrefix (s prefix : bytes) : bool :=
  match prefix, s with
  | [], _ => true
  | p :: prefix', b :: s' => Byte.eqb b p && bytes_HasPrefix s' prefix'
  | _ :: _, [] => false
  end.

Definition bytes_Equal (a b : bytes) : bool := bool_decide (a = b).

(** [bufio.ScanLines]' [dropCR] *)
Definition dropCR (line : bytes) : bytes :=
  match rev line with
  | b :: rest => if Byte.eqb b byte_CR then rev rest else line
  | [] => line
  end.

(** The pieces a [bufio.Scanner] with [ScanLines] sees: the text between
    newlines, and the text after the last newline when there is any. *)
Definition scanner_pieces (data : bytes) : list bytes :=
  let pieces := bytes_Split byte_LF data in
  match rev pieces with
  | [] :: front => rev front
  | _ => pieces
  end.

(** The tokens of [scanner.Scan()] with a buffer limit of [maxTokenSize]
    bytes, and whether the scan stopped with [bufio.ErrTooLong]: a line needs
    room in the buffer for its bytes and the newline that ends it. *)
Fixpoint scanner_tokens (maxTokenSize : nat) (pieces : list bytes)
  : list bytes * bool :=
  match pieces with
  | [] => ([], false)
  | p :: rest =>
      if (maxTokenSize <=? length p)%nat then ([], true)
      else let '(toks, tooLong) := scanner_tokens maxTokenSize rest in
           (dropCR p :: toks, tooLong)
  end.

Definition scanner_Scan (maxTokenSize : nat) (data : bytes) : list bytes * bool :=
  scanner_tokens maxTokenSize (scanner_pieces data).

(** [bufio.MaxScanTokenSize] *)
Definition MaxScanTokenSize : nat := 64 * 1024.

Section Sync.

Context {S : Type} `{!Storage S} `{!JSON}.

(** ** Hash gate *)

(** validateJSONLHash reads JSONL and checks if it has changed since last
    import *)
Definition validateJSONLHash (w : World S)
  : World S * (string * bytes * string * bool) :=
  let jsonlPath := findJSONLPath w in
  match os_ReadFile (fs w) jsonlPath with
  | Err err =>
      (debugf ("Debug: auto-import skipped, JSONL not found: " +:+ err +:+ LF) w,
       ("", [], "", false))
  | Ok data =>
      let hash := sha256_hex data in
      let '(w, lastHash) :=
        match GetMetadata (store w) "last_import_hash" with
        | Err err =>
            (debugf ("Debug: metadata read failed (" +:+ err
                     +:+ "), treating as first import" +:+ LF) w, "")
        | Ok lastHash => (w, lastHash)
        end in
      if decide (hash = lastHash) then
        (debugf ("Debug: auto-import skipped, JSONL unchanged (hash match)" +:+ LF) w,
         ("", [], "", false))
      else
        (debugf ("Debug: auto-import triggered (hash changed)" +:+ LF) w,
         (jsonlPath, data, hash, true))
  end.

(** ** Conflict markers *)

Definition isConflictMarker (trimmed : bytes) : bool :=
  bytes_HasPrefix trimmed (bytes_of_string "<<<<<<< ")
  || bytes_Equal trimmed (bytes_of_string "=======")
  || bytes_HasPrefix trimmed (bytes_of_string ">>>>>>> ").

Definition conflictGuidance (jsonlPath : string) : list string :=
  [ LF +:+ "❌ Git merge conflict detected in " +:+ jsonlPath +:+ LF +:+ LF;
    "The JSONL file contains unresolved merge conflict markers." +:+ LF;
    "This prevents auto-import from loading your issues." +:+ LF +:+ LF;
    "To resolve:" +:+ LF;
    "  1. Resolve the merge conflict in your Git client, OR" +:+ LF;
    "  2. Export from database to regenerate clean JSONL:" +:+ LF;
    "     bd export -o " +:+ jsonlPath +:+ LF +:+ LF;
    "After resolving, commit the fixed JSONL file." +:+ LF ].

Fixpoint checkMergeConflicts_lines (jsonlPath : string) (lines : list bytes)
    (w : World S) : World S * bool :=
  match lines with
  | [] => (w, false)
  | line :: rest =>
      let trimmed := bytes_TrimSpace line in
      if isConflictMarker trimmed
      then (fold_left (fun w msg => eprintf msg w) (conflictGuidance jsonlPath) w, true)
      else checkMergeConflicts_lines jsonlPath rest w
  end.

(** checkMergeConflicts scans JSONL for git merge conflict markers *)
Definition checkMergeConflicts (jsonlPath : string) (jsonlData : bytes)
    (w : World S) : World S * bool :=
  checkMergeConflicts_lines jsonlPath (bytes_Split byte_LF jsonlData) w.

(** ** Parsing the journal *)

Definition snippet_of (line : bytes) : string :=
  if (80 <? length line)%nat then string_of_bytes (take 80 line) +:+ "..."
  else string_of_bytes line.

Fixpoint parseJSONLIssues_loop (tokens : list bytes) (lineNo : Z)
    (allIssues : list types.Issue) : result (list types.Issue) :=
  match tokens with
  | [] => Ok allIssues
  | line :: rest =>
      let lineNo := lineNo + 1 in
      if decide (line = []) then parseJSONLIssues_loop rest lineNo allIssues
      else match json_Unmarshal line with
           | Err err =>
               Err ("parse error at line " +:+ pretty lineNo +:+ ": " +:+ err
                    +:+ LF +:+ "Snippet: " +:+ snippet_of line)
           | Ok issue => parseJSONLIssues_loop rest lineNo (allIssues ++ [issue])
           end
  end.

(** parseJSONLIssues parses all issues from JSONL data *)
Definition parseJSONLIssues (jsonlData : bytes) : result (list types.Issue) :=
  let '(tokens, tooLong) := scanner_Scan (2 * 1024 * 1024) jsonlData in
  match parseJSONLIssues_loop tokens 0 [] with
  | Err e => Err e
  | Ok allIssues =>
      if tooLong then Err "scanner error: bufio.Scanner: token too long"
      else Ok allIssues
  end.

End Sync.

Section Importer.

Context {S : Type} `{!Storage S} `{!JSON}.

(** ** Collision handling *)

Definition titleOfCollision (collisions : list sqlite.CollisionDetail)
    (oldID : string) : string :=
  match List.find (fun c => bool_decide (sqlite.ID c = oldID)) collisions with
  | Some collision => types.Title (sqlite.IncomingIssue collision)
  | None => ""
  end.

(** showCollisionRemapping prints a summary of remapped collision IDs.  Go
    ranges over [idMapping] in no particular order; the order here is that
    of [map_to_list]. *)
Definition showCollisionRemapping (idMapping : gmap string string)
    (collisions : list sqlite.CollisionDetail) (w : World S) : World S :=
  let numRemapped := length (map_to_list idMapping) in
  let maxShow := if (numRemapped <? 10)%nat then numRemapped else 10%nat in
  let w := eprintf (LF +:+ "Auto-import: remapped "
                    +:+ pretty (Z.of_nat numRemapped)
                    +:+ " colliding issue(s) to new IDs:" +:+ LF) w in
  let w := fold_left
             (fun w '(oldID, newID) =>
                eprintf ("  " +:+ oldID +:+ " → " +:+ newID +:+ " ("
                         +:+ titleOfCollision collisions oldID +:+ ")" +:+ LF) w)
             (take maxShow (map_to_list idMapping)) w in
  let w := if (maxShow <? numRemapped)%nat
           then eprintf ("  ... and " +:+ pretty (Z.of_nat (numRemapped - maxShow))
                         +:+ " more" +:+ LF) w
           else w in
  eprintf LF w.

(** filterCollidingIssues removes colliding issues from the list *)
Definition filterCollidingIssues (allIssues : list types.Issue)
    (collisions : list sqlite.CollisionDetail) : list types.Issue :=
  let collidingIDs : gmap string bool :=
    fold_left (fun m collision => <[sqlite.ID collision := true]> m) collisions ∅ in
  List.filter (fun issue => negb (default false (collidingIDs !! types.ID issue)))
    allIssues.

(** handleCollisions detects and resolves ID collisions, returning filtered
    issue list *)
Definition handleCollisions (allIssues : list types.Issue) (w : World S)
  : World S * result (list types.Issue) :=
  match DetectCollisions (store w) allIssues with
  | Err err => (w, Err ("collision detection error: " +:+ err))
  | Ok collisionResult =>
      if decide (length (sqlite.Collisions collisionResult) = 0%nat)
      then (w, Ok allIssues)
      else
        match SearchIssues (store w) "" types.EmptyFilter with
        | Err err => (w, Err ("error getting existing issues: " +:+ err))
        | Ok allExistingIssues =>
            match ScoreCollisions (store w) (sqlite.Collisions collisionResult)
                    allExistingIssues with
            | Err err => (w, Err ("error scoring collisions: " +:+ err))
            | Ok collisions =>
                let '(st, (collisions, allIssues), remapped) :=
                  RemapCollisions (store w) collisions allExistingIssues allIssues in
                let w := with_store st w in
                match remapped with
                | Err err => (w, Err ("error remapping collisions: " +:+ err))
                | Ok idMapping =>
                    let w := showCollisionRemapping idMapping collisions w in
                    (w, Ok (filterCollidingIssues allIssues collisions))
                end
            end
        end
  end.

(** ** Status / closed_at coupling *)

(** buildIssueUpdates creates an update map for an issue with
    status/closed_at invariant *)
Definition buildIssueUpdates (now : Time) (issue : types.Issue)
  : gmap string Value :=
  let updates : gmap string Value := ∅ in
  let updates := <["title" := VString (types.Title issue)]> updates in
  let updates := <["description" := VString (types.Description issue)]> updates in
  let updates := <["design" := VString (types.Design issue)]> updates in
  let updates :=
    <["acceptance_criteria" := VString (types.AcceptanceCriteria issue)]> updates in
  let updates := <["notes" := VString (types.Notes issue)]> updates in
  let updates := <["status" := VString (types.Status issue)]> updates in
  let updates := <["priority" := VInt (types.Priority issue)]> updates in
  let updates := <["issue_type" := VString (types.IssueType issue)]> updates in
  let updates := <["assignee" := VString (types.Assignee issue)]> updates in
  let updates :=
    match types.EstimatedMinutes issue with
    | Some m => <["estimated_minutes" := VInt m]> updates
    | None => updates
    end in
  let updates :=
    match types.ExternalRef issue with
    | Some r => <["external_ref" := VString r]> updates
    | None => updates
    end in
  if decide (types.Status issue = "closed") then
    match types.ClosedAt issue with
    | Some closedAt => <["closed_at" := VTime closedAt]> updates
    | None =>
        if negb (Time_IsZero (types.UpdatedAt issue))
        then <["closed_at" := VTime (types.UpdatedAt issue)]> updates
        else <["closed_at" := VTime now]> updates
    end
  else <["closed_at" := VNil]> updates.

(** enforceClosedAtInvariant ensures closed_at is set correctly based on
    status *)
Definition enforceClosedAtInvariant (now : Time) (issue : types.Issue)
  : types.Issue :=
  if decide (types.Status issue = "closed") then
    match types.ClosedAt issue with
    | None => types.with_ClosedAt (Some now) issue
    | Some _ => issue
    end
  else types.with_ClosedAt None issue.

(** ** Upserts *)

Definition indexByID (issues : list types.Issue) : gmap string types.Issue :=
  fold_left (fun m issue => <[types.ID issue := issue]> m) issues ∅.

(** The loop of [importIssuesFromJSONL].  The issues are pointers in Go:
    what [enforceClosedAtInvariant] and [CreateIssue] write into an issue
    is seen by the later stage, so the list is returned. *)
Fixpoint importIssues_loop (existingByID : gmap string types.Issue)
    (allIssues : list types.Issue) (w : World S)
  : World S * list types.Issue :=
  match allIssues with
  | [] => (w, [])
  | issue :: rest =>
      let '(w, issue) :=
        match existingByID !! types.ID issue with
        | Some existing =>
            let updates := buildIssueUpdates (env_now (env w)) issue in
            let '(st, _) :=
              UpdateIssue (store w) (types.ID issue) updates "auto-import" in
            (with_store st w, issue)
        | None =>
            let issue := enforceClosedAtInvariant (env_now (env w)) issue in
            let '(st, issue, _) := CreateIssue (store w) issue "auto-import" in
            (with_store st w, issue)
        end in
      let '(w, rest) := importIssues_loop existingByID rest w in
      (w, issue :: rest)
  end.

(** importIssuesFromJSONL imports or updates issues from JSONL *)
Definition importIssuesFromJSONL (allIssues : list types.Issue) (w : World S)
  : World S * list types.Issue * option error :=
  match SearchIssues (store w) "" types.EmptyFilter with
  | Err err => (w, allIssues, Some ("error fetching existing issues: " +:+ err))
  | Ok allExistingIssues =>
      let existingByID := indexByID allExistingIssues in
      let '(w, allIssues) := importIssues_loop existingByID allIssues w in
      (w, allIssues, None)
  end.

Definition dependencyExists (existingDeps : list types.Dependency)
    (dep : types.Dependency) : bool :=
  existsb (fun existing =>
             bool_decide (types.DependsOnID existing = types.DependsOnID dep)
             && bool_decide (types.Type_ existing = types.Type_ dep))
    existingDeps.

Fixpoint addMissingDependencies (existingDeps deps : list types.Dependency)
    (st : S) : S :=
  match deps with
  | [] => st
  | dep :: rest =>
      let st := if dependencyExists existingDeps dep then st
                else fst (AddDependency st dep "auto-import") in
      addMissingDependencies existingDeps rest st
  end.

(** importDependenciesFromJSONL imports dependencies for all issues *)
Fixpoint importDependenciesFromJSONL (allIssues : list types.Issue) (st : S) : S :=
  match allIssues with
  | [] => st
  | issue :: rest =>
      let st :=
        if decide (length (types.Dependencies issue) = 0%nat) then st
        else match GetDependencyRecords st (types.ID issue) with
             | Err _ => st
             | Ok existingDeps =>
                 addMissingDependencies existingDeps (types.Dependencies issue) st
             end in
      importDependenciesFromJSONL rest st
  end.

(** ** Auto-import *)

(** The body of [autoImportIfNewer] once the gate has let the journal
    through: conflict scan, parse, collisions, upserts, dependencies, and
    the new hash. *)
Definition autoImport_pipeline (jsonlPath : string) (jsonlData : bytes)
    (currentHash : string) (w : World S) : World S :=
  let '(w, conflict) := checkMergeConflicts jsonlPath jsonlData w in
  if conflict then w else
  match parseJSONLIssues jsonlData with
  | Err err => eprintf ("Auto-import skipped: " +:+ err +:+ LF) w
  | Ok allIssues =>
      if negb (IsSQLite (store w)) then
        let w := eprintf ("Auto-import disabled for non-SQLite backend "
                          +:+ "(no collision detection)." +:+ LF) w in
        eprintf ("To import manually, run: bd import -i " +:+ jsonlPath +:+ LF) w
      else
        let '(w, handled) := handleCollisions allIssues w in
        match handled with
        | Err err => eprintf ("Auto-import failed: " +:+ err +:+ LF) w
        | Ok allIssues =>
            let '(w, allIssues, failed) := importIssuesFromJSONL allIssues w in
            match failed with
            | Some err => eprintf ("Auto-import failed: " +:+ err +:+ LF) w
            | None =>
                let w := with_store
                           (importDependenciesFromJSONL allIssues (store w)) w in
                let '(st, failed) :=
                  SetMetadata (store w) "last_import_hash" currentHash in
                let w := with_store st w in
                match failed with
                | Some err =>
                    let w := eprintf ("Warning: failed to update last_import_hash "
                                      +:+ "after import: " +:+ err +:+ LF) w in
                    eprintf ("This may cause auto-import to retry the same import "
                             +:+ "on next operation." +:+ LF) w
                | None => w
                end
            end
        end
  end.

(** autoImportIfNewer checks if JSONL content changed (via hash) and
    imports if so *)
Definition autoImportIfNewer (w : World S) : World S :=
  let '(w, (jsonlPath, jsonlData, currentHash, shouldImport)) :=
    validateJSONLHash w in
  if negb shouldImport then w
  else autoImport_pipeline jsonlPath jsonlData currentHash w.

End Importer.

Section Flusher.

Context {S : Type} `{!Storage S} `{!JSON}.

(** ** Auto-flush state *)

(** Go's [int] on a 64-bit platform. *)
Definition int_wrap (z : Z) : Z := (z + 2 ^ 63) mod 2 ^ 64 - 2 ^ 63.

(** markDirtyAndScheduleFlush marks the database as dirty and schedules a
    flush *)
Definition markDirtyAndScheduleFlush (w : World S) : World S :=
  let f := flush w in
  if negb (autoFlushEnabled f) then w
  else with_flush
         (mkFlushState (autoFlushEnabled f) true (needsFullExport f) true
            (storeActive f) (flushFailureCount f) (lastFlushError f)) w.

(** markDirtyAndScheduleFullExport marks DB as needing a full export *)
Definition markDirtyAndScheduleFullExport (w : World S) : World S :=
  let f := flush w in
  if negb (autoFlushEnabled f) then w
  else with_flush
         (mkFlushState (autoFlushEnabled f) true true true
            (storeActive f) (flushFailureCount f) (lastFlushError f)) w.

(** clearAutoFlushState cancels pending flush and marks DB as clean *)
Definition clearAutoFlushState (w : World S) : World S :=
  let f := flush w in
  with_flush
    (mkFlushState (autoFlushEnabled f) false (needsFullExport f) false
       (storeActive f) 0 None) w.

(** recordFlushFailure records a flush failure and shows appropriate
    warnings (the colour of the prominent warning is left out) *)
Definition recordFlushFailure (err : error) (w : World S) : World S :=
  let f := flush w in
  let failCount := int_wrap (flushFailureCount f + 1) in
  let w := with_flush
             (mkFlushState (autoFlushEnabled f) (isDirty f) (needsFullExport f)
                (flushTimer f) (storeActive f) failCount (Some err)) w in
  let w := eprintf ("Warning: auto-flush failed: " +:+ err +:+ LF) w in
  if 3 <=? failCount then
    let w := eprintf (LF +:+ "⚠️  CRITICAL: Auto-flush has failed "
                      +:+ pretty failCount +:+ " times consecutively!" +:+ LF) w in
    let w := eprintf ("⚠️  Your JSONL file may be out of sync with the database."
                      +:+ LF) w in
    eprintf ("⚠️  Run 'bd export -o .beads/issues.jsonl' manually to fix."
             +:+ LF +:+ LF) w
  else w.

(** recordFlushSuccess clears flush failure counters *)
Definition recordFlushSuccess (w : World S) : World S :=
  let f := flush w in
  with_flush
    (mkFlushState (autoFlushEnabled f) (isDirty f) (needsFullExport f)
       (flushTimer f) (storeActive f) 0 None) w.

(** ** Reading the journal back *)

Fixpoint readExistingJSONL_loop (tokens : list bytes) (lineNum : Z)
    (issueMap : gmap string types.Issue) (w : World S)
  : World S * gmap string types.Issue :=
  match tokens with
  | [] => (w, issueMap)
  | line :: rest =>
      let lineNum := lineNum + 1 in
      if decide (line = []) then readExistingJSONL_loop rest lineNum issueMap w
      else match json_Unmarshal line with
           | Ok issue =>
               readExistingJSONL_loop rest lineNum
                 (<[types.ID issue := issue]> issueMap) w
           | Err err =>
               readExistingJSONL_loop rest lineNum issueMap
                 (eprintf ("Warning: skipping malformed JSONL line "
                           +:+ pretty lineNum +:+ ": " +:+ err +:+ LF) w)
           end
  end.

(** readExistingJSONL reads existing JSONL file into an issue map.  The
    scanner has its default buffer, and [scanner.Err()] is not consulted. *)
Definition readExistingJSONL (jsonlPath : string) (w : World S)
  : World S * gmap string types.Issue :=
  match os_Open (fs w) jsonlPath with
  | Err _ => (w, ∅)
  | Ok data =>
      readExistingJSONL_loop (fst (scanner_Scan MaxScanTokenSize data)) 0 ∅ w
  end.

(** fetchAndUpdateDirtyIssues fetches dirty issues from DB and updates the
    issue map *)
Fixpoint fetchAndUpdateDirtyIssues (st : S) (dirtyIDs : list string)
    (issueMap : gmap string types.Issue) : result (gmap string types.Issue) :=
  match dirtyIDs with
  | [] => Ok issueMap
  | issueID :: rest =>
      match GetIssue st issueID with
      | Err err => Err ("failed to get issue " +:+ issueID +:+ ": " +:+ err)
      | Ok None => fetchAndUpdateDirtyIssues st rest (delete issueID issueMap)
      | Ok (Some issue) =>
          match GetDependencyRecords st issueID with
          | Err err =>
              Err ("failed to get dependencies for " +:+ issueID +:+ ": " +:+ err)
          | Ok deps =>
              fetchAndUpdateDirtyIssues st rest
                (<[issueID := types.with_Dependencies deps issue]> issueMap)
          end
      end
  end.

(** ** Writing the journal *)

Definition tempPathOf (jsonlPath : string) (pid : Z) : string :=
  jsonlPath +:+ ".tmp." +:+ pretty pid.

(** The loop over [encoder.Encode(issue)]: the JSON text and a newline in
    one write. *)
Fixpoint encodeIssues (tempPath : string) (issues : list types.Issue) (f : FS)
  : FS * option error :=
  match issues with
  | [] => (f, None)
  | issue :: rest =>
      match json_Marshal issue with
      | Err err =>
          (f, Some ("failed to encode issue " +:+ types.ID issue +:+ ": " +:+ err))
      | Ok text =>
          match file_Write f tempPath (text ++ [byte_LF]) with
          | (f, Some err) =>
              (f, Some ("failed to encode issue " +:+ types.ID issue +:+ ": " +:+ err))
          | (f, None) => encodeIssues tempPath rest f
          end
      end
  end.

(** writeJSONLAtomically writes issues to JSONL atomically using temp file
    + rename *)
Definition writeJSONLAtomically (jsonlPath : string) (pid : Z)
    (issues : list types.Issue) (f : FS) : FS * option error :=
  let tempPath := tempPathOf jsonlPath pid in
  match os_Create f tempPath with
  | (f, Some err) => (f, Some ("failed to create temp file: " +:+ err))
  | (f, None) =>
      match encodeIssues tempPath issues f with
      | (f, Some err) => (os_Remove f tempPath, Some err)
      | (f, None) =>
          match file_Close f tempPath with
          | Some err =>
              (os_Remove f tempPath, Some ("failed to close temp file: " +:+ err))
          | None =>
              match os_Rename f tempPath jsonlPath with
              | (f, Some err) =>
                  (os_Remove f tempPath, Some ("failed to rename file: " +:+ err))
              | (f, None) => (f, None)
              end
          end
      end
  end.

(** ** Flush *)

Definition issue_le (a b : types.Issue) : Prop :=
  String.leb (types.ID a) (types.ID b) = true.

#[export] Instance issue_le_dec a b : Decision (issue_le a b).
Proof. unfold issue_le. apply _. Defined.

(** [sort.Slice(issues, func(i, j) { return issues[i].ID < issues[j].ID })].
    The issues are the values of a map keyed by id, so their ids differ and
    one order is sorted; a merge sort produces it. *)
Definition sortByID (issues : list types.Issue) : list types.Issue :=
  merge_sort issue_le issues.

(** The second half of [flushToJSONL], after the journal has been
    rewritten: clear the exported ids, store the hash, record success. *)
Definition flushToJSONL_commit (jsonlPath : string) (dirtyIDs : list string)
    (w : World S) : World S :=
  let '(st, failed) := ClearDirtyIssuesByID (store w) dirtyIDs in
  let w := with_store st w in
  let w := match failed with
           | Some err =>
               eprintf ("Warning: failed to clear dirty issues: " +:+ err +:+ LF) w
           | None => w
           end in
  let w := match os_ReadFile (fs w) jsonlPath with
           | Ok jsonlData =>
               let exportedHash := sha256_hex jsonlData in
               let '(st, failed) :=
                 SetMetadata (store w) "last_import_hash" exportedHash in
               let w := with_store st w in
               match failed with
               | Some err =>
                   eprintf ("Warning: failed to update last_import_hash "
                            +:+ "after export: " +:+ err +:+ LF) w
               | None => w
               end
           | Err _ => w
           end in
  recordFlushSuccess w.

(** The first half of [flushToJSONL], up to the atomic write: either the
    flush is over ([inl]), or the journal has been rewritten from the
    snapshot [dirtyIDs] of the dirty set ([inr]). *)
Definition flushToJSONL_export (w : World S)
  : World S + (World S * string * list string) :=
  if negb (storeActive (flush w)) then inl w else
  if negb (isDirty (flush w)) then inl w else
  let f := flush w in
  let w := with_flush
             (mkFlushState (autoFlushEnabled f) false false (flushTimer f)
                (storeActive f) (flushFailureCount f) (lastFlushError f)) w in
  let jsonlPath := findJSONLPath w in
  if negb (storeActive (flush w)) then inl w else
  match GetDirtyIssues (store w) with
  | Err err => inl (recordFlushFailure ("failed to get dirty issues: " +:+ err) w)
  | Ok dirtyIDs =>
      if decide (length dirtyIDs = 0%nat) then inl (recordFlushSuccess w) else
      let '(w, issueMap) := readExistingJSONL jsonlPath w in
      match fetchAndUpdateDirtyIssues (store w) dirtyIDs issueMap with
      | Err err => inl (recordFlushFailure err w)
      | Ok issueMap =>
          let issues := sortByID (map_to_list issueMap).*2 in
          match writeJSONLAtomically jsonlPath (env_pid (env w)) issues (fs w) with
          | (f, Some err) => inl (recordFlushFailure err (with_fs f w))
          | (f, None) => inr (with_fs f w, jsonlPath, dirtyIDs)
          end
      end
  end.

(** flushToJSONL exports dirty issues to JSONL using incremental updates *)
Definition flushToJSONL (w : World S) : World S :=
  match flushToJSONL_export w with
  | inl w => w
  | inr (w, jsonlPath, dirtyIDs) => flushToJSONL_commit jsonlPath dirtyIDs w
  end.

(** The flush of [PersistentPostRun], before the store is closed. *)
Definition persistentPostRun (w : World S) : World S :=
  let f := flush w in
  let needsFlush := isDirty f && autoFlushEnabled f in
  let w := if needsFlush
           then with_flush
                  (mkFlushState (autoFlushEnabled f) (isDirty f)
                     (needsFullExport f) false (storeActive f)
                     (flushFailureCount f) (lastFlushError f)) w
           else w in
  let w := if needsFlush then flushToJSONL w else w in
  let f := flush w in
  with_flush
    (mkFlushState (autoFlushEnabled f) (isDirty f) (needsFullExport f)
       (flushTimer f) false (flushFailureCount f) (lastFlushError f)) w.

End Flusher.

(** ** package strings *)

(** [strings.TrimSpace]: the algorithm of [bytes.TrimSpace] on a string. *)
Definition strings_TrimSpace (s : string) : string :=
  string_of_bytes (bytes_TrimSpace (bytes_of_string s)).

(** [strings.Contains(s, string(sep))] for a separator of one byte. *)
Fixpoint strings_Contains (s : string) (sep : ascii) : bool :=
  match s with
  | EmptyString => false
  | String c rest => Ascii.eqb c sep || strings_Contains rest sep
  end.

(** [strings.SplitN(s, string(sep), 2)]: [s] cut at the first [sep], or [s]
    alone when it has none. *)
Fixpoint strings_SplitN2 (s : string) (sep : ascii) : list string :=
  match s with
  | EmptyString => [EmptyString]
  | String c rest =>
      if Ascii.eqb c sep then [EmptyString; rest]
      else match strings_SplitN2 rest sep with
           | first :: others => String c first :: others
           | [] => [String c EmptyString]
           end
  end.

(** ** What [main.go] takes from [internal/types] and [version.go]

    [types.DepBlocks] and [DependencyType.IsValid] are declared in
    [internal/types], the constant [Version] in another file of the package,
    and the colour functions come from [fatih/color]. *)
Class Externals : Type :=
  { DepBlocks : string;
    DependencyType_IsValid : string -> bool;
    Version : string;
    (** [color.New(color.FgYellow, color.Bold).SprintFunc()] *)
    yellow : string -> string }.

Section Commands.

Context {S : Type} `{!Storage S} `{!Externals}.

(** ** Version check *)

(** checkVersionMismatch checks if the binary version matches the database
    version and warns the user if they're running an outdated binary *)
Definition checkVersionMismatch (w : World S) : World S :=
  match GetMetadata (store w) "bd_version" with
  | Err err =>
      debugf ("Debug: version check skipped, metadata error: " +:+ err +:+ LF) w
  | Ok dbVersion =>
      if decide (dbVersion = "") then
        with_store (SetMetadata (store w) "bd_version" Version).1 w
      else
        let w :=
          if decide (dbVersion = Version) then w
          else
            let w := eprintf (LF +:+ yellow "⚠️  WARNING: Version mismatch detected!"
                              +:+ LF) w in
            let w := eprintf (yellow ("⚠️  Your bd binary (v" +:+ Version
                                      +:+ ") differs from the database version (v"
                                      +:+ dbVersion +:+ ")") +:+ LF) w in
            if String.ltb Version dbVersion then
              let w := eprintf (yellow "⚠️  Your binary appears to be OUTDATED."
                                +:+ LF) w in
              eprintf (yellow ("⚠️  Some features may not work correctly. "
                               +:+ "Rebuild: go build -o bd ./cmd/bd")
                       +:+ LF +:+ LF) w
            else
              let w := eprintf (yellow "⚠️  Your binary appears NEWER than the database."
                                +:+ LF) w in
              let w := eprintf (yellow "⚠️  The database will be upgraded automatically."
                                +:+ LF +:+ LF) w in
              with_store (SetMetadata (store w) "bd_version" Version).1 w in
        with_store (SetMetadata (store w) "bd_version" Version).1 w
  end.

(** ** Dependencies given on the command line *)

(** The type and the target of a dependency written [type:id] or [id], or
    nothing for a format that is refused. *)
Definition parseDependencySpec (depSpec : string) : option (string * string) :=
  if strings_Contains depSpec ":" then
    let parts := strings_SplitN2 depSpec ":" in
    if negb (length parts =? 2)%nat then None
    else Some (strings_TrimSpace (nth 0 parts ""), strings_TrimSpace (nth 1 parts ""))
  else Some (DepBlocks, depSpec).

(** addDependenciesToIssue parses and adds dependencies to an issue *)
Fixpoint addDependenciesToIssue (actor issueID : string) (dependencies : list string)
    (w : World S) : World S :=
  match dependencies with
  | [] => w
  | depSpec :: rest =>
      let depSpec := strings_TrimSpace depSpec in
      let w :=
        if decide (depSpec = "") then w
        else
          match parseDependencySpec depSpec with
          | None =>
              eprintf ("Warning: invalid dependency format '" +:+ depSpec
                       +:+ "' for " +:+ issueID +:+ LF) w
          | Some (depType, dependsOnID) =>
              if negb (DependencyType_IsValid depType) then
                eprintf ("Warning: invalid dependency type '" +:+ depType
                         +:+ "' for " +:+ issueID +:+ LF) w
              else
                let dep := types.mkDependency issueID dependsOnID depType in
                let '(st, failed) := AddDependency (store w) dep actor in
                let w := with_store st w in
                match failed with
                | Some err =>
                    eprintf ("Warning: failed to add dependency " +:+ issueID
                             +:+ " -> " +:+ dependsOnID +:+ ": " +:+ err +:+ LF) w
                | None => w
                end
          end in
      addDependenciesToIssue actor issueID rest w
  end.

End Commands.

(** ** A store in memory

    Modelled from the spec: the store behind [storage.Storage] and the
    collision functions of package [sqlite], whose code is in
    [internal/storage]; the sections Store, Collision Resolver and Invariant
    Enforcer and the invariants I1 to I4 describe them.  The operations
    listed in [F] fail (a locked or unreachable database); a failed mutation
    leaves the store as it was. *)
Module MemStore.

Inductive Op :=
| OpGetMetadata | OpSetMetadata | OpSearchIssues | OpGetIssue
| OpCreateIssue | OpUpdateIssue | OpGetDependencyRecords | OpAddDependency
| OpGetDirtyIssues | OpClearDirtyIssuesByID
| OpDetectCollisions | OpScoreCollisions | OpRemapCollisions.

#[export] Instance Op_eq_dec : EqDecision Op.
Proof. solve_decision. Defined.

(** An audit entry: id, actor, timestamp, change. *)
Definition Audit : Type := string * string * Time * string.

Record t := mk
  { issues : gmap string types.Issue;
    deps : list types.Dependency;
    dirty : list string;
    metadata : gmap string string;
    audit : list Audit;
    clock : Time;
    sqliteBackend : bool }.

Definition failure (op : string) : error := op +:+ ": database is locked".

Definition markDirty (id : string) (d : list string) : list string :=
  if bool_decide (id ∈ d) then d else d ++ [id].

(** I1, as the Invariant Enforcer states it. *)
Definition enforceI1 (now : Time) (i : types.Issue) : types.Issue :=
  if decide (types.Status i = types.StatusClosed) then
    match types.ClosedAt i with
    | Some _ => i
    | None =>
        types.with_ClosedAt
          (Some (if Time_IsZero (types.UpdatedAt i) then now else types.UpdatedAt i)) i
    end
  else types.with_ClosedAt None i.

Definition with_ID (id : string) (i : types.Issue) : types.Issue :=
  types.mkIssue id (types.Title i) (types.Description i) (types.Design i)
    (types.AcceptanceCriteria i) (types.Notes i) (types.Status i)
    (types.Priority i) (types.IssueType i) (types.Assignee i)
    (types.EstimatedMinutes i) (types.ExternalRef i) (types.CreatedAt i)
    (types.UpdatedAt i) (types.ClosedAt i) (types.CompactionLevel i)
    (types.CompactedAt i) (types.OriginalSize i) (types.Dependencies i).

Definition with_stamps (created updated : Time) (i : types.Issue) : types.Issue :=
  types.mkIssue (types.ID i) (types.Title i) (types.Description i) (types.Design i)
    (types.AcceptanceCriteria i) (types.Notes i) (types.Status i)
    (types.Priority i) (types.IssueType i) (types.Assignee i)
    (types.EstimatedMinutes i) (types.ExternalRef i) created updated
    (types.ClosedAt i) (types.CompactionLevel i)
    (types.CompactedAt i) (types.OriginalSize i) (types.Dependencies i).

(** ** Identifiers [prefix-N] *)

Fixpoint prefixOf (id : string) : string :=
  match id with
  | EmptyString => EmptyString
  | String c rest => if Ascii.eqb c "-" then EmptyString else String c (prefixOf rest)
  end.

Definition DefaultPrefix : string := "bd".

(** The smallest positive [n], counting up from [n], with [prefix-n] not in
    use; among [fuel + 1] candidates one is free when [fuel] ids are used. *)
Fixpoint freshFrom (fuel : nat) (n : Z) (prefix : string)
    (used : string -> bool) : string :=
  let candidate := prefix +:+ "-" +:+ pretty n in
  match fuel with
  | O => candidate
  | Datatypes.S fuel' =>
      if used candidate then freshFrom fuel' (n + 1) prefix used else candidate
  end.

Definition freshID (prefix : string) (s : t) (reserved : list string) : string :=
  freshFrom (size (issues s) + length reserved) 1 prefix
    (fun id => bool_decide (is_Some (issues s !! id)) || bool_decide (id ∈ reserved)).

Section Faults.

Context (F : list Op).

Definition fails (op : Op) : bool := bool_decide (op ∈ F).

(** ** Metadata *)

Definition GetMetadata (s : t) (key : string) : result string :=
  if fails OpGetMetadata then Err (failure "get metadata")
  else Ok (default "" (metadata s !! key)).

Definition SetMetadata (s : t) (key value : string) : t * option error :=
  if fails OpSetMetadata then (s, Some (failure "set metadata"))
  else (mk (issues s) (deps s) (dirty s) (<[key := value]> (metadata s))
           (audit s) (clock s) (sqliteBackend s), None).

(** ** Issues *)

Definition issue_order (a b : types.Issue) : Prop :=
  types.Priority a < types.Priority b
  ∨ (types.Priority a = types.Priority b
     ∧ String.leb (types.ID a) (types.ID b) = true).

#[export] Instance issue_order_dec a b : Decision (issue_order a b).
Proof. unfold issue_order. apply _. Defined.

Fixpoint contains (needle hay : string) : bool :=
  String.prefix needle hay
  || match hay with
     | EmptyString => false
     | String _ rest => contains needle rest
     end.

Definition SearchIssues (s : t) (query : string) (filter : types.IssueFilter)
  : result (list types.Issue) :=
  if fails OpSearchIssues then Err (failure "search issues")
  else Ok (merge_sort issue_order
             (List.filter
                (fun i => contains query (types.Title i)
                          || contains query (types.Description i))
                (map_to_list (issues s)).*2)).

Definition GetIssue (s : t) (id : string) : result (option types.Issue) :=
  if fails OpGetIssue then Err (failure "get issue")
  else Ok (issues s !! id).

Definition put (actor change : string) (i : types.Issue) (s : t) : t :=
  mk (<[types.ID i := i]> (issues s)) (deps s) (markDirty (types.ID i) (dirty s))
     (metadata s) (audit s ++ [(types.ID i, actor, clock s, change)])
     (clock s) (sqliteBackend s).

Definition CreateIssue (s : t) (issue : types.Issue) (actor : string)
  : t * types.Issue * option error :=
  if fails OpCreateIssue then (s, issue, Some (failure "create issue"))
  else
    let id := if decide (types.ID issue = "") then freshID DefaultPrefix s []
              else types.ID issue in
    match issues s !! id with
    | Some _ => (s, issue, Some ("UNIQUE constraint failed: issues.id " +:+ id))
    | None =>
        let created :=
          if Time_IsZero (types.CreatedAt issue) then clock s
          else types.CreatedAt issue in
        let updated :=
          if Time_IsZero (types.UpdatedAt issue) then clock s
          else types.UpdatedAt issue in
        let issue := enforceI1 (clock s) (with_ID id issue) in
        let issue := with_stamps created updated issue in
        (put actor "created" issue s, issue, None)
    end.

Definition getString (u : gmap string Value) (key : string) (old : string)
  : option string :=
  match u !! key with
  | None => Some old
  | Some (VString v) => Some v
  | Some _ => None
  end.

Definition getInt (u : gmap string Value) (key : string) (old : Z) : option Z :=
  match u !! key with
  | None => Some old
  | Some (VInt v) => Some v
  | Some _ => None
  end.

Definition getOptInt (u : gmap string Value) (key : string) (old : option Z)
  : option (option Z) :=
  match u !! key with
  | None => Some old
  | Some (VInt v) => Some (Some v)
  | Some VNil => Some None
  | Some _ => None
  end.

Definition getOptString (u : gmap string Value) (key : string)
    (old : option string) : option (option string) :=
  match u !! key with
  | None => Some old
  | Some (VString v) => Some (Some v)
  | Some VNil => Some None
  | Some _ => None
  end.

Definition getOptTime (u : gmap string Value) (key : string) (old : option Time)
  : option (option Time) :=
  match u !! key with
  | None => Some old
  | Some (VTime v) => Some (Some v)
  | Some VNil => Some None
  | Some _ => None
  end.

Definition recognized : list string :=
  [ "title"; "description"; "design"; "acceptance_criteria"; "notes"; "status";
    "priority"; "issue_type"; "assignee"; "estimated_minutes"; "external_ref";
    "closed_at" ].

(** Only recognized keys are applied; an unknown key, or a value of the
    wrong type, fails the operation. *)
Definition applyUpdates (now : Time) (u : gmap string Value) (i : types.Issue)
  : option types.Issue :=
  if negb (forallb (fun kv => bool_decide (kv.1 ∈ recognized)) (map_to_list u))
  then None
  else
    title ← getString u "title" (types.Title i);
    description ← getString u "description" (types.Description i);
    design ← getString u "design" (types.Design i);
    acceptance ← getString u "acceptance_criteria" (types.AcceptanceCriteria i);
    notes ← getString u "notes" (types.Notes i);
    status ← getString u "status" (types.Status i);
    priority ← getInt u "priority" (types.Priority i);
    issueType ← getString u "issue_type" (types.IssueType i);
    assignee ← getString u "assignee" (types.Assignee i);
    estimated ← getOptInt u "estimated_minutes" (types.EstimatedMinutes i);
    externalRef ← getOptString u "external_ref" (types.ExternalRef i);
    closedAt ← getOptTime u "closed_at" (types.ClosedAt i);
    Some (types.mkIssue (types.ID i) title description design acceptance notes
            status priority issueType assignee estimated externalRef
            (types.CreatedAt i) now closedAt (types.CompactionLevel i)
            (types.CompactedAt i) (types.OriginalSize i) (types.Dependencies i)).

Definition UpdateIssue (s : t) (id : string) (updates : gmap string Value)
    (actor : string) : t * option error :=
  if fails OpUpdateIssue then (s, Some (failure "update issue"))
  else match issues s !! id with
       | None => (s, Some ("issue " +:+ id +:+ " not found"))
       | Some old =>
           match applyUpdates (clock s) updates old with
           | None => (s, Some "invalid update")
           | Some new => (put actor "updated" (enforceI1 (clock s) new) s, None)
           end
       end.

(** ** Dependencies *)

Definition GetDependencyRecords (s : t) (id : string)
  : result (list types.Dependency) :=
  if fails OpGetDependencyRecords then Err (failure "get dependencies")
  else Ok (List.filter (fun d => bool_decide (types.IssueID d = id)) (deps s)).

Definition AddDependency (s : t) (dep : types.Dependency) (actor : string)
  : t * option error :=
  if fails OpAddDependency then (s, Some (failure "add dependency"))
  else if negb (bool_decide (is_Some (issues s !! types.IssueID dep))
                && bool_decide (is_Some (issues s !! types.DependsOnID dep)))
  then (s, Some "dependency endpoint not found")
  else if bool_decide (dep ∈ deps s)
  then (s, Some "UNIQUE constraint failed: dependencies")
  else (mk (issues s) (deps s ++ [dep]) (markDirty (types.IssueID dep) (dirty s))
           (metadata s)
           (audit s ++ [(types.IssueID dep, actor, clock s, "dependency_added")])
           (clock s) (sqliteBackend s), None).

(** ** Dirty set *)

Definition GetDirtyIssues (s : t) : result (list string) :=
  if fails OpGetDirtyIssues then Err (failure "get dirty issues")
  else Ok (dirty s).

Definition ClearDirtyIssuesByID (s : t) (ids : list string) : t * option error :=
  if fails OpClearDirtyIssuesByID then (s, Some (failure "clear dirty issues"))
  else (mk (issues s) (deps s)
           (List.filter (fun id => negb (bool_decide (id ∈ ids))) (dirty s))
           (metadata s) (audit s) (clock s) (sqliteBackend s), None).

(** ** Collisions *)

(** The tracked content of an entity: every field but [updated_at]. *)
Definition sameContent (a b : types.Issue) : bool :=
  bool_decide (with_stamps (types.CreatedAt a) 0 a
               = with_stamps (types.CreatedAt b) 0 b).

Definition DetectCollisions (s : t) (incoming : list types.Issue)
  : result sqlite.CollisionResult :=
  if fails OpDetectCollisions then Err (failure "detect collisions")
  else Ok (sqlite.mkCollisionResult
             (omap (fun i =>
                      match issues s !! types.ID i with
                      | Some existing =>
                          if sameContent existing i then None
                          else Some (sqlite.mkCollisionDetail (types.ID i) i existing 0)
                      | None => None
                      end) incoming)).

(** A deterministic similarity out of 100: equal title 50, equal
    description 30, equal type 10, equal priority 10. *)
Definition similarity (a b : types.Issue) : Z :=
  (if decide (types.Title a = types.Title b) then 50 else 0)
  + (if decide (types.Description a = types.Description b) then 30 else 0)
  + (if decide (types.IssueType a = types.IssueType b) then 10 else 0)
  + (if decide (types.Priority a = types.Priority b) then 10 else 0).

Definition ScoreCollisions (s : t) (collisions : list sqlite.CollisionDetail)
    (allExisting : list types.Issue) : result (list sqlite.CollisionDetail) :=
  if fails OpScoreCollisions then Err (failure "score collisions")
  else Ok (List.map
             (fun c => sqlite.mkCollisionDetail (sqlite.ID c) (sqlite.IncomingIssue c)
                         (sqlite.ExistingIssue c)
                         (similarity (sqlite.IncomingIssue c) (sqlite.ExistingIssue c)))
             collisions).

(** The ids the collisions are given, one after the other: each the
    smallest of its prefix that is not in use in the store, is not an id of
    the journal being imported and has not just been given (I4). *)
Fixpoint allocate (collisions : list sqlite.CollisionDetail)
    (reserved : list string) (s : t) : list (sqlite.CollisionDetail * string) :=
  match collisions with
  | [] => []
  | c :: rest =>
      let newID := freshID (prefixOf (sqlite.ID c)) s reserved in
      (c, newID) :: allocate rest (newID :: reserved) s
  end.

Definition rewriteID (idMapping : gmap string string) (id : string) : string :=
  default id (idMapping !! id).

(** The dependencies of an entity of the import stream, with the old ids
    replaced by the new ones. *)
Definition rewriteDependencies (idMapping : gmap string string) (i : types.Issue)
  : types.Issue :=
  types.with_Dependencies
    (List.map
       (fun d => types.mkDependency (rewriteID idMapping (types.IssueID d))
                   (rewriteID idMapping (types.DependsOnID d)) (types.Type_ d))
       (types.Dependencies i)) i.

(** The incoming entity of a collision, created under its new id. *)
Definition createRemapped (idMapping : gmap string string) (s : t)
    (remap : sqlite.CollisionDetail * string) : t :=
  put "import-remap" "created"
    (enforceI1 (clock s)
       (rewriteDependencies idMapping (with_ID remap.2 (sqlite.IncomingIssue remap.1))))
    s.

(** Every collision is given a fresh id, its incoming entity is created
    under that id, the mapping is recorded, and the dependencies of the
    import stream that name an old id are rewritten.  The entity created is
    a copy: the records and the ids of the incoming issues are left as they
    were, which is what the filter of [handleCollisions] relies on. *)
Definition RemapCollisions (s : t) (collisions : list sqlite.CollisionDetail)
    (allExisting incoming : list types.Issue)
  : t * (list sqlite.CollisionDetail * list types.Issue) * result (gmap string string) :=
  if fails OpRemapCollisions
  then (s, (collisions, incoming), Err (failure "remap collisions"))
  else
    let allocated :=
      allocate collisions (List.map types.ID incoming ++ List.map sqlite.ID collisions) s in
    let idMapping :=
      fold_left (fun m remap => <[sqlite.ID remap.1 := remap.2]> m) allocated ∅ in
    (fold_left (createRemapped idMapping) allocated s,
     (collisions, List.map (rewriteDependencies idMapping) incoming),
     Ok idMapping).

Definition IsSQLite (s : t) : bool := sqliteBackend s.

End Faults.

End MemStore.

Definition MemStore_Storage (F : list MemStore.Op) : Storage MemStore.t :=
  {| GetMetadata := MemStore.GetMetadata F;
     SetMetadata := MemStore.SetMetadata F;
     SearchIssues := MemStore.SearchIssues F;
     GetIssue := MemStore.GetIssue F;
     CreateIssue := MemStore.CreateIssue F;
     UpdateIssue := MemStore.UpdateIssue F;
     GetDependencyRecords := MemStore.GetDependencyRecords F;
     AddDependency := MemStore.AddDependency F;
     GetDirtyIssues := MemStore.GetDirtyIssues F;
     ClearDirtyIssuesByID := MemStore.ClearDirtyIssuesByID F;
     IsSQLite := MemStore.IsSQLite;
     DetectCollisions := MemStore.DetectCollisions F;
     ScoreCollisions := MemStore.ScoreCollisions F;
     RemapCollisions := MemStore.RemapCollisions F |}.

(** ** The journal line format

    Modelled from the spec: the JSON form of an entity, which the struct
    tags of [internal/types] fix; the keys are those of the update map of
    [buildIssueUpdates] and of the spec's journal examples, timestamps are
    RFC 3339 in UTC, and an absent key is a null field.  The reader takes
    JSON with integer numbers, the escapes of [encoding/json] below U+0080,
    and timestamps of the form [YYYY-MM-DDTHH:MM:SSZ]. *)
Module Json.

#[local] Set Warnings "-register-all".
Inductive json :=
| JNull
| JBool (b : bool)
| JNum (z : Z)
| JStr (s : string)
| JArr (l : list json)
| JObj (l : list (string * json)).

(** *** Reading *)

Definition is_ws (c : ascii) : bool :=
  match c with
  | " " | "009" | "010" | "013" => true
  | _ => false
  end%char.

Fixpoint skip_ws (s : string) : string :=
  match s with
  | String c rest => if is_ws c then skip_ws rest else s
  | EmptyString => s
  end.

Definition digit_of (c : ascii) : option Z :=
  let n := Z.of_nat (nat_of_ascii c) in
  if (48 <=? n) && (n <=? 57) then Some (n - 48) else None.

Fixpoint read_digits (s : string) (acc : Z) (seen : bool) : option (Z * string) :=
  match s with
  | String c rest =>
      match digit_of c with
      | Some d => read_digits rest (10 * acc + d) true
      | None => if seen then Some (acc, s) else None
      end
  | EmptyString => if seen then Some (acc, s) else None
  end.

Definition hex_of (c : ascii) : option Z :=
  let n := Z.of_nat (nat_of_ascii c) in
  if (48 <=? n) && (n <=? 57) then Some (n - 48)
  else if (97 <=? n) && (n <=? 102) then Some (n - 87)
  else if (65 <=? n) && (n <=? 70) then Some (n - 55)
  else None.

Definition ascii_of_Z (n : Z) : ascii := ascii_of_nat (Z.to_nat n).

(** The text of a string literal after its opening quote. *)
Fixpoint read_string (s : string) : option (string * string) :=
  match s with
  | EmptyString => None
  | String "034" rest => Some (EmptyString, rest)
  | String "\" (String e rest) =>
      let plain (c : ascii) (rest : string) :=
        match read_string rest with
        | Some (t, rest') => Some (String c t, rest')
        | None => None
        end in
      match e with
      | "034" => plain "034"%char rest
      | "\" => plain "\"%char rest
      | "/" => plain "/"%char rest
      | "n" => plain "010"%char rest
      | "t" => plain "009"%char rest
      | "r" => plain "013"%char rest
      | "b" => plain "008"%char rest
      | "f" => plain "012"%char rest
      | "u" =>
          match rest with
          | String a (String b (String c (String d rest'))) =>
              match hex_of a, hex_of b, hex_of c, hex_of d with
              | Some 0, Some 0, Some hi, Some lo =>
                  if (hi <? 8)%Z then
                    match read_string rest' with
                    | Some (t, rest'') =>
                        Some (String (ascii_of_Z (16 * hi + lo)%Z) t, rest'')
                    | None => None
                    end
                  else None
              | _, _, _, _ => None
              end
          | _ => None
          end
      | _ => None
      end%char
  | String c rest =>
      if (nat_of_ascii c <? 32)%nat then None
      else match read_string rest with
           | Some (t, rest') => Some (String c t, rest')
           | None => None
           end
  end%char.

Definition drop_prefix (p s : string) : option string :=
  if String.prefix p s
  then Some (String.substring (String.length p) (String.length s - String.length p) s)
  else None.

Fixpoint read_value (fuel : nat) (s : string) : option (json * string) :=
  match fuel with
  | O => None
  | Datatypes.S fuel =>
      match skip_ws s with
      | String "n" _ => r ← drop_prefix "null" (skip_ws s); Some (JNull, r)
      | String "t" _ => r ← drop_prefix "true" (skip_ws s); Some (JBool true, r)
      | String "f" _ => r ← drop_prefix "false" (skip_ws s); Some (JBool false, r)
      | String "034" rest => '(t, r) ← read_string rest; Some (JStr t, r)
      | String "-" rest => '(n, r) ← read_digits rest 0 false; Some (JNum (- n)%Z, r)
      | String "[" rest =>
          match skip_ws rest with
          | String "]" r => Some (JArr [], r)
          | _ => read_elems fuel rest []
          end
      | String "{" rest =>
          match skip_ws rest with
          | String "}" r => Some (JObj [], r)
          | _ => read_members fuel rest []
          end
      | other => '(n, r) ← read_digits other 0 false; Some (JNum n, r)
      end%char
  end
with read_elems (fuel : nat) (s : string) (acc : list json) : option (json * string) :=
  match fuel with
  | O => None
  | Datatypes.S fuel =>
      '(v, r) ← read_value fuel s;
      match skip_ws r with
      | String "," r' => read_elems fuel r' (acc ++ [v])
      | String "]" r' => Some (JArr (acc ++ [v]), r')
      | _ => None
      end%char
  end
with read_members (fuel : nat) (s : string) (acc : list (string * json))
  : option (json * string) :=
  match fuel with
  | O => None
  | Datatypes.S fuel =>
      match skip_ws s with
      | String "034" rest =>
          '(k, r) ← read_string rest;
          match skip_ws r with
          | String ":" r' =>
              '(v, r'') ← read_value fuel r';
              match skip_ws r'' with
              | String "," r3 => read_members fuel r3 (acc ++ [(k, v)])
              | String "}" r3 => Some (JObj (acc ++ [(k, v)]), r3)
              | _ => None
              end
          | _ => None
          end
      | _ => None
      end%char
  end.

Definition read (s : string) : option json :=
  match read_value (Datatypes.S (String.length s)) s with
  | Some (v, rest) => if decide (skip_ws rest = "") then Some v else None
  | None => None
  end.

(** *** Timestamps *)

(** Days from 0001-01-01 to the given day of the proleptic Gregorian
    calendar. *)
Definition days_from_civil (y m d : Z) : Z :=
  let y' := if m <=? 2 then y - 1 else y in
  let era := y' / 400 in
  let yoe := y' - era * 400 in
  let mp := (m + 9) mod 12 in
  let doy := (153 * mp + 2) / 5 + d - 1 in
  let doe := yoe * 365 + yoe / 4 - yoe / 100 + doy in
  era * 146097 + doe - 306.

Definition civil_from_days (days : Z) : Z * Z * Z :=
  let z := days + 306 in
  let era := z / 146097 in
  let doe := z - era * 146097 in
  let yoe := (doe - doe / 1460 + doe / 36524 - doe / 146096) / 365 in
  let doy := doe - (365 * yoe + yoe / 4 - yoe / 100) in
  let mp := (5 * doy + 2) / 153 in
  let d := doy - (153 * mp + 2) / 5 + 1 in
  let m := if mp <? 10 then mp + 3 else mp - 9 in
  let y := yoe + era * 400 + (if m <=? 2 then 1 else 0) in
  (y, m, d).

Fixpoint pad_left (fuel width : nat) (s : string) : string :=
  match fuel with
  | O => s
  | Datatypes.S fuel' =>
      if (String.length s <? width)%nat then pad_left fuel' width ("0" +:+ s) else s
  end.

Definition digits (width : nat) (n : Z) : string := pad_left width width (pretty n).

Definition format_time (t : Time) : string :=
  let '(y, m, d) := civil_from_days (t / 86400) in
  let s := t mod 86400 in
  digits 4 y +:+ "-" +:+ digits 2 m +:+ "-" +:+ digits 2 d +:+ "T"
  +:+ digits 2 (s / 3600) +:+ ":" +:+ digits 2 (s mod 3600 / 60) +:+ ":"
  +:+ digits 2 (s mod 60) +:+ "Z".

Definition number_at (s : string) (pos len : nat) : option Z :=
  '(n, rest) ← read_digits (String.substring pos len s) 0 false;
  if decide (rest = "") then Some n else None.

Definition parse_time (s : string) : option Time :=
  if negb (bool_decide (String.length s = 20%nat)) then None else
  if negb (bool_decide (String.substring 4 1 s = "-")
           && bool_decide (String.substring 7 1 s = "-")
           && bool_decide (String.substring 10 1 s = "T")
           && bool_decide (String.substring 13 1 s = ":")
           && bool_decide (String.substring 16 1 s = ":")
           && bool_decide (String.substring 19 1 s = "Z")) then None else
  y ← number_at s 0 4; m ← number_at s 5 2; d ← number_at s 8 2;
  hh ← number_at s 11 2; mm ← number_at s 14 2; ss ← number_at s 17 2;
  if (1 <=? m) && (m <=? 12) && (1 <=? d) && (d <=? 31)
     && (hh <? 24) && (mm <? 60) && (ss <? 60)
  then Some (days_from_civil y m d * 86400 + hh * 3600 + mm * 60 + ss)
  else None.

(** *** From JSON to an entity *)

Definition field (key : string) (o : list (string * json)) : json :=
  match List.find (fun kv => bool_decide (kv.1 = key)) (rev o) with
  | Some kv => kv.2
  | None => JNull
  end.

Definition as_string (j : json) : option string :=
  match j with JNull => Some "" | JStr s => Some s | _ => None end.
Definition as_int (j : json) : option Z :=
  match j with JNull => Some 0 | JNum z => Some z | _ => None end.
Definition as_opt_string (j : json) : option (option string) :=
  match j with JNull => Some None | JStr s => Some (Some s) | _ => None end.
Definition as_opt_int (j : json) : option (option Z) :=
  match j with JNull => Some None | JNum z => Some (Some z) | _ => None end.
Definition as_time (j : json) : option Time :=
  match j with JNull => Some 0 | JStr s => parse_time s | _ => None end.
Definition as_opt_time (j : json) : option (option Time) :=
  match j with
  | JNull => Some None
  | JStr s => t ← parse_time s; Some (Some t)
  | _ => None
  end.

Definition dependency_of (j : json) : option types.Dependency :=
  match j with
  | JObj o =>
      issueID ← as_string (field "issue_id" o);
      dependsOn ← as_string (field "depends_on_id" o);
      type ← as_string (field "type" o);
      Some (types.mkDependency issueID dependsOn type)
  | _ => None
  end.

Definition as_dependencies (j : json) : option (list types.Dependency) :=
  match j with
  | JNull => Some []
  | JArr l => mapM dependency_of l
  | _ => None
  end.

Definition zeroIssue : types.Issue :=
  types.mkIssue "" "" "" "" "" "" "" 0 "" "" None None 0 0 None 0 None 0 [].

Definition issue_of (j : json) : option types.Issue :=
  match j with
  | JNull => Some zeroIssue
  | JObj o =>
      id ← as_string (field "id" o);
      title ← as_string (field "title" o);
      description ← as_string (field "description" o);
      design ← as_string (field "design" o);
      acceptance ← as_string (field "acceptance_criteria" o);
      notes ← as_string (field "notes" o);
      status ← as_string (field "status" o);
      priority ← as_int (field "priority" o);
      issueType ← as_string (field "issue_type" o);
      assignee ← as_string (field "assignee" o);
      estimated ← as_opt_int (field "estimated_minutes" o);
      externalRef ← as_opt_string (field "external_ref" o);
      createdAt ← as_time (field "created_at" o);
      updatedAt ← as_time (field "updated_at" o);
      closedAt ← as_opt_time (field "closed_at" o);
      level ← as_int (field "compaction_level" o);
      compactedAt ← as_opt_time (field "compacted_at" o);
      originalSize ← as_int (field "original_size" o);
      dependencies ← as_dependencies (field "dependencies" o);
      Some (types.mkIssue id title description design acceptance notes status
              priority issueType assignee estimated externalRef createdAt
              updatedAt closedAt level compactedAt originalSize dependencies)
  | _ => None
  end.

Definition Unmarshal (line : bytes) : result types.Issue :=
  match read (string_of_bytes line) with
  | None => Err "invalid character in JSON input"
  | Some j =>
      match issue_of j with
      | Some issue => Ok issue
      | None => Err "json: cannot unmarshal value into Go value of type types.Issue"
      end
  end.

(** *** From an entity to JSON text *)

Fixpoint escape (s : string) : string :=
  match s with
  | EmptyString => EmptyString
  | String c rest =>
      let n := Z.of_nat (nat_of_ascii c) in
      let u := "\u00" +:+ String (Hex.digit (n / 16)) (String (Hex.digit (n mod 16)) "") in
      (if Ascii.eqb c "034" then String "\" (String "034" "")
       else if Ascii.eqb c "\" then "\\"
       else if Ascii.eqb c "010" then "\n"
       else if Ascii.eqb c "013" then "\r"
       else if Ascii.eqb c "009" then "\t"
       else if (n <? 32) || Ascii.eqb c "<" || Ascii.eqb c ">" || Ascii.eqb c "&" then u
       else String c "") +:+ escape rest
  end.

Definition quote (s : string) : string :=
  String "034" (escape s +:+ String "034" "").

Definition member (key value : string) : string := quote key +:+ ":" +:+ value.

Definition opt_member {A} (key : string) (show : A -> string) (o : option A)
  : list string :=
  match o with Some a => [member key (show a)] | None => [] end.

Definition nonempty_member (key value : string) : list string :=
  if decide (value = "") then [] else [member key (quote value)].

Definition nonzero_member (key : string) (value : Z) : list string :=
  if decide (value = 0) then [] else [member key (pretty value)].

Fixpoint join (sep : string) (l : list string) : string :=
  match l with
  | [] => ""
  | [x] => x
  | x :: rest => x +:+ sep +:+ join sep rest
  end.

Definition object (members : list string) : string := "{" +:+ join "," members +:+ "}".

Definition dependency_text (d : types.Dependency) : string :=
  object [ member "issue_id" (quote (types.IssueID d));
           member "depends_on_id" (quote (types.DependsOnID d));
           member "type" (quote (types.Type_ d)) ].

Definition issue_text (i : types.Issue) : string :=
  object
    ([ member "id" (quote (types.ID i));
       member "title" (quote (types.Title i));
       member "description" (quote (types.Description i)) ]
     ++ nonempty_member "design" (types.Design i)
     ++ nonempty_member "acceptance_criteria" (types.AcceptanceCriteria i)
     ++ nonempty_member "notes" (types.Notes i)
     ++ [ member "status" (quote (types.Status i));
          member "priority" (pretty (types.Priority i));
          member "issue_type" (quote (types.IssueType i)) ]
     ++ nonempty_member "assignee" (types.Assignee i)
     ++ opt_member "estimated_minutes" pretty (types.EstimatedMinutes i)
     ++ [ member "created_at" (quote (format_time (types.CreatedAt i)));
          member "updated_at" (quote (format_time (types.UpdatedAt i))) ]
     ++ opt_member "closed_at" (fun t => quote (format_time t)) (types.ClosedAt i)
     ++ opt_member "external_ref" quote (types.ExternalRef i)
     ++ nonzero_member "compaction_level" (types.CompactionLevel i)
     ++ opt_member "compacted_at" (fun t => quote (format_time t)) (types.CompactedAt i)
     ++ nonzero_member "original_size" (types.OriginalSize i)
     ++ match types.Dependencies i with
        | [] => []
        | ds => [member "dependencies"
                   ("[" +:+ join "," (List.map dependency_text ds) +:+ "]")]
        end).

(** [Time.MarshalJSON] refuses a year outside [0,9999]. *)
Definition time_ok (t : Time) : bool :=
  (0 <=? t) && (t <? days_from_civil 10000 1 1 * 86400).

Definition Marshal (i : types.Issue) : result bytes :=
  if time_ok (types.CreatedAt i) && time_ok (types.UpdatedAt i)
     && from_option time_ok true (types.ClosedAt i)
     && from_option time_ok true (types.CompactedAt i)
  then Ok (bytes_of_string (issue_text i))
  else Err "json: error calling MarshalJSON for type time.Time: year outside of range [0,9999]".

End Json.

Definition Json_JSON : JSON :=
  {| json_Unmarshal := Json.Unmarshal; json_Marshal := Json.Marshal |}.

(** ** What the sync paths rely on in a store

    The contract of the metadata table and of the dirty set, as the spec
    gives it (Store, Hash Gate, Dirty Set): a value that was set is the value
    read, [ClearDirtyIssuesByID] removes the ids it is given and no other, and
    writing metadata leaves the dirty set alone. *)
Class StorageLaws (S : Type) `{!Storage S} : Prop :=
  { metadata_set_get :
      forall (st st' : S) (key value : string),
        SetMetadata st key value = (st', None) ->
        GetMetadata st' key = Ok value;
    dirty_clear :
      forall (st st' : S) (ids dirty : list string),
        ClearDirtyIssuesByID st ids = (st', None) ->
        GetDirtyIssues st = Ok dirty ->
        GetDirtyIssues st'
        = Ok (List.filter (fun id => negb (bool_decide (id ∈ ids))) dirty);
    dirty_metadata :
      forall (st : S) (key value : string),
        GetDirtyIssues (SetMetadata st key value).1 = GetDirtyIssues st }.

(** ** Vocabulary of the statements *)

(** Two process states that differ at most in what was printed. *)
Definition same_but_stderr {S} (w w' : World S) : Prop :=
  store w' = store w /\ fs w' = fs w /\ flush w' = flush w /\ env w' = env w.

(** The journal has a line that, trimmed, is a conflict marker. *)
Definition hasConflictLine (jsonlData : bytes) : Prop :=
  exists line, line ∈ bytes_Split byte_LF jsonlData
               /\ isConflictMarker (bytes_TrimSpace line) = true.

(** The entity stored under the id of [incoming] has the content of
    [incoming]: what a merge by update leaves behind. *)
Definition merged_into_existing (incoming : types.Issue) (st : MemStore.t) : Prop :=
  exists stored,
    MemStore.issues st !! types.ID incoming = Some stored
    /\ types.Title stored = types.Title incoming
    /\ types.Description stored = types.Description incoming.

(** C1 as the spec has it, for a store in memory, its faults [F], a
    threshold and the incoming entities of a journal: every collision that
    scores at or above the threshold is merged into the existing entity. *)
Definition merges_at_or_above (threshold : Z) (F : list MemStore.Op)
    (w : World MemStore.t) (incoming : list types.Issue) : Prop :=
  forall result existing scored c,
    MemStore.DetectCollisions F (store w) incoming = Ok result ->
    MemStore.SearchIssues F (store w) "" types.EmptyFilter = Ok existing ->
    MemStore.ScoreCollisions F (store w) (sqlite.Collisions result) existing = Ok scored ->
    c ∈ scored ->
    threshold <= sqlite.ReferenceScore c ->
    merged_into_existing (sqlite.IncomingIssue c)
      (store (@autoImportIfNewer MemStore.t (MemStore_Storage F) Json_JSON w)).

(** The list is in strictly ascending order of id. *)
Definition ascending_by_id (issues : list types.Issue) : Prop :=
  StronglySorted (fun a b => String.ltb (types.ID a) (types.ID b) = true) issues.

(** The bytes of a journal that lists [issues]: the JSON text of each, in
    order, with a newline after each. *)
Definition journal_text `{!JSON} (issues : list types.Issue) (data : bytes) : Prop :=
  exists texts,
    Forall2 (fun i t => json_Marshal i = Ok t) issues texts
    /\ data = concat (List.map (fun t => t ++ [byte_LF]) texts).

(** Every entry of the map is stored under its own id. *)
Definition keyed_by_id (m : gmap string types.Issue) : Prop :=
  map_Forall (fun k v => types.ID v = k) m.

(** The entities of the lines that parse, in order: what a reader that skips
    the other lines keeps. *)
Definition parseable `{!JSON} (tokens : list bytes) : list types.Issue :=
  omap (fun line =>
          if decide (line = []) then None
          else match json_Unmarshal line with
               | Ok issue => Some issue
               | Err _ => None
               end) tokens.

(** The flush state once [flushToJSONL] has taken the dirty flag. *)
Definition flush_taken (f : FlushState) : FlushState :=
  mkFlushState (autoFlushEnabled f) false false (flushTimer f) (storeActive f)
    (flushFailureCount f) (lastFlushError f).

(** The import gets through every stage that can stop it; [st] is the store
    after the entity and dependency upserts, when the hash is about to be
    written. *)
Definition import_reaches_hash {S : Type} `{!Storage S} `{!JSON}
    (data : bytes) (w : World S) (st : S) : Prop :=
  (forall line, line ∈ bytes_Split byte_LF data ->
                isConflictMarker (bytes_TrimSpace line) = false)
  /\ IsSQLite (store w) = true
  /\ exists allIssues w1 issues existing,
       parseJSONLIssues data = Ok allIssues
       /\ handleCollisions allIssues w = (w1, Ok issues)
       /\ SearchIssues (store w1) "" types.EmptyFilter = Ok existing
       /\ st = importDependenciesFromJSONL
                 (importIssues_loop (indexByID existing) issues w1).2
                 (store (importIssues_loop (indexByID existing) issues w1).1).

(** The call the upsert stage makes for one entity on the store [st]: an
    update when the batch fetch has the id, a creation otherwise.  Of what
    the call returns, the store and the entity are kept; the error is not
    part of it. *)
Definition upsertCall {S : Type} `{!Storage S} (existingByID : gmap string types.Issue)
    (now : Time) (st : S) (issue : types.Issue) : S * types.Issue :=
  match existingByID !! types.ID issue with
  | Some _ =>
      ((UpdateIssue st (types.ID issue) (buildIssueUpdates now issue) "auto-import").1,
       issue)
  | None => (CreateIssue st (enforceClosedAtInvariant now issue) "auto-import").1
  end.

(** The calls of the upsert stage when none is left out: one for every
    entity of the list, in order, each on the store the call before it
    returned. *)
Definition upsertCalls {S : Type} `{!Storage S} (existingByID : gmap string types.Issue)
    (now : Time) (issues : list types.Issue) (st : S) : S * list types.Issue :=
  fold_left
    (fun acc issue =>
       let '(st, issue) := upsertCall existingByID now acc.1 issue in
       (st, acc.2 ++ [issue]))
    issues (st, []).

(** The calls of the dependency stage for one entity: the records are read
    and, when they can be, [AddDependency] is called for every dependency
    of the entity that is not among them, whatever the call before it
    returned. *)
Definition dependencyCalls {S : Type} `{!Storage S} (st : S) (issue : types.Issue) : S :=
  match types.Dependencies issue with
  | [] => st
  | deps =>
      match GetDependencyRecords st (types.ID issue) with
      | Err _ => st
      | Ok existingDeps =>
          fold_left
            (fun st dep =>
               if dependencyExists existingDeps dep then st
               else (AddDependency st dep "auto-import").1)
            deps st
      end
  end.

(** C6 as the spec has it, at one process state and one entity of its
    journal: if the entity cannot be updated, the import persists no new
    [last_import_hash]. *)
Definition update_failure_aborts (F : list MemStore.Op) (w : World MemStore.t)
    (issue : types.Issue) : Prop :=
  (MemStore.UpdateIssue F (store w) (types.ID issue)
     (buildIssueUpdates (env_now (env w)) issue) "auto-import").2 <> None ->
  MemStore.GetMetadata F
    (store (@autoImportIfNewer MemStore.t (MemStore_Storage F) Json_JSON w))
    "last_import_hash"
  = MemStore.GetMetadata F (store w) "last_import_hash".

(** C4 as the spec has it, at one process state: a flush that rewrites the
    journal and records success has stored the journal's hash. *)
Definition success_stores_hash (F : list MemStore.Op) (w : World MemStore.t) : Prop :=
  forall w1 path ids data,
    @flushToJSONL_export MemStore.t (MemStore_Storage F) Json_JSON w = inr (w1, path, ids) ->
    lastFlushError
      (flush (@flushToJSONL MemStore.t (MemStore_Storage F) Json_JSON w)) = None ->
    files (fs (@flushToJSONL MemStore.t (MemStore_Storage F) Json_JSON w)) !! path
    = Some data ->
    MemStore.GetMetadata F
      (store (@flushToJSONL MemStore.t (MemStore_Storage F) Json_JSON w))
      "last_import_hash"
    = Ok (sha256_hex data).

(** C5's second half as the spec has it, at one process state: a flush that
    rewrites the journal and records success has cleared the ids of its
    snapshot. *)
Definition success_clears_snapshot (F : list MemStore.Op) (w : World MemStore.t) : Prop :=
  forall w1 path ids,
    @flushToJSONL_export MemStore.t (MemStore_Storage F) Json_JSON w = inr (w1, path, ids) ->
    lastFlushError
      (flush (@flushToJSONL MemStore.t (MemStore_Storage F) Json_JSON w)) = None ->
    MemStore.dirty (store (@flushToJSONL MemStore.t (MemStore_Storage F) Json_JSON w))
    = List.filter (fun id => negb (bool_decide (id ∈ ids))) (MemStore.dirty (store w)).

(** A journal line written with apostrophes for its quotation marks. *)
Fixpoint json_quotes (s : string) : string :=
  match s with
  | EmptyString => EmptyString
  | String c rest =>
      String (if Ascii.eqb c "039" then "034"%char else c) (json_quotes rest)
  end.

(** A line as [encoding/json] writes one: not empty, no newline in it, no
    carriage return at its end, and shorter than the scanner's limit. *)
Definition line_safe (maxTokenSize : nat) (t : bytes) : Prop :=
  t <> [] /\ (byte_LF ∉ t) /\ last t <> Some byte_CR /\ (length t < maxTokenSize)%nat.

(** The bytes of a file whose lines are [lines], each ended by a newline. *)
Definition lines_text (lines : list bytes) : bytes :=
  concat (List.map (fun t => t ++ [byte_LF]) lines).

(** The keys [buildIssueUpdates] always sets. *)
Definition alwaysUpdated : gset string :=
  {[ "title"; "description"; "design"; "acceptance_criteria"; "notes"; "status";
     "priority"; "issue_type"; "assignee"; "closed_at" ]}.

(** What the store holds for a dirty id, as the flush fetches it: the issue
    with its dependency records attached, or nothing when it is gone. *)
Definition fetched {S : Type} `{!Storage S} (st : S) (id : string) : option types.Issue :=
  match GetIssue st id with
  | Ok (Some issue) =>
      match GetDependencyRecords st id with
      | Ok deps => Some (types.with_Dependencies deps issue)
      | Err _ => None
      end
  | _ => None
  end.

(** The issue has nothing to add: no dependency, records that cannot be
    read, or records that hold every dependency it lists. *)
Definition nothingToAdd {S : Type} `{!Storage S} (st : S) (issue : types.Issue) : Prop :=
  types.Dependencies issue = []
  \/ (exists e, GetDependencyRecords st (types.ID issue) = Err e)
  \/ (exists existingDeps,
        GetDependencyRecords st (types.ID issue) = Ok existingDeps
        /\ Forall (fun dep => dependencyExists existingDeps dep = true)
             (types.Dependencies issue)).

(** The dependency a spec asks for: none for a blank spec or a type that is
    not valid; the type is [DepBlocks] unless the spec names one before its
    first colon. *)
Definition specifiedDependency `{!Externals} (issueID depSpec : string)
  : option types.Dependency :=
  let depSpec := strings_TrimSpace depSpec in
  if decide (depSpec = "") then None
  else
    let '(depType, dependsOnID) :=
      match strings_SplitN2 depSpec ":" with
      | [before; after] => (strings_TrimSpace before, strings_TrimSpace after)
      | _ => (DepBlocks, depSpec)
      end in
    if DependencyType_IsValid depType
    then Some (types.mkDependency issueID dependsOnID depType)
    else None.

Definition specifiedDependencies `{!Externals} (issueID : string)
    (dependencies : list string) : list types.Dependency :=
  omap (specifiedDependency issueID) dependencies.

(** What the version check prints for a stored version. *)
Definition versionWarning `{!Externals} (dbVersion : string) : list string :=
  if decide (dbVersion = "") then []
  else if decide (dbVersion = Version) then []
  else
    [ LF +:+ yellow "⚠️  WARNING: Version mismatch detected!" +:+ LF;
      yellow ("⚠️  Your bd binary (v" +:+ Version
              +:+ ") differs from the database version (v" +:+ dbVersion +:+ ")") +:+ LF ]
    ++ (if String.ltb Version dbVersion then
          [ yellow "⚠️  Your binary appears to be OUTDATED." +:+ LF;
            yellow ("⚠️  Some features may not work correctly. "
                    +:+ "Rebuild: go build -o bd ./cmd/bd") +:+ LF +:+ LF ]
        else
          [ yellow "⚠️  Your binary appears NEWER than the database." +:+ LF;
            yellow "⚠️  The database will be upgraded automatically." +:+ LF +:+ LF ]).

(** * Scenarios *)

(** Concrete process states, with the store in memory and the journal line
    format above. *)
Module Scenario.

Definition jsonlPath : string := ".beads/issues.jsonl".

(** 2025-10-14T12:00:00Z *)
Definition now : Time := 63896040000.

(** 2025-10-05T09:00:00Z *)
Definition earlier : Time := 63895251600.

Definition quiet : Env := mkEnv "" jsonlPath 4242 now.
Definition debug : Env := mkEnv "1" jsonlPath 4242 now.

Definition idle : FlushState := mkFlushState true false false false true 0 None.
Definition pending : FlushState := mkFlushState true true false true true 0 None.

Definition emptyStore : MemStore.t := MemStore.mk ∅ [] [] ∅ [] now true.

Definition journal (lines : list string) : bytes :=
  bytes_of_string (String.concat "" (List.map (fun l => l +:+ LF) lines)).

Definition withJournal (data : bytes) (faults : list FsOp) : FS :=
  mkFS {[ jsonlPath := data ]} faults.

Definition autoImport (F : list MemStore.Op) (w : World MemStore.t) : World MemStore.t :=
  @autoImportIfNewer MemStore.t (MemStore_Storage F) Json_JSON w.

Definition flushJSONL (F : list MemStore.Op) (w : World MemStore.t) : World MemStore.t :=
  @flushToJSONL MemStore.t (MemStore_Storage F) Json_JSON w.

Definition alpha : string :=
  (json_quotes "{'id':'bd-1','title':'alpha','description':'','status':'open','priority':2,'issue_type':'task','created_at':'2025-10-01T09:00:00Z','updated_at':'2025-10-01T09:00:00Z'}").

Definition gamma : string :=
  (json_quotes "{'id':'bd-3','title':'gamma','description':'','status':'open','priority':1,'issue_type':'bug','created_at':'2025-10-02T09:00:00Z','updated_at':'2025-10-02T09:00:00Z'}").

(** No journal on disk. *)
Definition noJournal : World MemStore.t :=
  mkWorld emptyStore (mkFS ∅ []) [] idle debug.

(** A journal that cannot be read. *)
Definition unreadable : World MemStore.t :=
  mkWorld emptyStore (withJournal (journal [alpha]) [OpReadFile]) [] idle quiet.

(** A fresh store and a journal of two entities. *)
Definition firstImport : World MemStore.t :=
  mkWorld emptyStore (withJournal (journal [alpha; gamma]) []) [] idle quiet.

(** A store whose [last_import_hash] is the hash of the journal. *)
Definition synced : World MemStore.t :=
  mkWorld
    (MemStore.mk ∅ [] [] {[ "last_import_hash" := sha256_hex (journal [alpha; gamma]) ]}
       [] now true)
    (withJournal (journal [alpha; gamma]) []) [] idle quiet.

(** A closed entity whose line has an [updated_at] and no [closed_at]. *)
Definition closedIssue : types.Issue :=
  types.mkIssue "bd-7" "done" "" "" "" "" "closed" 2 "task" "" None None
    63894906000 earlier None 0 None 0 [].

Definition closedLine : string :=
  (json_quotes "{'id':'bd-7','title':'done','description':'','status':'closed','priority':2,'issue_type':'task','created_at':'2025-10-01T09:00:00Z','updated_at':'2025-10-05T09:00:00Z'}").

(** A fresh store and a journal with that entity. *)
Definition closedImport : World MemStore.t :=
  mkWorld emptyStore (withJournal (journal [closedLine]) []) [] idle quiet.

(** The store has bd-42; the journal has bd-42 with the same title, type
    and priority and an edited description. *)
Definition caching : types.Issue :=
  types.mkIssue "bd-42" "Add caching" "Cache the index" "" "" "" "open" 2
    "feature" "" None None 63894906000 63894906000 None 0 None 0 [].

Definition cachingEdited : types.Issue :=
  types.mkIssue "bd-42" "Add caching" "Cache the index in memory" "" "" "" "open" 2
    "feature" "" None None 63894906000 earlier None 0 None 0 [].

Definition cachingEditedLine : string :=
  (json_quotes "{'id':'bd-42','title':'Add caching','description':'Cache the index in memory','status':'open','priority':2,'issue_type':'feature','created_at':'2025-10-01T09:00:00Z','updated_at':'2025-10-05T09:00:00Z'}").

Definition cachingStore : MemStore.t :=
  MemStore.mk {[ "bd-42" := caching ]} [] [] ∅ [] now true.

Definition cachingCollision (score : Z) : sqlite.CollisionDetail :=
  sqlite.mkCollisionDetail "bd-42" cachingEdited caching score.

Definition divergentEdit : World MemStore.t :=
  mkWorld cachingStore (withJournal (journal [cachingEditedLine]) []) [] idle quiet.

(** The store has bd-2 and bd-10, both dirty; the journal on disk lists
    bd-3 before bd-1. *)
Definition beta : types.Issue :=
  types.mkIssue "bd-2" "beta" "" "" "" "" "open" 2 "task" "" None None
    63894906000 63894906000 None 0 None 0 [].

Definition kappa : types.Issue :=
  types.mkIssue "bd-10" "kappa" "" "" "" "" "open" 3 "task" "" None None
    63894906000 63894906000 None 0 None 0 [].

Definition dirtyStore : MemStore.t :=
  MemStore.mk {[ "bd-2" := beta; "bd-10" := kappa ]} [] ["bd-2"; "bd-10"] ∅ [] now true.

Definition unflushed : World MemStore.t :=
  mkWorld dirtyStore (withJournal (journal [gamma; alpha]) []) [] pending quiet.



(** The entities of [alpha] and [gamma]. *)
Definition alphaIssue : types.Issue :=
  types.mkIssue "bd-1" "alpha" "" "" "" "" "open" 2 "task" "" None None
    63894906000 63894906000 None 0 None 0 [].

Definition gammaIssue : types.Issue :=
  types.mkIssue "bd-3" "gamma" "" "" "" "" "open" 1 "bug" "" None None
    63894992400 63894992400 None 0 None 0 [].

(** The same process after two failed flushes. *)
Definition failedTwice : FlushState :=
  mkFlushState true true false true true 2 (Some "failed to rename file").

Definition retrying : World MemStore.t :=
  mkWorld dirtyStore (withJournal (journal [gamma; alpha]) []) [] failedTwice quiet.

(** The journal cannot be renamed over. *)
Definition renameFails : World MemStore.t :=
  mkWorld dirtyStore (withJournal (journal [gamma; alpha]) [OpRename]) [] pending quiet.

(** The store of [unflushed] a moment later: bd-5 has been created, and is
    dirty, while the flush was writing. *)
Definition epsilon : types.Issue :=
  types.mkIssue "bd-5" "epsilon" "" "" "" "" "open" 2 "task" "" None None
    now now None 0 None 0 [].

Definition dirtyStoreLater : MemStore.t :=
  MemStore.mk {[ "bd-2" := beta; "bd-10" := kappa; "bd-5" := epsilon ]} []
    ["bd-2"; "bd-10"; "bd-5"] ∅ [("bd-5", "alice", now, "created")] now true.

(** The journal of the spec's conflict scenario. *)
Definition conflicted : World MemStore.t :=
  mkWorld emptyStore
    (withJournal (journal [alpha; "<<<<<<< HEAD"; gamma; "======="; gamma; ">>>>>>> branch"]) [])
    [] idle quiet.

(** The store has bd-42; the journal has bd-1 and an edited bd-42. *)
Definition remapImport : World MemStore.t :=
  mkWorld cachingStore (withJournal (journal [alpha; cachingEditedLine]) []) [] idle quiet.

(** The store has bd-1 as the journal has it; the journal also has bd-3,
    which depends on bd-9, an id that nobody has, and on bd-1. *)
Definition gammaLinks : list types.Dependency :=
  [ types.mkDependency "bd-3" "bd-9" "blocks"; types.mkDependency "bd-3" "bd-1" "blocks" ].

Definition gammaLinked : types.Issue := types.with_Dependencies gammaLinks gammaIssue.

Definition gammaLinkedLine : string :=
  (json_quotes "{'id':'bd-3','title':'gamma','description':'','status':'open','priority':1,'issue_type':'bug','created_at':'2025-10-02T09:00:00Z','updated_at':'2025-10-02T09:00:00Z','dependencies':[{'issue_id':'bd-3','depends_on_id':'bd-9','type':'blocks'},{'issue_id':'bd-3','depends_on_id':'bd-1','type':'blocks'}]}").

Definition alphaStore : MemStore.t :=
  MemStore.mk {[ "bd-1" := alphaIssue ]} [] [] ∅ [] now true.

Definition partialImport : World MemStore.t :=
  mkWorld alphaStore (withJournal (journal [alpha; gammaLinkedLine]) []) [] idle quiet.

(** A fresh store and a journal that has the line of bd-1 twice, then
    bd-3 with its two dependencies. *)
Definition duplicateImport : World MemStore.t :=
  mkWorld emptyStore (withJournal (journal [alpha; alpha; gammaLinkedLine]) []) []
    idle quiet.

(** bd-8 depends on bd-42. *)
Definition follower : types.Issue :=
  types.mkIssue "bd-8" "follow up" "" "" "" "" "open" 2 "task" "" None None
    63894906000 63894906000 None 0 None 0 [types.mkDependency "bd-8" "bd-42" "blocks"].

End Scenario.

(** ** Further cases

    Process states and journals for the properties beyond the claims. *)
Module Cases.

(** A store that is not the SQLite one, and a journal of two entities. *)
Definition plainStore : MemStore.t := MemStore.mk ∅ [] [] ∅ [] Scenario.now false.

Definition plainImport : World MemStore.t :=
  mkWorld plainStore
    (Scenario.withJournal (Scenario.journal [Scenario.alpha; Scenario.gamma]) [])
    [] Scenario.idle Scenario.quiet.

(** The process is dirty and the dirty set of the store is empty. *)
Definition nothingDirty : World MemStore.t :=
  mkWorld Scenario.emptyStore
    (Scenario.withJournal (Scenario.journal [Scenario.alpha]) [])
    [] Scenario.failedTwice Scenario.quiet.

(** Beside the journal there is a file the sync engine does not know. *)
Definition notesPath : string := ".beads/notes.txt".

Definition withNotes : World MemStore.t :=
  mkWorld Scenario.dirtyStore
    (mkFS {[ Scenario.jsonlPath := Scenario.journal [Scenario.gamma; Scenario.alpha];
             notesPath := bytes_of_string "keep" ]} [])
    [] Scenario.pending Scenario.quiet.

(** A line of 64 KiB between the lines of bd-1 and bd-3. *)
Definition longLine : bytes := repeat "a"%byte MaxScanTokenSize.

Definition withLongLine : bytes :=
  lines_text [bytes_of_string Scenario.alpha]
  ++ longLine ++ byte_LF :: Scenario.journal [Scenario.gamma].

Definition longJournal : World MemStore.t :=
  mkWorld Scenario.dirtyStore (Scenario.withJournal withLongLine []) []
    Scenario.pending Scenario.quiet.

(** A line of 2 MiB after the line of bd-1. *)
Definition hugeLine : bytes := repeat "a"%byte (2 * 1024 * 1024).

(** A journal with a blank line, then a line that is not JSON. *)
Definition broken : bytes :=
  Scenario.journal [Scenario.alpha; EmptyString; "{broken"; Scenario.gamma].

(** bd-3 depends on bd-1, in the store and in the journal. *)
Definition blocks31 : types.Dependency := types.mkDependency "bd-3" "bd-1" "blocks".

Definition linkedStore : MemStore.t :=
  MemStore.mk {[ "bd-1" := Scenario.alphaIssue; "bd-3" := Scenario.gammaIssue ]}
    [blocks31] [] ∅ [] Scenario.now true.

Definition gammaLinked : types.Issue :=
  types.with_Dependencies [blocks31] Scenario.gammaIssue.

(** A binary at 0.9.9 (no colours) and a database last written by 0.10.0. *)
Definition binary : Externals :=
  {| DepBlocks := "blocks";
     DependencyType_IsValid :=
       fun t => bool_decide (t ∈ ["blocks"; "related"; "parent-child"; "discovered-from"]);
     Version := "0.9.9";
     yellow := fun s => s |}.

Definition newerDatabase : World MemStore.t :=
  mkWorld (MemStore.mk ∅ [] [] {[ "bd_version" := "0.10.0" ]} [] Scenario.now true)
    (mkFS ∅ []) [] Scenario.idle Scenario.quiet.

End Cases.

(** * Theorems *)

(** ** SHA-256 and hex *)

Example round_constants :
  length SHA256.K = 64%nat
  /\ nth 0 SHA256.K 0 = 0x428a2f98 /\ nth 63 SHA256.K 0 = 0xc67178f2
  /\ SHA256.h0 SHA256.init = 0x6a09e667 /\ SHA256.h7 SHA256.init = 0x5be0cd19.
Proof. repeat split. Qed.

Example sha256_empty :
  sha256_hex [] = "e3b0c44298fc1c149afbf4c8996fb92427ae41e4649b934ca495991b7852b855".
Proof. vm_compute. reflexivity. Qed.

Example sha256_abc :
  sha256_hex (bytes_of_string "abc")
  = "ba7816bf8f01cfea414140de5dae2223b00361a396177a9cb410ff61f20015ad".
Proof. vm_compute. reflexivity. Qed.

Lemma EncodeToString_length (b : bytes) :
  String.length (Hex.EncodeToString b) = (2 * length b)%nat.
Proof. induction b as [|x b IH]; simpl; [reflexivity | rewrite IH; lia]. Qed.

Lemma Sum_length (data : bytes) : length (SHA256.Sum data) = 32%nat.
Proof. unfold SHA256.Sum. rewrite length_map. reflexivity. Qed.

Lemma sha256_hex_length (data : bytes) : String.length (sha256_hex data) = 64%nat.
Proof. unfold sha256_hex. rewrite EncodeToString_length, Sum_length. reflexivity. Qed.

Lemma sha256_hex_nonempty (data : bytes) : sha256_hex data <> "".
Proof.
  intros H. pose proof (sha256_hex_length data) as L. rewrite H in L. discriminate L.
Qed.

(** ** White space *)

(** ASCII spaces go on both sides; so do a no-break space (U+00A0), an em
    space (U+2003) and an ideographic space (U+3000). *)
Example TrimSpace_spaces :
  bytes_TrimSpace (bytes_of_string "  <<<<<<< HEAD ") = bytes_of_string "<<<<<<< HEAD"
  /\ bytes_TrimSpace ([xc2; xa0; x09] ++ bytes_of_string "=======" ++
                      [xe2; x80; x83; x20; xe3; x80; x80])
     = bytes_of_string "=======".
Proof. split; vm_compute; reflexivity. Qed.

(** Bytes that are no UTF-8 encoding decode to [utf8_RuneError], which is no
    space, and stay. *)
Example TrimSpace_invalid :
  bytes_TrimSpace [x20; xe1; x9a; x20] = [xe1; x9a]
  /\ bytes_TrimSpace [xa0; x41; xe3; x80; x0a] = [xa0; x41; xe3; x80]
  /\ utf8_DecodeRune [xed; xa0; x80] = (utf8_RuneError, 1%nat)
  /\ utf8_DecodeLastRune [x41; xf0; x9f; x98; x80] = (0x1F600, 4%nat).
Proof. repeat split. Qed.

(** ** Printing changes nothing but standard error *)

Section Frame.

Context {S : Type}.

Lemma same_refl (w : World S) : same_but_stderr w w.
Proof. repeat split. Qed.

Lemma same_trans (w1 w2 w3 : World S) :
  same_but_stderr w1 w2 -> same_but_stderr w2 w3 -> same_but_stderr w1 w3.
Proof. unfold same_but_stderr. intuition congruence. Qed.

Lemma same_eprintf (msg : string) (w : World S) : same_but_stderr w (eprintf msg w).
Proof. repeat split. Qed.

Lemma same_debugf (msg : string) (w : World S) : same_but_stderr w (debugf msg w).
Proof. unfold debugf. destruct (decide _); repeat split. Qed.

Lemma same_fold_left {A} (f : World S -> A -> World S) (l : list A) (w : World S) :
  (forall w x, same_but_stderr w (f w x)) ->
  same_but_stderr w (fold_left f l w).
Proof.
  intros Hf. revert w. induction l as [|x l IH]; intros w; simpl.
  - apply same_refl.
  - eapply same_trans; [apply Hf | apply IH].
Qed.

Lemma same_fold_eprintf (msgs : list string) (w : World S) :
  same_but_stderr w (fold_left (fun w msg => eprintf msg w) msgs w).
Proof. apply same_fold_left. intros w1 msg. apply same_eprintf. Qed.

Lemma stderr_fold_eprintf (msgs : list string) (w : World S) :
  stderr (fold_left (fun w msg => eprintf msg w) msgs w) = stderr w ++ msgs.
Proof.
  revert w. induction msgs as [|m msgs IH]; intros w; simpl.
  - by rewrite app_nil_r.
  - rewrite IH. simpl. by rewrite <- app_assoc.
Qed.

Lemma debugf_quiet (msg : string) (w : World S) :
  env_BD_DEBUG (env w) = "" -> debugf msg w = w.
Proof. intros H. unfold debugf. destruct (decide _); [reflexivity | contradiction]. Qed.

Lemma debugf_stderr (msg : string) (w : World S) :
  stderr (debugf msg w)
  = stderr w ++ (if decide (env_BD_DEBUG (env w) = "") then [] else [msg]).
Proof. unfold debugf. destruct (decide _); simpl; [by rewrite app_nil_r | reflexivity]. Qed.

End Frame.

(** ** Auto-import: the gate and the conflict scan *)

Section Gate.

Context {S : Type} `{!Storage S} `{!JSON}.

Lemma checkMergeConflicts_lines_true (path : string) (lines : list bytes) (w : World S) :
  (exists line, line ∈ lines /\ isConflictMarker (bytes_TrimSpace line) = true) ->
  checkMergeConflicts_lines path lines w
  = (fold_left (fun w msg => eprintf msg w) (conflictGuidance path) w, true).
Proof.
  induction lines as [|l lines IH]; intros (line & Hin & Hm).
  - by apply elem_of_nil in Hin.
  - cbn [checkMergeConflicts_lines].
    destruct (isConflictMarker (bytes_TrimSpace l)) eqn:E; [reflexivity|].
    apply IH. exists line. split; [|exact Hm].
    apply elem_of_cons in Hin as [->|Hin]; [congruence | exact Hin].
Qed.

Lemma checkMergeConflicts_lines_false (path : string) (lines : list bytes) (w : World S) :
  (forall line, line ∈ lines -> isConflictMarker (bytes_TrimSpace line) = false) ->
  checkMergeConflicts_lines path lines w = (w, false).
Proof.
  induction lines as [|l lines IH]; intros Hall; cbn [checkMergeConflicts_lines].
  - reflexivity.
  - rewrite (Hall l) by (apply elem_of_cons; by left).
    apply IH. intros line Hin. apply Hall. apply elem_of_cons. by right.
Qed.

Lemma validateJSONLHash_same (w : World S) :
  same_but_stderr w (validateJSONLHash w).1.
Proof.
  unfold validateJSONLHash.
  destruct (os_ReadFile _ _) as [data|e]; simpl; [|apply same_debugf].
  destruct (GetMetadata _ _) as [h|e]; destruct (decide _); simpl;
    repeat (first [apply same_debugf | eapply same_trans; [apply same_debugf|]]).
Qed.

(** What the gate answers, by cases on the file and the metadata. *)
Lemma validateJSONLHash_answer (w : World S) :
  (validateJSONLHash w).2 =
    match os_ReadFile (fs w) (findJSONLPath w) with
    | Err _ => ("", [], "", false)
    | Ok data =>
        let lastHash := match GetMetadata (store w) "last_import_hash" with
                        | Ok h => h
                        | Err _ => ""
                        end in
        if decide (sha256_hex data = lastHash) then ("", [], "", false)
        else (findJSONLPath w, data, sha256_hex data, true)
    end.
Proof.
  unfold validateJSONLHash.
  destruct (os_ReadFile _ _) as [data|e]; simpl; [|reflexivity].
  destruct (GetMetadata _ _) as [h|e]; destruct (decide _); reflexivity.
Qed.

Lemma autoImport_gate (w : World S) :
  autoImportIfNewer w =
    let '(w1, (jsonlPath, jsonlData, currentHash, shouldImport)) :=
      validateJSONLHash w in
    if shouldImport then autoImport_pipeline jsonlPath jsonlData currentHash w1
    else w1.
Proof.
  unfold autoImportIfNewer.
  destruct (validateJSONLHash w) as [w1 [[[p d] h] []]]; reflexivity.
Qed.

Lemma pipeline_conflict (path : string) (data : bytes) (hash : string) (w : World S) :
  hasConflictLine data ->
  autoImport_pipeline path data hash w
  = fold_left (fun w msg => eprintf msg w) (conflictGuidance path) w.
Proof.
  intros Hc. unfold autoImport_pipeline, checkMergeConflicts.
  rewrite (checkMergeConflicts_lines_true path _ w Hc). reflexivity.
Qed.

End Gate.

Section GateClaims.

Context {S : Type} `{!Storage S} `{!JSON}.

(** C10.  When the journal file does not exist or cannot be read,
    auto-import returns having changed neither the store (so not
    [last_import_hash] either), nor the files, nor the flush state; the only
    trace is one debug line on standard error, printed when [BD_DEBUG] is
    set and not otherwise. *)
Theorem auto_import_without_journal (w : World S) (e : error) :
  os_ReadFile (fs w) (findJSONLPath w) = Err e ->
  store (autoImportIfNewer w) = store w
  /\ GetMetadata (store (autoImportIfNewer w)) "last_import_hash"
     = GetMetadata (store w) "last_import_hash"
  /\ fs (autoImportIfNewer w) = fs w
  /\ flush (autoImportIfNewer w) = flush w
  /\ stderr (autoImportIfNewer w)
     = stderr w ++ (if decide (env_BD_DEBUG (env w) = "") then []
                    else ["Debug: auto-import skipped, JSONL not found: " +:+ e +:+ LF]).
Proof.
  intros Hread.
  assert (autoImportIfNewer w
          = debugf ("Debug: auto-import skipped, JSONL not found: " +:+ e +:+ LF) w) as ->.
  { rewrite autoImport_gate. unfold validateJSONLHash. rewrite Hread. reflexivity. }
  destruct (same_debugf ("Debug: auto-import skipped, JSONL not found: " +:+ e +:+ LF) w)
    as (Hs & Hf & Hfl & _).
  rewrite Hs, Hf, Hfl, debugf_stderr. repeat split.
Qed.

(** C2.  With the journal read, the gate compares the SHA-256 of its bytes
    with the stored [last_import_hash]: on equality auto-import stops there,
    having only printed its debug line; when the metadata read fails the
    last hash counts as empty, no digest equals it, and the import pipeline
    runs on the journal with the new hash. *)
Theorem hash_gate (w : World S) (data : bytes) :
  os_ReadFile (fs w) (findJSONLPath w) = Ok data ->
  match GetMetadata (store w) "last_import_hash" with
  | Ok lastHash =>
      if decide (sha256_hex data = lastHash) then
        autoImportIfNewer w
        = debugf ("Debug: auto-import skipped, JSONL unchanged (hash match)" +:+ LF) w
        /\ same_but_stderr w (autoImportIfNewer w)
      else
        autoImportIfNewer w
        = autoImport_pipeline (findJSONLPath w) data (sha256_hex data)
            (debugf ("Debug: auto-import triggered (hash changed)" +:+ LF) w)
  | Err e =>
      autoImportIfNewer w
      = autoImport_pipeline (findJSONLPath w) data (sha256_hex data)
          (debugf ("Debug: auto-import triggered (hash changed)" +:+ LF)
             (debugf ("Debug: metadata read failed (" +:+ e
                      +:+ "), treating as first import" +:+ LF) w))
  end.
Proof.
  intros Hread. rewrite autoImport_gate. unfold validateJSONLHash. rewrite Hread.
  destruct (GetMetadata (store w) "last_import_hash") as [lastHash|e].
  - destruct (decide (sha256_hex data = lastHash)) as [Heq|Hne].
    + split; [reflexivity | apply same_debugf].
    + reflexivity.
  - destruct (decide (sha256_hex data = "")) as [Heq|Hne];
      [by apply sha256_hex_nonempty in Heq | reflexivity].
Qed.

(** C3.  A journal with a line that, trimmed of white space, starts with
    the marker "<<<<<<< " or ">>>>>>> " or is exactly "=======" is never
    imported: auto-import leaves the store as it was (no entity, no
    dependency, the same [last_import_hash]), and the files and the flush
    state too; when the gate lets the journal through, the conflict
    guidance is what it prints last. *)
Theorem conflict_markers_abort (w : World S) (data : bytes) :
  files (fs w) !! findJSONLPath w = Some data ->
  hasConflictLine data ->
  store (autoImportIfNewer w) = store w
  /\ GetMetadata (store (autoImportIfNewer w)) "last_import_hash"
     = GetMetadata (store w) "last_import_hash"
  /\ fs (autoImportIfNewer w) = fs w
  /\ flush (autoImportIfNewer w) = flush w
  /\ ((validateJSONLHash w).2.2 = true ->
      stderr (autoImportIfNewer w)
      = stderr (validateJSONLHash w).1 ++ conflictGuidance (findJSONLPath w)).
Proof.
  intros Hfile Hc.
  pose proof (validateJSONLHash_same w) as Hsame.
  pose proof (validateJSONLHash_answer w) as Hans.
  rewrite autoImport_gate.
  destruct (validateJSONLHash w) as [w1 [[[p d] h] b]]; simpl in *.
  assert (b = true -> p = findJSONLPath w /\ d = data) as Hpd.
  { intros ->. unfold os_ReadFile in Hans. rewrite Hfile in Hans.
    destruct (fs_fails OpReadFile (fs w)); [discriminate|].
    destruct (decide _); [discriminate|]. by injection Hans as -> -> _. }
  destruct b.
  - destruct (Hpd eq_refl) as [-> ->]. rewrite pipeline_conflict by exact Hc.
    pose proof (same_fold_eprintf (conflictGuidance (findJSONLPath w)) w1) as Hfold.
    destruct (same_trans _ _ _ Hsame Hfold) as (Hs & Hf & Hfl & _).
    rewrite Hs, Hf, Hfl. repeat split. intros _. apply stderr_fold_eprintf.
  - destruct Hsame as (Hs & Hf & Hfl & _). rewrite Hs, Hf, Hfl. repeat split.
    discriminate.
Qed.

End GateClaims.

(** The journal is missing (with [BD_DEBUG] set), or present and unreadable
    (without). *)
Lemma auto_import_without_journal_witness :
  (os_ReadFile (fs Scenario.noJournal) (findJSONLPath Scenario.noJournal)
   = Err "open .beads/issues.jsonl: no such file or directory"
   /\ store (Scenario.autoImport [] Scenario.noJournal) = store Scenario.noJournal
   /\ stderr (Scenario.autoImport [] Scenario.noJournal)
      = ["Debug: auto-import skipped, JSONL not found: "
         +:+ "open .beads/issues.jsonl: no such file or directory" +:+ LF])
  /\ (os_ReadFile (fs Scenario.unreadable) (findJSONLPath Scenario.unreadable)
      = Err "read .beads/issues.jsonl: input/output error"
      /\ store (Scenario.autoImport [] Scenario.unreadable) = store Scenario.unreadable
      /\ stderr (Scenario.autoImport [] Scenario.unreadable) = []).
Proof.
  split.
  - assert (os_ReadFile (fs Scenario.noJournal) (findJSONLPath Scenario.noJournal)
            = Err "open .beads/issues.jsonl: no such file or directory") as Hread
      by (vm_compute; reflexivity).
    split; [exact Hread|].
    destruct (@auto_import_without_journal _ (MemStore_Storage []) Json_JSON
                Scenario.noJournal _ Hread) as (Hs & _ & _ & _ & He).
    split; [exact Hs | exact He].
  - assert (os_ReadFile (fs Scenario.unreadable) (findJSONLPath Scenario.unreadable)
            = Err "read .beads/issues.jsonl: input/output error") as Hread
      by (vm_compute; reflexivity).
    split; [exact Hread|].
    destruct (@auto_import_without_journal _ (MemStore_Storage []) Json_JSON
                Scenario.unreadable _ Hread) as (Hs & _ & _ & _ & He).
    split; [exact Hs | exact He].
Defined.

(** The stored hash is the journal's (the import is skipped), and the
    metadata read fails (the journal is imported all the same). *)
Lemma hash_gate_witness :
  (os_ReadFile (fs Scenario.synced) (findJSONLPath Scenario.synced)
   = Ok (Scenario.journal [Scenario.alpha; Scenario.gamma])
   /\ same_but_stderr Scenario.synced (Scenario.autoImport [] Scenario.synced))
  /\ (os_ReadFile (fs Scenario.firstImport) (findJSONLPath Scenario.firstImport)
      = Ok (Scenario.journal [Scenario.alpha; Scenario.gamma])
      /\ Scenario.autoImport [MemStore.OpGetMetadata] Scenario.firstImport
         = @autoImport_pipeline _ (MemStore_Storage [MemStore.OpGetMetadata]) Json_JSON
             Scenario.jsonlPath (Scenario.journal [Scenario.alpha; Scenario.gamma])
             (sha256_hex (Scenario.journal [Scenario.alpha; Scenario.gamma]))
             Scenario.firstImport
      /\ dom (MemStore.issues (store (Scenario.autoImport [MemStore.OpGetMetadata]
                                        Scenario.firstImport)))
         = {[ "bd-1"; "bd-3" ]}).
Proof.
  split.
  - assert (os_ReadFile (fs Scenario.synced) (findJSONLPath Scenario.synced)
            = Ok (Scenario.journal [Scenario.alpha; Scenario.gamma])) as Hread
      by (vm_compute; reflexivity).
    split; [exact Hread|].
    generalize (@hash_gate _ (MemStore_Storage []) Json_JSON Scenario.synced _ Hread).
    vm_compute. intros [_ H]. exact H.
  - assert (os_ReadFile (fs Scenario.firstImport) (findJSONLPath Scenario.firstImport)
            = Ok (Scenario.journal [Scenario.alpha; Scenario.gamma])) as Hread
      by (vm_compute; reflexivity).
    split; [exact Hread|].
    split.
    + generalize (@hash_gate _ (MemStore_Storage [MemStore.OpGetMetadata]) Json_JSON
                    Scenario.firstImport _ Hread).
      vm_compute. intros H. exact H.
    + vm_compute. reflexivity.
Defined.

(** The journal of the conflict scenario, whose second line is
    "<<<<<<< HEAD". *)
Lemma conflict_markers_abort_witness :
  files (fs Scenario.conflicted) !! findJSONLPath Scenario.conflicted
  = Some (Scenario.journal [Scenario.alpha; "<<<<<<< HEAD"; Scenario.gamma;
                            "======="; Scenario.gamma; ">>>>>>> branch"])
  /\ hasConflictLine (Scenario.journal [Scenario.alpha; "<<<<<<< HEAD"; Scenario.gamma;
                                        "======="; Scenario.gamma; ">>>>>>> branch"])
  /\ store (Scenario.autoImport [] Scenario.conflicted) = store Scenario.conflicted
  /\ stderr (Scenario.autoImport [] Scenario.conflicted)
     = conflictGuidance Scenario.jsonlPath.
Proof.
  assert (files (fs Scenario.conflicted) !! findJSONLPath Scenario.conflicted
          = Some (Scenario.journal [Scenario.alpha; "<<<<<<< HEAD"; Scenario.gamma;
                                    "======="; Scenario.gamma; ">>>>>>> branch"])) as Hfile
    by (vm_compute; reflexivity).
  assert (hasConflictLine (Scenario.journal [Scenario.alpha; "<<<<<<< HEAD"; Scenario.gamma;
                                             "======="; Scenario.gamma; ">>>>>>> branch"]))
    as Hc.
  { exists (bytes_of_string "<<<<<<< HEAD"). split.
    - apply (bool_decide_unpack _). vm_compute. exact I.
    - vm_compute. reflexivity. }
  split; [exact Hfile|]. split; [exact Hc|].
  generalize (@conflict_markers_abort _ (MemStore_Storage []) Json_JSON
                Scenario.conflicted _ Hfile Hc).
  vm_compute. intros (Hs & _ & _ & _ & He). split; [exact Hs | exact (He eq_refl)].
Defined.

(** ** Status and closed_at *)

Section ClosedAt.

Context {S : Type} `{!Storage S}.

(** The update path: [closed_at] in the update map. *)
Lemma buildIssueUpdates_closed_at (now : Time) (issue : types.Issue) :
  buildIssueUpdates now issue !! "closed_at" =
    Some (if decide (types.Status issue = "closed") then
            match types.ClosedAt issue with
            | Some closedAt => VTime closedAt
            | None => if Time_IsZero (types.UpdatedAt issue) then VTime now
                      else VTime (types.UpdatedAt issue)
            end
          else VNil).
Proof.
  unfold buildIssueUpdates.
  destruct (decide (types.Status issue = "closed")).
  - destruct (types.ClosedAt issue); [apply lookup_insert_eq|].
    destruct (Time_IsZero (types.UpdatedAt issue)); apply lookup_insert_eq.
  - apply lookup_insert_eq.
Qed.

(** The create path: [closed_at] of the issue handed to [CreateIssue]. *)
Lemma enforceClosedAtInvariant_closed_at (now : Time) (issue : types.Issue) :
  types.ClosedAt (enforceClosedAtInvariant now issue) =
    if decide (types.Status issue = "closed") then
      match types.ClosedAt issue with
      | Some closedAt => Some closedAt
      | None => Some now
      end
    else None.
Proof.
  unfold enforceClosedAtInvariant.
  destruct (decide (types.Status issue = "closed")); [|reflexivity].
  destruct (types.ClosedAt issue) eqn:E; [exact E | reflexivity].
Qed.

(** X23.  The two paths of the import differ on an incoming entity that is
    closed, has no [closed_at] and has an [updated_at].  Not in the store, it
    goes through [enforceClosedAtInvariant]: the issue handed to [CreateIssue]
    has [closed_at] the time of the import.  In the store, the update map built
    for it carries its [updated_at]. *)
Lemma create_path_closed_at (existingByID : gmap string types.Issue)
    (issue : types.Issue) (w : World S) :
  existingByID !! types.ID issue = None ->
  types.Status issue = "closed" ->
  types.ClosedAt issue = None ->
  Time_IsZero (types.UpdatedAt issue) = false ->
  importIssues_loop existingByID [issue] w
  = (let '(st, created, _) :=
       CreateIssue (store w)
         (types.with_ClosedAt (Some (env_now (env w))) issue) "auto-import" in
     (with_store st w, [created]))
  /\ buildIssueUpdates (env_now (env w)) issue !! "closed_at"
     = Some (VTime (types.UpdatedAt issue)).
Proof.
  intros Hnew Hclosed Hnone Hupdated. split.
  - cbn [importIssues_loop]. rewrite Hnew.
    unfold enforceClosedAtInvariant. rewrite Hnone.
    destruct (decide (types.Status issue = "closed")) as [_|Hne]; [|by destruct Hne].
    destruct (CreateIssue _ _ _) as [[st created] failed]. reflexivity.
  - rewrite buildIssueUpdates_closed_at, Hnone, Hupdated.
    destruct (decide (types.Status issue = "closed")) as [_|Hne]; [reflexivity|].
    by destruct Hne.
Qed.

End ClosedAt.

(** C7.  The create path of the import does not follow the stated order of
    preference: the entity of [Scenario.closedLine] is closed, has no
    [closed_at] and was updated on 2025-10-05; imported into a store that
    does not have it, it is created with [closed_at] the time of the import
    (2025-10-14), while the update map built for the same entity carries
    its [updated_at]. *)
Theorem import_create_closed_at_now :
  Json.Unmarshal (bytes_of_string Scenario.closedLine) = Ok Scenario.closedIssue
  /\ buildIssueUpdates Scenario.now Scenario.closedIssue !! "closed_at"
     = Some (VTime Scenario.earlier)
  /\ types.ClosedAt (enforceClosedAtInvariant Scenario.now Scenario.closedIssue)
     = Some Scenario.now
  /\ types.ClosedAt
       <$> MemStore.issues (store (Scenario.autoImport [] Scenario.closedImport)) !! "bd-7"
     = Some (Some Scenario.now)
  /\ Scenario.now <> Scenario.earlier.
Proof.
  split; [vm_compute; reflexivity|].
  split; [rewrite buildIssueUpdates_closed_at; reflexivity|].
  split; [rewrite enforceClosedAtInvariant_closed_at; reflexivity|].
  split; [vm_compute; reflexivity | discriminate].
Qed.

(** The entity of [Scenario.closedLine] is closed, has no [closed_at] and was
    updated on 2025-10-05; imported on 2025-10-14 into a store that does not
    have it, it is stored with [closed_at] 2025-10-14, while its update map
    has 2025-10-05. *)
Lemma create_path_closed_at_witness :
  (∅ : gmap string types.Issue) !! types.ID Scenario.closedIssue = None
  /\ types.Status Scenario.closedIssue = "closed"
  /\ types.ClosedAt Scenario.closedIssue = None
  /\ Time_IsZero (types.UpdatedAt Scenario.closedIssue) = false
  /\ Json.Unmarshal (bytes_of_string Scenario.closedLine) = Ok Scenario.closedIssue
  /\ (@importIssues_loop _ (MemStore_Storage []) ∅ [Scenario.closedIssue]
        Scenario.closedImport).2
     = [types.with_ClosedAt (Some Scenario.now) Scenario.closedIssue]
  /\ types.ClosedAt
       <$> MemStore.issues (store (Scenario.autoImport [] Scenario.closedImport)) !! "bd-7"
     = Some (Some Scenario.now)
  /\ buildIssueUpdates Scenario.now Scenario.closedIssue !! "closed_at"
     = Some (VTime Scenario.earlier)
  /\ Scenario.now <> Scenario.earlier.
Proof.
  assert ((∅ : gmap string types.Issue) !! types.ID Scenario.closedIssue = None) as Hnew
    by apply lookup_empty.
  destruct (@create_path_closed_at _ (MemStore_Storage []) ∅ Scenario.closedIssue
              Scenario.closedImport Hnew eq_refl eq_refl eq_refl) as [Hloop Hupdates].
  split; [exact Hnew|]. split; [reflexivity|]. split; [reflexivity|].
  split; [reflexivity|]. split; [vm_compute; reflexivity|].
  split; [rewrite Hloop; vm_compute; reflexivity|].
  split; [vm_compute; reflexivity|].
  split; [exact Hupdates | discriminate].
Defined.

(** ** Collisions *)

Section Collisions.

Context {S : Type} `{!Storage S} `{!JSON}.

Lemma collidingIDs_lookup (collisions : list sqlite.CollisionDetail)
    (m : gmap string bool) (k : string) :
  fold_left (fun m collision => <[sqlite.ID collision := true]> m) collisions m !! k
  = if bool_decide (k ∈ List.map sqlite.ID collisions) then Some true else m !! k.
Proof.
  revert m. induction collisions as [|c cs IH]; intros m; cbn [fold_left List.map].
  - rewrite bool_decide_eq_false_2; [reflexivity | apply not_elem_of_nil].
  - rewrite IH. destruct (decide (k ∈ List.map sqlite.ID cs)) as [Hin|Hnin].
    + rewrite !bool_decide_eq_true_2; [reflexivity | (apply elem_of_cons; by right) | exact Hin].
    + rewrite (bool_decide_eq_false_2 _ Hnin).
      destruct (decide (sqlite.ID c = k)) as [->|Hne].
      * rewrite lookup_insert_eq, bool_decide_eq_true_2; [reflexivity | (apply elem_of_cons; by left)].
      * rewrite lookup_insert_ne by exact Hne.
        rewrite bool_decide_eq_false_2; [reflexivity|].
        intros Hin. apply elem_of_cons in Hin as [->|Hin]; [by apply Hne | by apply Hnin].
Qed.

(** The filter keeps an issue exactly when no collision has its id. *)
Lemma filterCollidingIssues_elem (allIssues : list types.Issue)
    (collisions : list sqlite.CollisionDetail) (issue : types.Issue) :
  issue ∈ filterCollidingIssues allIssues collisions
  <-> issue ∈ allIssues
      /\ forall c, c ∈ collisions -> sqlite.ID c <> types.ID issue.
Proof.
  unfold filterCollidingIssues. rewrite !list_elem_of_In, filter_In.
  rewrite collidingIDs_lookup, lookup_empty.
  split; intros [Hin Hc]; (split; [exact Hin|]).
  - intros c Hcin Heq. destruct (bool_decide _) eqn:E; [discriminate|].
    apply bool_decide_eq_false in E. apply E. rewrite <- Heq.
    apply list_elem_of_In, in_map, list_elem_of_In, Hcin.
  - destruct (bool_decide _) eqn:E; [|reflexivity].
    apply bool_decide_eq_true in E.
    apply list_elem_of_In, in_map_iff in E as (c & Heq & Hcin).
    exfalso. apply (Hc c); [by apply list_elem_of_In | exact Heq].
Qed.

Lemma showCollisionRemapping_same (idMapping : gmap string string)
    (collisions : list sqlite.CollisionDetail) (w : World S) :
  same_but_stderr w (showCollisionRemapping idMapping collisions w).
Proof.
  unfold showCollisionRemapping.
  eapply same_trans; [|apply same_eprintf].
  eapply same_trans; [|destruct (_ <? _)%nat; [apply same_eprintf | apply same_refl]].
  eapply same_trans; [apply same_eprintf|].
  apply same_fold_left. intros w1 [oldID newID]. apply same_eprintf.
Qed.

End Collisions.

(** ** The order of identifiers *)

Lemma ascii_compare_lt_trans (a b c : ascii) :
  Ascii.compare a b = Lt -> Ascii.compare b c = Lt -> Ascii.compare a c = Lt.
Proof.
  unfold Ascii.compare. rewrite !N.compare_lt_iff. apply N.lt_trans.
Qed.

Lemma string_compare_lt_trans (s1 s2 s3 : string) :
  String.compare s1 s2 = Lt -> String.compare s2 s3 = Lt -> String.compare s1 s3 = Lt.
Proof.
  revert s2 s3. induction s1 as [|a s1 IH]; intros [|b s2] [|c s3]; simpl;
    try discriminate; try reflexivity.
  destruct (Ascii.compare a b) eqn:Eab; try discriminate;
    destruct (Ascii.compare b c) eqn:Ebc; try discriminate; intros H12 H23.
  - apply Ascii.compare_eq_iff in Eab, Ebc. subst.
    assert (Ascii.compare c c = Eq) as -> by apply N.compare_refl.
    by apply (IH s2).
  - apply Ascii.compare_eq_iff in Eab. subst. by rewrite Ebc.
  - apply Ascii.compare_eq_iff in Ebc. subst. by rewrite Eab.
  - by rewrite (ascii_compare_lt_trans a b c).
Qed.

Lemma string_leb_ltb (s1 s2 : string) :
  String.leb s1 s2 = true <-> String.ltb s1 s2 = true \/ s1 = s2.
Proof.
  unfold String.leb, String.ltb. destruct (String.compare s1 s2) eqn:E.
  - apply String.compare_eq_iff in E. intuition.
  - intuition.
  - split; [discriminate|]. intros [H| ->]; [discriminate|].
    assert (String.compare s2 s2 = Eq) as Hr.
    { clear. induction s2 as [|a s IH]; simpl; [reflexivity|].
      assert (Ascii.compare a a = Eq) as -> by apply N.compare_refl. exact IH. }
    congruence.
Qed.

Lemma string_ltb_trans (s1 s2 s3 : string) :
  String.ltb s1 s2 = true -> String.ltb s2 s3 = true -> String.ltb s1 s3 = true.
Proof.
  unfold String.ltb.
  destruct (String.compare s1 s2) eqn:E12; try discriminate.
  destruct (String.compare s2 s3) eqn:E23; try discriminate.
  intros _ _. by rewrite (string_compare_lt_trans s1 s2 s3).
Qed.

Lemma string_ltb_irrefl (s : string) : String.ltb s s = false.
Proof.
  unfold String.ltb.
  assert (String.compare s s = Eq) as ->; [|reflexivity].
  induction s as [|a s IH]; simpl; [reflexivity|].
  assert (Ascii.compare a a = Eq) as -> by apply N.compare_refl. exact IH.
Qed.

#[export] Instance issue_le_trans : Transitive issue_le.
Proof.
  unfold issue_le. intros a b c Hab Hbc.
  apply string_leb_ltb in Hab, Hbc. apply string_leb_ltb.
  destruct Hab as [Hab|Hab], Hbc as [Hbc|Hbc].
  - left. by apply (string_ltb_trans _ (types.ID b)).
  - left. by rewrite <- Hbc.
  - left. by rewrite Hab.
  - right. congruence.
Qed.

#[export] Instance issue_le_total : Total issue_le.
Proof. intros a b. apply String.leb_total. Qed.

Lemma sortByID_Permutation (issues : list types.Issue) : sortByID issues ≡ₚ issues.
Proof. apply merge_sort_Permutation. Qed.

Lemma sortByID_sorted (issues : list types.Issue) :
  StronglySorted issue_le (sortByID issues).
Proof. apply StronglySorted_merge_sort; apply _. Qed.

Lemma sortByID_ascending (issues : list types.Issue) :
  NoDup (types.ID <$> issues) -> ascending_by_id (sortByID issues).
Proof.
  intros Hnd.
  assert (NoDup (types.ID <$> sortByID issues)) as Hnd'.
  { by rewrite sortByID_Permutation. }
  pose proof (sortByID_sorted issues) as Hs. revert Hnd'.
  induction Hs as [|a l Hs IH Hall]; intros Hnd'; [constructor|].
  apply NoDup_cons in Hnd' as [Hnotin Hnd']. constructor; [by apply IH|].
  rewrite Forall_forall in Hall |- *. intros b Hb.
  pose proof (Hall b Hb) as Hle. unfold issue_le in Hle.
  apply string_leb_ltb in Hle. destruct Hle as [Hlt|Heq]; [exact Hlt|].
  exfalso. apply Hnotin. rewrite Heq. by apply list_elem_of_fmap_2.
Qed.

(** With distinct ids there is one sorted order: whatever order the
    entries come in, sorting gives the same list. *)
Lemma sortByID_unique (issues other : list types.Issue) :
  NoDup (types.ID <$> issues) ->
  other ≡ₚ issues -> Sorted issue_le other -> other = sortByID issues.
Proof.
  intros Hnd Hperm Hsorted.
  apply (Sorted_unique_strong issue_le); [| exact Hsorted | | ].
  - intros x1 x2 Hx1 Hx2 H12 H21.
    assert (types.ID x1 = types.ID x2) as Hid by (by apply String.leb_antisym).
    rewrite Hperm in Hx1. rewrite sortByID_Permutation in Hx2.
    clear -Hnd Hx1 Hx2 Hid. induction issues as [|i issues IH]; [by apply elem_of_nil in Hx1|].
    simpl in Hnd. apply NoDup_cons in Hnd as [Hnotin Hnd].
    apply elem_of_cons in Hx1 as [->|Hx1]; apply elem_of_cons in Hx2 as [->|Hx2].
    + reflexivity.
    + exfalso. apply Hnotin. rewrite Hid. by apply list_elem_of_fmap_2.
    + exfalso. apply Hnotin. rewrite <- Hid. by apply list_elem_of_fmap_2.
    + by apply IH.
  - apply Sorted_merge_sort. apply _.
  - rewrite Hperm. symmetry. apply sortByID_Permutation.
Qed.

(** ** Writing the journal *)

Lemma string_length_app (a b : string) :
  String.length (a +:+ b) = (String.length a + String.length b)%nat.
Proof. induction a as [|c a IH]; simpl; [reflexivity | by rewrite IH]. Qed.

Lemma tempPath_ne (jsonlPath : string) (pid : Z) : tempPathOf jsonlPath pid <> jsonlPath.
Proof.
  unfold tempPathOf. intros H. apply (f_equal String.length) in H.
  rewrite !string_length_app in H. simpl in H. lia.
Qed.

Section Writer.

Context `{!JSON}.

Lemma journal_text_nil : journal_text [] [].
Proof. exists []. split; [constructor | reflexivity]. Qed.

Lemma journal_text_cons (issue : types.Issue) (issues : list types.Issue)
    (text data : bytes) :
  json_Marshal issue = Ok text -> journal_text issues data ->
  journal_text (issue :: issues) ((text ++ [byte_LF]) ++ data).
Proof.
  intros Hm (texts & Hall & ->). exists (text :: texts).
  split; [by constructor | reflexivity].
Qed.

Lemma encodeIssues_spec (temp : string) (issues : list types.Issue) (f : FS) (c : bytes) :
  files f !! temp = Some c ->
  fs_faults (encodeIssues temp issues f).1 = fs_faults f
  /\ match (encodeIssues temp issues f).2 with
     | None => exists data, journal_text issues data
                            /\ files (encodeIssues temp issues f).1
                               = <[temp := c ++ data]> (files f)
     | Some _ => exists c', files (encodeIssues temp issues f).1 = <[temp := c']> (files f)
     end.
Proof.
  revert f c. induction issues as [|issue issues IH]; intros f c Hc; cbn [encodeIssues].
  - split; [reflexivity|]. exists []. split; [apply journal_text_nil|].
    simpl. rewrite app_nil_r. symmetry. by apply insert_id.
  - destruct (json_Marshal issue) as [text|e] eqn:Hm; simpl.
    { unfold file_Write. destruct (fs_fails OpWrite f) eqn:Hw; simpl.
      - split; [reflexivity|]. exists c. symmetry. by apply insert_id.
      - rewrite Hc. simpl.
        set (f1 := with_files (<[temp := c ++ text ++ [byte_LF]]> (files f)) f).
        destruct (IH f1 (c ++ text ++ [byte_LF])) as [Hfaults Hres].
        { apply lookup_insert_eq. }
        split; [exact Hfaults|].
        destruct (encodeIssues temp issues f1).2 as [e|].
        + destruct Hres as (c' & ->). exists c'. subst f1. simpl.
          apply insert_insert_eq.
        + destruct Hres as (data & Hj & ->). exists ((text ++ [byte_LF]) ++ data).
          split; [by apply journal_text_cons|]. subst f1. simpl.
          rewrite insert_insert_eq. by rewrite <- !app_assoc. }
    split; [reflexivity|]. exists c. symmetry. by apply insert_id.
Qed.

(** What [writeJSONLAtomically] leaves on disk: on success the journal with
    the issues' lines and no temp file; on failure the files as they were,
    with the temp file removed unless it could not even be created. *)
Lemma writeJSONLAtomically_spec (jsonlPath : string) (pid : Z)
    (issues : list types.Issue) (f : FS) :
  fs_faults (writeJSONLAtomically jsonlPath pid issues f).1 = fs_faults f
  /\ match (writeJSONLAtomically jsonlPath pid issues f).2 with
     | None =>
         exists data,
           journal_text issues data
           /\ files (writeJSONLAtomically jsonlPath pid issues f).1
              = <[jsonlPath := data]> (delete (tempPathOf jsonlPath pid) (files f))
     | Some _ =>
         (writeJSONLAtomically jsonlPath pid issues f).1 = f
         \/ files (writeJSONLAtomically jsonlPath pid issues f).1
            = delete (tempPathOf jsonlPath pid) (files f)
     end.
Proof.
  unfold writeJSONLAtomically. set (temp := tempPathOf jsonlPath pid).
  unfold os_Create. destruct (fs_fails OpCreate f) eqn:Hcreate; simpl.
  { split; [reflexivity|]. by left. }
  set (f1 := with_files (<[temp := []]> (files f)) f).
  destruct (encodeIssues_spec temp issues f1 []) as [Hfaults Hres].
  { apply lookup_insert_eq. }
  destruct (encodeIssues temp issues f1) as [f2 [e|]] eqn:Henc; simpl in *.
  { split; [exact Hfaults|]. right. destruct Hres as (c' & ->). subst f1. simpl.
    by rewrite delete_insert_eq, delete_insert_eq. }
  destruct Hres as (data & Hj & Hfiles). simpl in Hfiles.
  unfold file_Close. destruct (fs_fails OpClose f2) eqn:Hclose; simpl.
  { split; [exact Hfaults|]. right. rewrite Hfiles. subst f1. simpl.
    by rewrite insert_insert_eq, delete_insert_eq. }
  unfold os_Rename. destruct (fs_fails OpRename f2) eqn:Hrename; simpl.
  { split; [exact Hfaults|]. right. rewrite Hfiles. subst f1. simpl.
    by rewrite insert_insert_eq, delete_insert_eq. }
  rewrite Hfiles. rewrite lookup_insert_eq. simpl.
  split; [exact Hfaults|]. exists data. split; [exact Hj|].
  subst f1. simpl. by rewrite insert_insert_eq, delete_insert_eq.
Qed.

End Writer.

(** ** Reading the journal back *)

Section Reader.

Context {S : Type} `{!Storage S} `{!JSON}.

Lemma readExistingJSONL_loop_same (tokens : list bytes) (lineNum : Z)
    (m : gmap string types.Issue) (w : World S) :
  same_but_stderr w (readExistingJSONL_loop tokens lineNum m w).1.
Proof.
  revert lineNum m w. induction tokens as [|line tokens IH]; intros lineNum m w;
    cbn [readExistingJSONL_loop]; [apply same_refl|].
  destruct (decide (line = [])); [apply IH|].
  destruct (json_Unmarshal line); [apply IH|].
  eapply same_trans; [apply same_eprintf | apply IH].
Qed.

Lemma parseable_cons (line : bytes) (tokens : list bytes) :
  parseable (line :: tokens)
  = if decide (line = []) then parseable tokens
    else match json_Unmarshal line with
         | Ok issue => issue :: parseable tokens
         | Err _ => parseable tokens
         end.
Proof.
  unfold parseable. simpl. destruct (decide (line = [])); [reflexivity|].
  destruct (json_Unmarshal line); reflexivity.
Qed.

(** The map holds the lines that parse, later lines over earlier ones. *)
Lemma readExistingJSONL_loop_map (tokens : list bytes) (lineNum : Z)
    (m : gmap string types.Issue) (w : World S) :
  (readExistingJSONL_loop tokens lineNum m w).2
  = fold_left (fun m issue => <[types.ID issue := issue]> m) (parseable tokens) m.
Proof.
  revert lineNum m w. induction tokens as [|line tokens IH]; intros lineNum m w;
    [reflexivity|].
  cbn [readExistingJSONL_loop]. rewrite parseable_cons.
  destruct (decide (line = [])); [apply IH|].
  destruct (json_Unmarshal line); cbn [fold_left]; apply IH.
Qed.



Lemma indexed_keyed (issues : list types.Issue) (m : gmap string types.Issue) :
  keyed_by_id m ->
  keyed_by_id (fold_left (fun m issue => <[types.ID issue := issue]> m) issues m).
Proof.
  revert m. induction issues as [|issue issues IH]; intros m Hm; simpl; [exact Hm|].
  apply IH. apply map_Forall_insert_2; [reflexivity | exact Hm].
Qed.



Lemma readExistingJSONL_same (path : string) (w : World S) :
  same_but_stderr w (readExistingJSONL path w).1.
Proof.
  unfold readExistingJSONL. destruct (os_Open _ _); [|apply same_refl].
  apply readExistingJSONL_loop_same.
Qed.

Lemma readExistingJSONL_keyed (path : string) (w : World S) :
  keyed_by_id (readExistingJSONL path w).2.
Proof.
  unfold readExistingJSONL. destruct (os_Open _ _); [|apply map_Forall_empty].
  rewrite readExistingJSONL_loop_map. apply indexed_keyed, map_Forall_empty.
Qed.

(** ** Refreshing the dirty entries *)

Lemma fetch_keyed (st : S) (ids : list string) (m m' : gmap string types.Issue) :
  (forall id issue, GetIssue st id = Ok (Some issue) -> types.ID issue = id) ->
  keyed_by_id m ->
  fetchAndUpdateDirtyIssues st ids m = Ok m' ->
  keyed_by_id m'.
Proof.
  intros Hget. revert m. induction ids as [|id ids IH]; intros m Hm;
    cbn [fetchAndUpdateDirtyIssues].
  - by intros [= <-].
  - destruct (GetIssue st id) as [[issue|]|e] eqn:Hi; [| |discriminate].
    + destruct (GetDependencyRecords st id) as [deps|e]; [|discriminate].
      apply IH. apply map_Forall_insert_2; [|exact Hm].
      simpl. by apply Hget.
    + apply IH. by apply map_Forall_delete.
Qed.


End Reader.

(** ** The flush, step by step *)

Section FlushFacts.

Context {S : Type} `{!Storage S} `{!JSON}.

Lemma recordFlushFailure_frame (err : error) (w : World S) :
  store (recordFlushFailure err w) = store w
  /\ fs (recordFlushFailure err w) = fs w
  /\ env (recordFlushFailure err w) = env w
  /\ isDirty (flush (recordFlushFailure err w)) = isDirty (flush w)
  /\ flushFailureCount (flush (recordFlushFailure err w))
     = int_wrap (flushFailureCount (flush w) + 1)
  /\ lastFlushError (flush (recordFlushFailure err w)) = Some err.
Proof.
  unfold recordFlushFailure. destruct (3 <=? _); repeat split.
Qed.

Lemma recordFlushSuccess_frame (w : World S) :
  store (recordFlushSuccess w) = store w
  /\ fs (recordFlushSuccess w) = fs w
  /\ env (recordFlushSuccess w) = env w
  /\ stderr (recordFlushSuccess w) = stderr w
  /\ isDirty (flush (recordFlushSuccess w)) = isDirty (flush w)
  /\ flushFailureCount (flush (recordFlushSuccess w)) = 0
  /\ lastFlushError (flush (recordFlushSuccess w)) = None.
Proof. repeat split. Qed.

(** The flush got as far as rewriting the journal. *)
Lemma flushToJSONL_export_inr (w w1 : World S) (path : string) (ids : list string) :
  flushToJSONL_export w = inr (w1, path, ids) ->
  path = findJSONLPath w
  /\ GetDirtyIssues (store w) = Ok ids
  /\ ids <> []
  /\ exists m,
       fetchAndUpdateDirtyIssues (store w) ids
         (readExistingJSONL path (with_flush (flush_taken (flush w)) w)).2 = Ok m
       /\ writeJSONLAtomically path (env_pid (env w)) (sortByID (map_to_list m).*2) (fs w)
          = (fs w1, None)
       /\ store w1 = store w
       /\ flush w1 = flush_taken (flush w)
       /\ env w1 = env w
       /\ stderr w1
          = stderr (readExistingJSONL path (with_flush (flush_taken (flush w)) w)).1.
Proof.
  unfold flushToJSONL_export.
  destruct (storeActive (flush w)) eqn:Hactive; [|discriminate]. simpl.
  destruct (isDirty (flush w)) eqn:Hdirty; [|discriminate]. simpl.
  assert (with_flush
            (mkFlushState (autoFlushEnabled (flush w)) false false (flushTimer (flush w))
               true (flushFailureCount (flush w)) (lastFlushError (flush w))) w
          = with_flush (flush_taken (flush w)) w) as Hw0.
  { unfold flush_taken. by rewrite Hactive. }
  rewrite Hw0. set (w0 := with_flush (flush_taken (flush w)) w).
  change (store w0) with (store w). 
  destruct (GetDirtyIssues (store w)) as [dirtyIDs|e]; [|discriminate].
  destruct (decide (length dirtyIDs = 0%nat)) as [|Hlen]; [discriminate|].
  change (findJSONLPath w0) with (findJSONLPath w).
  pose proof (readExistingJSONL_same (findJSONLPath w) w0) as (Hs & Hf & Hfl & He).
  destruct (readExistingJSONL (findJSONLPath w) w0) as [wr m0] eqn:Hread. simpl in *.
  rewrite Hs. change (store w0) with (store w).
  destruct (fetchAndUpdateDirtyIssues (store w) dirtyIDs m0) as [m|e] eqn:Hfetch;
    [|discriminate].
  rewrite He, Hf. change (env w0) with (env w). change (fs w0) with (fs w).
  destruct (writeJSONLAtomically _ _ _ _) as [f [e|]] eqn:Hwrite; [discriminate|].
  intros [= <- <- <-]. split; [reflexivity|]. split; [reflexivity|].
  split; [by destruct dirtyIDs|].
  exists m. rewrite Hread. simpl. repeat split; assumption.
Qed.

(** The flush ended without rewriting the journal. *)
Lemma flushToJSONL_export_inl (w w' : World S) :
  flushToJSONL_export w = inl w' ->
  store w' = store w
  /\ env w' = env w
  /\ fs_faults (fs w') = fs_faults (fs w)
  /\ (files (fs w') = files (fs w)
      \/ files (fs w')
         = delete (tempPathOf (findJSONLPath w) (env_pid (env w))) (files (fs w))).
Proof.
  unfold flushToJSONL_export.
  destruct (storeActive (flush w)) eqn:Hactive; simpl;
    [|intros [= <-]; repeat split; by left].
  destruct (isDirty (flush w)) eqn:Hdirty; simpl;
    [|intros [= <-]; repeat split; by left].
  set (w0 := with_flush _ w).
  change (store w0) with (store w).
  destruct (GetDirtyIssues (store w)) as [dirtyIDs|e].
  2:{ intros [= <-]. destruct (recordFlushFailure_frame ("failed to get dirty issues: " +:+ e) w0)
        as (-> & -> & -> & _). repeat split; by left. }
  destruct (decide (length dirtyIDs = 0%nat)) as [|Hlen].
  { intros [= <-]. repeat split; by left. }
  change (findJSONLPath w0) with (findJSONLPath w).
  pose proof (readExistingJSONL_same (findJSONLPath w) w0) as (Hs & Hf & Hfl & He).
  destruct (readExistingJSONL (findJSONLPath w) w0) as [wr m0]. simpl in *.
  rewrite Hs. change (store w0) with (store w).
  destruct (fetchAndUpdateDirtyIssues (store w) dirtyIDs m0) as [m|e] eqn:Hfetch.
  2:{ intros [= <-]. destruct (recordFlushFailure_frame e wr) as (-> & -> & -> & _).
      rewrite Hs, Hf, He. repeat split; by left. }
  rewrite He, Hf. change (env w0) with (env w). change (fs w0) with (fs w).
  pose proof (writeJSONLAtomically_spec (findJSONLPath w) (env_pid (env w))
                (sortByID (map_to_list m).*2) (fs w)) as [Hfaults Hres].
  destruct (writeJSONLAtomically _ _ _ _) as [f [e|]] eqn:Hwrite; [|discriminate].
  simpl in *. intros [= <-].
  destruct (recordFlushFailure_frame e (with_fs f wr)) as (-> & -> & -> & _). simpl.
  rewrite Hs, He. split; [reflexivity|]. split; [reflexivity|]. split; [exact Hfaults|].
  destruct Hres as [-> | ->]; [by left | by right].
Qed.

Lemma flushToJSONL_commit_frame (path : string) (ids : list string) (w : World S) :
  fs (flushToJSONL_commit path ids w) = fs w
  /\ env (flushToJSONL_commit path ids w) = env w
  /\ flushFailureCount (flush (flushToJSONL_commit path ids w)) = 0
  /\ lastFlushError (flush (flushToJSONL_commit path ids w)) = None
  /\ isDirty (flush (flushToJSONL_commit path ids w)) = isDirty (flush w).
Proof.
  unfold flushToJSONL_commit.
  destruct (ClearDirtyIssuesByID (store w) ids) as [st [e|]]; simpl;
    (destruct (os_ReadFile _ _) as [data|e']; simpl;
     [destruct (SetMetadata _ _ _) as [st' [e''|]]|]; repeat split).
Qed.

End FlushFacts.

(** ** The order of the journal *)

Section Order.

Context {S : Type} `{!Storage S} `{!JSON}.

Lemma keyed_NoDup (m : gmap string types.Issue) :
  keyed_by_id m -> NoDup (types.ID <$> (map_to_list m).*2).
Proof.
  intros Hk.
  assert (types.ID <$> (map_to_list m).*2 = (map_to_list m).*1) as ->;
    [|apply NoDup_fst_map_to_list].
  assert (Forall (fun kv => types.ID kv.2 = kv.1) (map_to_list m)) as Hall.
  { apply Forall_forall. intros [k v] Hin. apply elem_of_map_to_list in Hin.
    exact (Hk k v Hin). }
  induction Hall as [|[k v] l Hkv Hall IH]; [reflexivity|].
  rewrite !fmap_cons. simpl in Hkv. rewrite IH. simpl. by rewrite Hkv.
Qed.

Lemma flushToJSONL_inr (w w1 : World S) (path : string) (ids : list string) :
  flushToJSONL_export w = inr (w1, path, ids) ->
  flushToJSONL w = flushToJSONL_commit path ids w1.
Proof. intros Hexport. unfold flushToJSONL. by rewrite Hexport. Qed.

(** C8.  A flush that rewrites the journal writes the JSON lines of a list
    of entities sorted by id, ascending in the byte-wise order of strings.
    When the store answers [GetIssue] with the entity of the id it was asked
    for, the ids in the file are strictly ascending and the order is the only
    sorted one: any arrangement of the same entities that is sorted is that
    list, so the lines do not depend on the order in which Go ranges over
    the map. *)
Theorem flush_journal_sorted (w w1 : World S) (path : string) (ids : list string) :
  flushToJSONL_export w = inr (w1, path, ids) ->
  exists issues data,
    files (fs (flushToJSONL w)) !! findJSONLPath w = Some data
    /\ journal_text issues data
    /\ Sorted issue_le issues
    /\ ((forall id issue, GetIssue (store w) id = Ok (Some issue) -> types.ID issue = id) ->
        ascending_by_id issues
        /\ forall other, other ≡ₚ issues -> Sorted issue_le other -> other = issues).
Proof.
  intros Hexport. rewrite (flushToJSONL_inr _ _ _ _ Hexport).
  destruct (flushToJSONL_commit_frame path ids w1) as (-> & _).
  destruct (flushToJSONL_export_inr _ _ _ _ Hexport)
    as (-> & Hdirty & Hne & m & Hfetch & Hwrite & _).
  pose proof (writeJSONLAtomically_spec (findJSONLPath w) (env_pid (env w))
                (sortByID (map_to_list m).*2) (fs w)) as [_ Hres].
  rewrite Hwrite in Hres. simpl in Hres. destruct Hres as (data & Hj & Hfiles).
  exists (sortByID (map_to_list m).*2), data.
  split; [rewrite Hfiles; apply lookup_insert_eq|]. split; [exact Hj|].
  split; [apply Sorted_merge_sort; apply _|].
  intros Hget.
  assert (NoDup (types.ID <$> (map_to_list m).*2)) as Hnd.
  { apply keyed_NoDup. eapply fetch_keyed; [exact Hget | | exact Hfetch].
    apply readExistingJSONL_keyed. }
  split; [by apply sortByID_ascending|].
  intros other Hperm Hsorted. apply sortByID_unique; [exact Hnd | | exact Hsorted].
  rewrite Hperm. apply sortByID_Permutation.
Qed.

End Order.

(** Two dirty entities, bd-2 and bd-10, and a journal that lists bd-3 before
    bd-1: the rewritten journal has bd-1, bd-10, bd-2, bd-3. *)
Lemma flush_journal_sorted_witness :
  exists w1,
    @flushToJSONL_export _ (MemStore_Storage []) Json_JSON Scenario.unflushed
    = inr (w1, Scenario.jsonlPath, ["bd-2"; "bd-10"])
    /\ (exists issues data,
          files (fs (Scenario.flushJSONL [] Scenario.unflushed)) !! Scenario.jsonlPath
          = Some data
          /\ @journal_text Json_JSON issues data
          /\ Sorted issue_le issues)
    /\ (fun r => match r with Ok l => Some (types.ID <$> l) | Err _ => None end)
         (@parseJSONLIssues Json_JSON
            (default [] (files (fs (Scenario.flushJSONL [] Scenario.unflushed))
                         !! Scenario.jsonlPath)))
       = Some ["bd-1"; "bd-10"; "bd-2"; "bd-3"].
Proof.
  eexists. split; [vm_compute; reflexivity|].
  split.
  - destruct (@flush_journal_sorted _ (MemStore_Storage []) Json_JSON Scenario.unflushed
                _ _ _ ltac:(vm_compute; reflexivity))
      as (issues & data & Hfile & Htext & Hsorted & _).
    exists issues, data. split; [exact Hfile|]. split; [exact Htext | exact Hsorted].
  - vm_compute. reflexivity.
Defined.

(** ** Lines that do not parse *)


Section Malformed.

Context {S : Type} `{!Storage S} `{!JSON}.





End Malformed.


(** ** The import pipeline, stage by stage *)

Section Pipeline.

Context {S : Type} `{!Storage S} `{!JSON}.

Lemma handleCollisions_frame (allIssues : list types.Issue) (w : World S) :
  fs (handleCollisions allIssues w).1 = fs w
  /\ flush (handleCollisions allIssues w).1 = flush w
  /\ env (handleCollisions allIssues w).1 = env w.
Proof.
  unfold handleCollisions.
  destruct (DetectCollisions _ _) as [result|e]; [|repeat split].
  destruct (decide _); [repeat split|].
  destruct (SearchIssues _ _ _) as [existing|e]; [|repeat split].
  destruct (ScoreCollisions _ _ _) as [scored|e]; [|repeat split].
  destruct (RemapCollisions _ _ _ _) as [[st [collisions remapped]] [idMapping|e]];
    [|repeat split].
  cbn [fst].
  destruct (showCollisionRemapping_same idMapping collisions (with_store st w))
    as (_ & -> & -> & ->).
  repeat split.
Qed.

Lemma importIssues_loop_frame (existingByID : gmap string types.Issue)
    (issues : list types.Issue) (w : World S) :
  fs (importIssues_loop existingByID issues w).1 = fs w
  /\ flush (importIssues_loop existingByID issues w).1 = flush w
  /\ env (importIssues_loop existingByID issues w).1 = env w
  /\ stderr (importIssues_loop existingByID issues w).1 = stderr w.
Proof.
  revert w. induction issues as [|issue issues IH]; intros w; cbn [importIssues_loop];
    [repeat split|].
  destruct (existingByID !! types.ID issue) as [existing|].
  - destruct (UpdateIssue _ _ _ _) as [st failed].
    destruct (IH (with_store st w)) as (Hf & Hfl & He & Hs).
    destruct (importIssues_loop existingByID issues (with_store st w)) as [w' rest].
    simpl in *. repeat split; assumption.
  - destruct (CreateIssue _ _ _) as [[st created] failed].
    destruct (IH (with_store st w)) as (Hf & Hfl & He & Hs).
    destruct (importIssues_loop existingByID issues (with_store st w)) as [w' rest].
    simpl in *. repeat split; assumption.
Qed.

Lemma pipeline_no_conflict (path : string) (data : bytes) (hash : string) (w : World S) :
  (forall line, line ∈ bytes_Split byte_LF data ->
                isConflictMarker (bytes_TrimSpace line) = false) ->
  checkMergeConflicts path data w = (w, false).
Proof. intros Hnone. by apply checkMergeConflicts_lines_false. Qed.

Lemma upsertCalls_cons (existingByID : gmap string types.Issue) (now : Time)
    (issue : types.Issue) (issues : list types.Issue) (st : S) :
  upsertCalls existingByID now (issue :: issues) st
  = ((upsertCalls existingByID now issues (upsertCall existingByID now st issue).1).1,
     (upsertCall existingByID now st issue).2
     :: (upsertCalls existingByID now issues (upsertCall existingByID now st issue).1).2).
Proof.
  unfold upsertCalls.
  set (step := fun (acc : S * list types.Issue) (issue : types.Issue) =>
                 let '(st, issue) := upsertCall existingByID now acc.1 issue in
                 (st, acc.2 ++ [issue])).
  assert (forall l st done,
            fold_left step l (st, done)
            = ((fold_left step l (st, [])).1, done ++ (fold_left step l (st, [])).2))
    as Hacc.
  { induction l as [|i l IH]; intros st0 done; cbn [fold_left].
    - cbn [fst snd]. by rewrite app_nil_r.
    - unfold step at 2 4 6. cbn [fst snd].
      destruct (upsertCall existingByID now st0 i) as [st' i'].
      rewrite (IH st' (done ++ [i'])), (IH st' ([] ++ [i'])).
      cbn [fst snd]. by rewrite <- !app_assoc. }
  cbn [fold_left]. unfold step at 2 4. cbn [fst snd].
  destruct (upsertCall existingByID now st issue) as [st' issue'].
  rewrite (Hacc issues st' ([] ++ [issue'])). reflexivity.
Qed.

(** The upsert loop makes the call of every entity of its list. *)
Lemma importIssues_loop_calls (existingByID : gmap string types.Issue)
    (issues : list types.Issue) (w : World S) :
  importIssues_loop existingByID issues w
  = (with_store (upsertCalls existingByID (env_now (env w)) issues (store w)).1 w,
     (upsertCalls existingByID (env_now (env w)) issues (store w)).2).
Proof.
  revert w. induction issues as [|issue issues IH]; intros w.
  - cbn. by destruct w.
  - rewrite upsertCalls_cons. cbn [importIssues_loop fst snd].
    unfold upsertCall at 1 2 3.
    destruct (existingByID !! types.ID issue) as [existing|].
    + destruct (UpdateIssue (store w) _ _ _) as [st' failed]. cbn [fst snd].
      rewrite (IH (with_store st' w)). by destruct w.
    + destruct (CreateIssue (store w) _ _) as [[st' created] failed]. cbn [fst snd].
      rewrite (IH (with_store st' w)). by destruct w.
Qed.

Lemma importDependencies_calls (issues : list types.Issue) (st : S) :
  importDependenciesFromJSONL issues st = fold_left dependencyCalls issues st.
Proof.
  revert st. induction issues as [|issue issues IH]; intros st;
    cbn [importDependenciesFromJSONL fold_left]; [reflexivity|].
  rewrite IH. f_equal. unfold dependencyCalls.
  destruct (types.Dependencies issue) as [|dep deps] eqn:Hdeps; [reflexivity|].
  destruct (decide _) as [Hz|_]; [discriminate Hz|].
  destruct (GetDependencyRecords st (types.ID issue)) as [existingDeps|e]; [|reflexivity].
  generalize (dep :: deps). clear. intros deps. revert st.
  induction deps as [|dep deps IH]; intros st; cbn [addMissingDependencies fold_left];
    [reflexivity|].
  rewrite IH. by destruct (dependencyExists existingDeps dep).
Qed.

(** C6 (as amended).  With no conflict marker and a SQLite store, the stages
    that stop the import are the parse, the collision handling and the batch
    fetch of the existing entities: each ends the import with its error on
    standard error and [SetMetadata] is not reached.  Past them nothing
    stops it and nothing is reported: whatever [UpdateIssue] and
    [CreateIssue] return, the call of every entity of the list is made, each
    on the store the call before it left; whatever [GetDependencyRecords]
    and [AddDependency] return, the dependency calls of every entity are
    made; and [SetMetadata] is then called with the new hash, the only call
    whose error is printed. *)
Theorem import_stage_failures (path : string) (data : bytes) (hash : string)
    (w : World S) :
  (forall line, line ∈ bytes_Split byte_LF data ->
                isConflictMarker (bytes_TrimSpace line) = false) ->
  IsSQLite (store w) = true ->
  match parseJSONLIssues data with
  | Err err =>
      autoImport_pipeline path data hash w
      = eprintf ("Auto-import skipped: " +:+ err +:+ LF) w
  | Ok allIssues =>
      match handleCollisions allIssues w with
      | (w1, Err err) =>
          autoImport_pipeline path data hash w
          = eprintf ("Auto-import failed: " +:+ err +:+ LF) w1
      | (w1, Ok issues) =>
          match SearchIssues (store w1) "" types.EmptyFilter with
          | Err err =>
              autoImport_pipeline path data hash w
              = eprintf ("Auto-import failed: error fetching existing issues: "
                         +:+ err +:+ LF) w1
          | Ok existing =>
              let upserted :=
                upsertCalls (indexByID existing) (env_now (env w1)) issues (store w1) in
              let linked := fold_left dependencyCalls upserted.2 upserted.1 in
              let hashed := SetMetadata linked "last_import_hash" hash in
              autoImport_pipeline path data hash w
              = match hashed.2 with
                | Some err =>
                    eprintf ("This may cause auto-import to retry the same import "
                             +:+ "on next operation." +:+ LF)
                      (eprintf ("Warning: failed to update last_import_hash "
                                +:+ "after import: " +:+ err +:+ LF)
                         (with_store hashed.1 w1))
                | None => with_store hashed.1 w1
                end
          end
      end
  end.
Proof.
  intros Hnone Hsqlite. unfold autoImport_pipeline.
  rewrite (pipeline_no_conflict path data hash w Hnone).
  destruct (parseJSONLIssues data) as [allIssues|err]; [|reflexivity].
  rewrite Hsqlite. cbn [negb].
  destruct (handleCollisions allIssues w) as [w1 [issues|err]]; [|reflexivity].
  unfold importIssuesFromJSONL.
  destruct (SearchIssues (store w1) "" types.EmptyFilter) as [existing|err]; [|reflexivity].
  cbn zeta. rewrite importIssues_loop_calls.
  cbn [fst snd store with_store]. rewrite importDependencies_calls.
  destruct (SetMetadata _ _ _) as [st [err|]]; reflexivity.
Qed.

(** An import that reaches the hash leaves the store [SetMetadata] returns
    and the files as they were. *)
Lemma pipeline_reaches_hash (path : string) (data : bytes) (hash : string)
    (w : World S) (st : S) :
  import_reaches_hash data w st ->
  store (autoImport_pipeline path data hash w)
  = (SetMetadata st "last_import_hash" hash).1
  /\ fs (autoImport_pipeline path data hash w) = fs w.
Proof.
  intros (Hnone & Hsqlite & allIssues & w1 & issues & existing & Hparse & Hhandle
          & Hsearch & ->).
  unfold autoImport_pipeline.
  rewrite (pipeline_no_conflict path data hash w Hnone), Hparse, Hsqlite, Hhandle.
  cbn [negb]. unfold importIssuesFromJSONL. rewrite Hsearch.
  pose proof (handleCollisions_frame allIssues w) as (Hf1 & _).
  rewrite Hhandle in Hf1. simpl in Hf1.
  pose proof (importIssues_loop_frame (indexByID existing) issues w1) as (Hf2 & _).
  destruct (importIssues_loop (indexByID existing) issues w1) as [w2 issues2].
  simpl in Hf2. cbn [fst snd store with_store].
  destruct (SetMetadata _ _ _) as [st [err|]]; simpl; split; congruence.
Qed.

End Pipeline.

(** A fresh store and a journal with the line of bd-1 twice and then bd-3,
    which depends on bd-9, that nobody has, and on bd-1.  The second
    creation of bd-1 fails and the dependency on bd-9 is refused, and yet
    bd-3 is created, its dependency on bd-1 is added, nothing is printed and
    the new hash is stored. *)
Lemma import_stage_failures_witness :
  (forall line,
     line ∈ bytes_Split byte_LF
              (Scenario.journal [Scenario.alpha; Scenario.alpha; Scenario.gammaLinkedLine]) ->
     isConflictMarker (bytes_TrimSpace line) = false)
  /\ @IsSQLite _ (MemStore_Storage []) (store Scenario.duplicateImport) = true
  /\ (MemStore.CreateIssue []
        (MemStore.CreateIssue [] (store Scenario.duplicateImport) Scenario.alphaIssue
           "auto-import").1.1
        Scenario.alphaIssue "auto-import").2
     = Some "UNIQUE constraint failed: issues.id bd-1"
  /\ (let imported :=
        @autoImport_pipeline _ (MemStore_Storage []) Json_JSON Scenario.jsonlPath
          (Scenario.journal [Scenario.alpha; Scenario.alpha; Scenario.gammaLinkedLine])
          (sha256_hex
             (Scenario.journal [Scenario.alpha; Scenario.alpha; Scenario.gammaLinkedLine]))
          Scenario.duplicateImport in
      MemStore.issues (store imported)
      = {[ "bd-1" := Scenario.alphaIssue; "bd-3" := Scenario.gammaLinked ]}
      /\ MemStore.deps (store imported) = [types.mkDependency "bd-3" "bd-1" "blocks"]
      /\ MemStore.audit (store imported)
         = [ ("bd-1", "auto-import", Scenario.now, "created");
             ("bd-3", "auto-import", Scenario.now, "created");
             ("bd-3", "auto-import", Scenario.now, "dependency_added") ]
      /\ MemStore.metadata (store imported) !! "last_import_hash"
         = Some (sha256_hex
                   (Scenario.journal
                      [Scenario.alpha; Scenario.alpha; Scenario.gammaLinkedLine]))
      /\ stderr imported = []).
Proof.
  assert (forall line,
            line ∈ bytes_Split byte_LF
                     (Scenario.journal
                        [Scenario.alpha; Scenario.alpha; Scenario.gammaLinkedLine]) ->
            isConflictMarker (bytes_TrimSpace line) = false) as Hnone.
  { apply Forall_forall. apply (bool_decide_unpack _). vm_compute. exact I. }
  assert (@IsSQLite _ (MemStore_Storage []) (store Scenario.duplicateImport) = true)
    as Hsqlite by reflexivity.
  split; [exact Hnone|]. split; [exact Hsqlite|].
  split; [vm_compute; reflexivity|].
  pose proof (@import_stage_failures _ (MemStore_Storage []) Json_JSON Scenario.jsonlPath
                (Scenario.journal [Scenario.alpha; Scenario.alpha; Scenario.gammaLinkedLine])
                (sha256_hex
                   (Scenario.journal
                      [Scenario.alpha; Scenario.alpha; Scenario.gammaLinkedLine]))
                Scenario.duplicateImport Hnone Hsqlite) as Hstages.
  assert (@parseJSONLIssues Json_JSON
            (Scenario.journal [Scenario.alpha; Scenario.alpha; Scenario.gammaLinkedLine])
          = Ok [Scenario.alphaIssue; Scenario.alphaIssue; Scenario.gammaLinked]) as Hparse
    by (vm_compute; reflexivity).
  assert (@handleCollisions _ (MemStore_Storage [])
            [Scenario.alphaIssue; Scenario.alphaIssue; Scenario.gammaLinked]
            Scenario.duplicateImport
          = (Scenario.duplicateImport,
             Ok [Scenario.alphaIssue; Scenario.alphaIssue; Scenario.gammaLinked]))
    as Hhandle by (vm_compute; reflexivity).
  assert (@SearchIssues _ (MemStore_Storage []) (store Scenario.duplicateImport) ""
            types.EmptyFilter = Ok []) as Hsearch
    by (vm_compute; reflexivity).
  rewrite Hparse, Hhandle, Hsearch in Hstages. cbv zeta.
  rewrite Hstages.
  split; [vm_compute; reflexivity|]. split; [vm_compute; reflexivity|].
  split; [vm_compute; reflexivity|]. split; vm_compute; reflexivity.
Defined.

(** C6, as stated, fails.  The store has bd-1 as the journal has it and its
    [UpdateIssue] fails; the journal also has bd-3.  [UpdateIssue] returns
    an error for bd-1, the import goes on, creates bd-3, adds its
    dependency, reports nothing and stores the journal's hash, so the next
    auto-import is skipped by the gate. *)
Lemma update_failure_counterexample :
  @parseJSONLIssues Json_JSON (Scenario.journal [Scenario.alpha; Scenario.gammaLinkedLine])
  = Ok [Scenario.alphaIssue; Scenario.gammaLinked]
  /\ (MemStore.UpdateIssue [MemStore.OpUpdateIssue] (store Scenario.partialImport) "bd-1"
        (buildIssueUpdates Scenario.now Scenario.alphaIssue) "auto-import").2
     = Some "update issue: database is locked"
  /\ MemStore.issues (store (Scenario.autoImport [MemStore.OpUpdateIssue]
                               Scenario.partialImport)) !! "bd-3"
     = Some Scenario.gammaLinked
  /\ MemStore.deps (store (Scenario.autoImport [MemStore.OpUpdateIssue]
                             Scenario.partialImport))
     = [types.mkDependency "bd-3" "bd-1" "blocks"]
  /\ stderr (Scenario.autoImport [MemStore.OpUpdateIssue] Scenario.partialImport) = []
  /\ MemStore.GetMetadata [MemStore.OpUpdateIssue]
       (store (Scenario.autoImport [MemStore.OpUpdateIssue] Scenario.partialImport))
       "last_import_hash"
     = Ok (sha256_hex (Scenario.journal [Scenario.alpha; Scenario.gammaLinkedLine]))
  /\ Scenario.autoImport [MemStore.OpUpdateIssue]
       (Scenario.autoImport [MemStore.OpUpdateIssue] Scenario.partialImport)
     = Scenario.autoImport [MemStore.OpUpdateIssue] Scenario.partialImport
  /\ ~ update_failure_aborts [MemStore.OpUpdateIssue] Scenario.partialImport
        Scenario.alphaIssue.
Proof.
  split; [vm_compute; reflexivity|].
  split; [vm_compute; reflexivity|].
  split; [vm_compute; reflexivity|].
  split; [vm_compute; reflexivity|].
  split; [vm_compute; reflexivity|].
  split; [vm_compute; reflexivity|].
  split; [vm_compute; reflexivity|].
  intros Hclaim. unfold update_failure_aborts in Hclaim.
  assert ((MemStore.UpdateIssue [MemStore.OpUpdateIssue] (store Scenario.partialImport)
             (types.ID Scenario.alphaIssue)
             (buildIssueUpdates (env_now (env Scenario.partialImport)) Scenario.alphaIssue)
             "auto-import").2 <> None) as Hfails
    by (vm_compute; discriminate).
  specialize (Hclaim Hfails). vm_compute in Hclaim. discriminate Hclaim.
Qed.

(** ** The store in memory keeps the contract *)

Lemma MemStore_Laws (F : list MemStore.Op) :
  MemStore.OpGetMetadata ∉ F -> @StorageLaws MemStore.t (MemStore_Storage F).
Proof.
  intros Hget. split.
  - intros st st' key value. cbn. unfold MemStore.SetMetadata, MemStore.GetMetadata.
    destruct (MemStore.fails F MemStore.OpSetMetadata); [discriminate|].
    intros [= <-]. unfold MemStore.fails. rewrite bool_decide_eq_false_2 by exact Hget.
    simpl. by rewrite lookup_insert_eq.
  - intros st st' ids dirty. cbn.
    unfold MemStore.ClearDirtyIssuesByID, MemStore.GetDirtyIssues.
    destruct (MemStore.fails F MemStore.OpClearDirtyIssuesByID); [discriminate|].
    intros [= <-]. destruct (MemStore.fails F MemStore.OpGetDirtyIssues); [discriminate|].
    by intros [= <-].
  - intros st key value. cbn. unfold MemStore.SetMetadata, MemStore.GetDirtyIssues.
    destruct (MemStore.fails F MemStore.OpSetMetadata); reflexivity.
Qed.

(** ** Collisions in the store in memory *)

(** *** Fresh identifiers *)

Lemma candidate_inj (prefix : string) (n m : Z) :
  prefix +:+ "-" +:+ pretty n = prefix +:+ "-" +:+ pretty m -> n = m.
Proof.
  assert (forall a b c : string, a +:+ b = a +:+ c -> b = c) as Hinj.
  { induction a as [|x a IH]; intros b c; simpl; [done|]. intros [= H']. by apply IH. }
  intros Heq. apply Hinj, Hinj in Heq. by apply (inj pretty) in Heq.
Qed.

Lemma size_list_to_set_le (l : list string) :
  (size (list_to_set l : gset string) <= length l)%nat.
Proof.
  induction l as [|x l IH]; [by rewrite list_to_set_nil, size_empty|].
  rewrite list_to_set_cons, size_union_alt, size_singleton. simpl.
  pose proof (subseteq_size (list_to_set l ∖ {[x]}) (list_to_set l : gset string)) as Hle.
  specialize (Hle (subseteq_difference_l _ _ _ (reflexivity _))). lia.
Qed.

(** Counting up from [n], [freshFrom] stops at a candidate that is not in
    use, when the ids in use from [n] on are no more than its fuel. *)
Lemma freshFrom_unused (fuel : nat) (n : Z) (prefix : string)
    (used : string -> bool) (X : gset string) :
  (forall m, n <= m -> used (prefix +:+ "-" +:+ pretty m) = true ->
             prefix +:+ "-" +:+ pretty m ∈ X) ->
  (size X <= fuel)%nat ->
  used (MemStore.freshFrom fuel n prefix used) = false.
Proof.
  revert n X. induction fuel as [|fuel IH]; intros n X Hused Hsize; cbn [MemStore.freshFrom].
  - destruct (used _) eqn:E; [|reflexivity].
    apply Hused in E; [|lia].
    assert (X = ∅) as -> by (apply leibniz_equiv, size_empty_iff; lia).
    by apply not_elem_of_empty in E.
  - destruct (used (prefix +:+ "-" +:+ pretty n)) eqn:E; [|exact E].
    apply (IH (n + 1) (X ∖ {[prefix +:+ "-" +:+ pretty n]})).
    + intros m Hm Hu. apply elem_of_difference. split; [apply Hused; [lia | exact Hu]|].
      intros Heq%elem_of_singleton%candidate_inj. lia.
    + apply Hused in E; [|lia].
      rewrite size_difference by (by apply singleton_subseteq_l).
      rewrite size_singleton.
      assert (size X <> 0%nat); [|lia].
      intros Hz. apply size_empty_iff in Hz. apply leibniz_equiv in Hz. subst X.
      by apply not_elem_of_empty in E.
Qed.

(** I4: the id allocated is not in the store and is none of the reserved. *)
Lemma freshID_fresh (prefix : string) (s : MemStore.t) (reserved : list string) :
  MemStore.issues s !! MemStore.freshID prefix s reserved = None
  /\ MemStore.freshID prefix s reserved ∉ reserved.
Proof.
  unfold MemStore.freshID.
  set (used := fun id : string =>
                 bool_decide (is_Some (MemStore.issues s !! id))
                 || bool_decide (id ∈ reserved)).
  pose proof (freshFrom_unused (size (MemStore.issues s) + length reserved) 1 prefix used
                (dom (MemStore.issues s) ∪ list_to_set reserved)) as Hfresh.
  assert (used (MemStore.freshFrom (size (MemStore.issues s) + length reserved) 1 prefix used)
          = false) as Hno.
  { apply Hfresh.
    - intros m _ Hu. unfold used in Hu. apply orb_true_iff in Hu as [Hu|Hu].
      + apply bool_decide_eq_true in Hu. apply elem_of_union_l, elem_of_dom, Hu.
      + apply bool_decide_eq_true in Hu. apply elem_of_union_r, elem_of_list_to_set, Hu.
    - rewrite size_union_alt, size_dom.
      pose proof (size_list_to_set_le reserved) as Hle.
      pose proof (subseteq_size (list_to_set reserved ∖ dom (MemStore.issues s))
                    (list_to_set reserved : gset string)) as Hle'.
      specialize (Hle' (subseteq_difference_l _ _ _ (reflexivity _))). lia. }
  unfold used in Hno at 1. apply orb_false_iff in Hno as [Hstore Hres].
  apply bool_decide_eq_false in Hstore, Hres.
  split; [|exact Hres].
  destruct (MemStore.issues s !! _) eqn:E; [|reflexivity].
  exfalso. apply Hstore. by eexists.
Qed.

Lemma allocate_fst (collisions : list sqlite.CollisionDetail) (reserved : list string)
    (s : MemStore.t) :
  (MemStore.allocate collisions reserved s).*1 = collisions.
Proof.
  revert reserved. induction collisions as [|c cs IH]; intros reserved; simpl;
    [reflexivity | by rewrite IH].
Qed.

(** The ids allocated are new to the store, none of the reserved, and
    different from one another. *)
Lemma allocate_fresh (collisions : list sqlite.CollisionDetail) (reserved : list string)
    (s : MemStore.t) :
  Forall (fun id => MemStore.issues s !! id = None /\ id ∉ reserved)
    (MemStore.allocate collisions reserved s).*2
  /\ NoDup (MemStore.allocate collisions reserved s).*2.
Proof.
  revert reserved. induction collisions as [|c cs IH]; intros reserved; simpl.
  - split; constructor.
  - destruct (freshID_fresh (MemStore.prefixOf (sqlite.ID c)) s reserved) as [Hnew Hres].
    destruct (IH (MemStore.freshID (MemStore.prefixOf (sqlite.ID c)) s reserved :: reserved))
      as [Hall Hnodup].
    split.
    + constructor; [by split|].
      eapply Forall_impl; [exact Hall|]. intros id [Hid Hnin]. split; [exact Hid|].
      intros Hin. apply Hnin. by right.
    + constructor; [|exact Hnodup].
      intros Hin. rewrite Forall_forall in Hall. destruct (Hall _ Hin) as [_ Hnin].
      apply Hnin. by left.
Qed.

(** The id allocated has the prefix asked for and a positive number. *)
Lemma freshFrom_shape (fuel : nat) (n : Z) (prefix : string) (used : string -> bool) :
  exists m, n <= m /\ MemStore.freshFrom fuel n prefix used = prefix +:+ "-" +:+ pretty m.
Proof.
  revert n. induction fuel as [|fuel IH]; intros n; cbn [MemStore.freshFrom].
  - exists n. split; [lia | reflexivity].
  - destruct (used _).
    + destruct (IH (n + 1)) as (m & Hm & ->). exists m. split; [lia | reflexivity].
    + exists n. split; [lia | reflexivity].
Qed.

Lemma allocate_shape (collisions : list sqlite.CollisionDetail) (reserved : list string)
    (s : MemStore.t) :
  Forall (fun remap =>
            exists n, 1 <= n
                      /\ remap.2 = MemStore.prefixOf (sqlite.ID remap.1) +:+ "-" +:+ pretty n)
    (MemStore.allocate collisions reserved s).
Proof.
  revert reserved. induction collisions as [|c cs IH]; intros reserved; simpl;
    constructor; [|apply IH].
  apply freshFrom_shape.
Qed.

(** *** The store, entity by entity *)

Lemma enforceI1_ID (now : Time) (i : types.Issue) :
  types.ID (MemStore.enforceI1 now i) = types.ID i.
Proof.
  unfold MemStore.enforceI1. destruct (decide _); [destruct (types.ClosedAt i)|]; reflexivity.
Qed.

Lemma put_keyed (actor change : string) (i : types.Issue) (s : MemStore.t) :
  keyed_by_id (MemStore.issues s) ->
  keyed_by_id (MemStore.issues (MemStore.put actor change i s)).
Proof. intros Hk. apply map_Forall_insert_2; [reflexivity | exact Hk]. Qed.

(** [UpdateIssue] writes under the id it is given only. *)
Lemma UpdateIssue_frame (F : list MemStore.Op) (s : MemStore.t) (id : string)
    (updates : gmap string Value) (actor : string) :
  keyed_by_id (MemStore.issues s) ->
  keyed_by_id (MemStore.issues (MemStore.UpdateIssue F s id updates actor).1)
  /\ forall k, k <> id ->
       MemStore.issues (MemStore.UpdateIssue F s id updates actor).1 !! k
       = MemStore.issues s !! k.
Proof.
  intros Hk. unfold MemStore.UpdateIssue.
  destruct (MemStore.fails F MemStore.OpUpdateIssue); [by split|].
  destruct (MemStore.issues s !! id) as [old|] eqn:Hold; [|by split].
  destruct (MemStore.applyUpdates (MemStore.clock s) updates old) as [new|] eqn:Hnew;
    [|by split].
  assert (types.ID new = id) as Hid.
  { unfold MemStore.applyUpdates in Hnew.
    destruct (negb _); [discriminate|].
    repeat (match type of Hnew with
            | (?x ≫= _) = Some _ => destruct x; [cbn [mbind option_bind] in Hnew|discriminate]
            end).
    injection Hnew as <-. exact (Hk _ _ Hold). }
  split.
  - by apply put_keyed.
  - intros k Hne. cbn [fst MemStore.put MemStore.issues].
    rewrite lookup_insert_ne; [reflexivity|]. rewrite enforceI1_ID, Hid. congruence.
Qed.

(** [CreateIssue] writes under an id that the store does not have. *)
Lemma CreateIssue_frame (F : list MemStore.Op) (s : MemStore.t) (issue : types.Issue)
    (actor : string) :
  keyed_by_id (MemStore.issues s) ->
  keyed_by_id (MemStore.issues (MemStore.CreateIssue F s issue actor).1.1)
  /\ forall k, is_Some (MemStore.issues s !! k) ->
       MemStore.issues (MemStore.CreateIssue F s issue actor).1.1 !! k
       = MemStore.issues s !! k.
Proof.
  intros Hk. unfold MemStore.CreateIssue.
  destruct (MemStore.fails F MemStore.OpCreateIssue); [by split|].
  set (id := if decide (types.ID issue = "") then _ else _).
  destruct (MemStore.issues s !! id) eqn:Hid; [by split|].
  split.
  - by apply put_keyed.
  - intros k [v Hv]. cbn [fst MemStore.put MemStore.issues].
    rewrite lookup_insert_ne; [reflexivity|].
    cbn. rewrite enforceI1_ID. cbn. congruence.
Qed.

Lemma AddDependency_issues (F : list MemStore.Op) (s : MemStore.t)
    (dep : types.Dependency) (actor : string) :
  MemStore.issues (MemStore.AddDependency F s dep actor).1 = MemStore.issues s.
Proof.
  unfold MemStore.AddDependency.
  destruct (MemStore.fails F MemStore.OpAddDependency); [reflexivity|].
  destruct (negb _); [reflexivity|]. destruct (bool_decide _); reflexivity.
Qed.

Lemma SetMetadata_issues (F : list MemStore.Op) (s : MemStore.t) (key value : string) :
  MemStore.issues (MemStore.SetMetadata F s key value).1 = MemStore.issues s.
Proof.
  unfold MemStore.SetMetadata. destruct (MemStore.fails F MemStore.OpSetMetadata); reflexivity.
Qed.

(** The dependency stage writes no entity. *)
Lemma importDependencies_issues (F : list MemStore.Op) (issues : list types.Issue)
    (s : MemStore.t) :
  MemStore.issues (@importDependenciesFromJSONL _ (MemStore_Storage F) issues s)
  = MemStore.issues s.
Proof.
  revert s. induction issues as [|issue issues IH]; intros s;
    cbn [importDependenciesFromJSONL]; [reflexivity|].
  rewrite IH. destruct (decide _); [reflexivity|].
  destruct (GetDependencyRecords s (types.ID issue)) as [existingDeps|e]; [|reflexivity].
  generalize (types.Dependencies issue). intros deps. revert s.
  induction deps as [|dep deps IHd]; intros s; cbn [addMissingDependencies]; [reflexivity|].
  rewrite IHd. destruct (dependencyExists existingDeps dep); [reflexivity|].
  apply AddDependency_issues.
Qed.

(** The upsert stage leaves alone every entity of the store whose id is
    not the id of an entity of its list. *)
Lemma importIssues_loop_untouched (F : list MemStore.Op)
    (existingByID : gmap string types.Issue) (issues : list types.Issue)
    (w : World MemStore.t) (k : string) :
  keyed_by_id (MemStore.issues (store w)) ->
  is_Some (MemStore.issues (store w) !! k) ->
  k ∉ List.map types.ID issues ->
  MemStore.issues
    (store (@importIssues_loop _ (MemStore_Storage F) existingByID issues w).1) !! k
  = MemStore.issues (store w) !! k.
Proof.
  revert w. induction issues as [|issue issues IH]; intros w Hk Hsome Hnin;
    cbn [importIssues_loop]; [reflexivity|].
  cbn [List.map] in Hnin. apply not_elem_of_cons in Hnin as [Hne Hnin].
  destruct (existingByID !! types.ID issue) as [existing|].
  - pose proof (UpdateIssue_frame F (store w) (types.ID issue)
                  (buildIssueUpdates (env_now (env w)) issue) "auto-import" Hk)
      as [Hk' Hframe].
    cbn [UpdateIssue MemStore_Storage].
    destruct (MemStore.UpdateIssue F (store w) (types.ID issue) _ "auto-import")
      as [st failed].
    cbn [fst] in Hk', Hframe.
    specialize (IH (with_store st w)). cbn [store with_store] in IH.
    destruct (importIssues_loop existingByID issues (with_store st w)) as [w' rest].
    cbn [fst] in *. rewrite IH; [by apply Hframe | exact Hk' | | exact Hnin].
    rewrite Hframe by exact Hne. exact Hsome.
  - pose proof (CreateIssue_frame F (store w)
                  (enforceClosedAtInvariant (env_now (env w)) issue) "auto-import" Hk)
      as [Hk' Hframe].
    cbn [CreateIssue MemStore_Storage].
    destruct (MemStore.CreateIssue F (store w) _ "auto-import") as [[st created] failed].
    cbn [fst] in Hk', Hframe.
    specialize (IH (with_store st w)). cbn [store with_store] in IH.
    destruct (importIssues_loop existingByID issues (with_store st w)) as [w' rest].
    cbn [fst] in *. rewrite IH; [by apply Hframe | exact Hk' | | exact Hnin].
    rewrite Hframe by exact Hsome. exact Hsome.
Qed.

(** *** Remapping *)

Lemma rewriteDependencies_ID (m : gmap string string) (i : types.Issue) :
  types.ID (MemStore.rewriteDependencies m i) = types.ID i.
Proof. reflexivity. Qed.

(** What the creation of the remapped entities leaves: each under its new
    id, and every other entity as it was. *)
Lemma createRemapped_fold (m : gmap string string)
    (allocated : list (sqlite.CollisionDetail * string)) (s : MemStore.t) :
  NoDup allocated.*2 ->
  keyed_by_id (MemStore.issues s) ->
  keyed_by_id (MemStore.issues (fold_left (MemStore.createRemapped m) allocated s))
  /\ MemStore.clock (fold_left (MemStore.createRemapped m) allocated s) = MemStore.clock s
  /\ (forall k, k ∉ allocated.*2 ->
        MemStore.issues (fold_left (MemStore.createRemapped m) allocated s) !! k
        = MemStore.issues s !! k)
  /\ (forall c newID, (c, newID) ∈ allocated ->
        MemStore.issues (fold_left (MemStore.createRemapped m) allocated s) !! newID
        = Some (MemStore.enforceI1 (MemStore.clock s)
                  (MemStore.rewriteDependencies m
                     (MemStore.with_ID newID (sqlite.IncomingIssue c))))).
Proof.
  induction allocated as [|[c0 id0] l IH] using rev_ind; intros Hnodup Hk.
  - split; [exact Hk|]. split; [reflexivity|]. split; [reflexivity|].
    intros c newID Hin. by apply elem_of_nil in Hin.
  - rewrite fmap_app in Hnodup. apply NoDup_app in Hnodup as (Hl & Hnin & _).
    destruct (IH Hl Hk) as (Hk1 & Hclock & Hother & Hnew). clear IH.
    rewrite fold_left_app. cbn [fold_left].
    set (s1 := fold_left (MemStore.createRemapped m) l s) in *.
    unfold MemStore.createRemapped. cbn [fst snd].
    split; [by apply put_keyed|]. split; [exact Hclock|]. split.
    + intros k Hkn. rewrite fmap_app in Hkn. apply not_elem_of_app in Hkn as [Hkl Hk0].
      cbn [MemStore.put MemStore.issues].
      rewrite lookup_insert_ne; [by apply Hother|].
      rewrite enforceI1_ID. cbn. intros <-. apply Hk0. by left.
    + intros c newID Hin. cbn [MemStore.put MemStore.issues].
      apply elem_of_app in Hin as [Hin|Hin].
      * rewrite lookup_insert_ne; [by apply (Hnew c)|].
        rewrite enforceI1_ID. cbn. intros <-.
        apply (Hnin id0); [|by left].
        apply list_elem_of_fmap. by exists (c, id0).
      * apply list_elem_of_singleton in Hin. injection Hin as -> ->.
        rewrite Hclock.
        set (e := MemStore.enforceI1 _ _).
        replace (types.ID e) with id0 by (unfold e; by rewrite enforceI1_ID).
        apply lookup_insert_eq.
Qed.

(** A collision that [DetectCollisions] reports is an entity of the list
    whose id the store has, under the same id. *)
Lemma DetectCollisions_elem (F : list MemStore.Op) (s : MemStore.t)
    (incoming : list types.Issue) (result : sqlite.CollisionResult)
    (c : sqlite.CollisionDetail) :
  MemStore.DetectCollisions F s incoming = Ok result ->
  c ∈ sqlite.Collisions result ->
  sqlite.IncomingIssue c ∈ incoming
  /\ sqlite.ID c = types.ID (sqlite.IncomingIssue c)
  /\ MemStore.issues s !! sqlite.ID c = Some (sqlite.ExistingIssue c).
Proof.
  unfold MemStore.DetectCollisions.
  destruct (MemStore.fails F MemStore.OpDetectCollisions); [discriminate|].
  intros [= <-] Hin. cbn in Hin.
  apply list_elem_of_omap in Hin as (i & Hi & Hsome).
  destruct (MemStore.issues s !! types.ID i) as [e|] eqn:He; [|discriminate].
  destruct (MemStore.sameContent e i); [discriminate|].
  injection Hsome as <-. cbn. by repeat split.
Qed.

(** Scoring changes the score of a record and nothing else. *)
Lemma ScoreCollisions_elem (F : list MemStore.Op) (s : MemStore.t)
    (collisions scored : list sqlite.CollisionDetail) (existing : list types.Issue)
    (c : sqlite.CollisionDetail) :
  MemStore.ScoreCollisions F s collisions existing = Ok scored ->
  c ∈ scored ->
  exists c0, c0 ∈ collisions
             /\ sqlite.ID c = sqlite.ID c0
             /\ sqlite.IncomingIssue c = sqlite.IncomingIssue c0
             /\ sqlite.ExistingIssue c = sqlite.ExistingIssue c0.
Proof.
  unfold MemStore.ScoreCollisions.
  destruct (MemStore.fails F MemStore.OpScoreCollisions); [discriminate|].
  intros [= <-] Hin. apply list_elem_of_In, in_map_iff in Hin as (c0 & <- & Hin).
  exists c0. split; [by apply list_elem_of_In | by repeat split].
Qed.

Lemma ScoreCollisions_nil (F : list MemStore.Op) (s : MemStore.t)
    (collisions scored : list sqlite.CollisionDetail) (existing : list types.Issue) :
  MemStore.ScoreCollisions F s collisions existing = Ok scored ->
  scored <> [] -> collisions <> [].
Proof.
  unfold MemStore.ScoreCollisions.
  destruct (MemStore.fails F MemStore.OpScoreCollisions); [discriminate|].
  intros [= <-] Hne ->. by apply Hne.
Qed.

Section Remapped.

Context `{!JSON}.

(** [handleCollisions] on the store in memory, with collisions and a
    remapping that does not fail. *)
Lemma handleCollisions_remaps (F : list MemStore.Op) (w : World MemStore.t)
    (allIssues : list types.Issue) (result : sqlite.CollisionResult)
    (existing : list types.Issue) (scored : list sqlite.CollisionDetail) :
  MemStore.DetectCollisions F (store w) allIssues = Ok result ->
  MemStore.SearchIssues F (store w) "" types.EmptyFilter = Ok existing ->
  MemStore.ScoreCollisions F (store w) (sqlite.Collisions result) existing = Ok scored ->
  scored <> [] ->
  MemStore.fails F MemStore.OpRemapCollisions = false ->
  let allocated :=
    MemStore.allocate scored (List.map types.ID allIssues ++ List.map sqlite.ID scored)
      (store w) in
  let idMapping :=
    fold_left (fun m remap => <[sqlite.ID remap.1 := remap.2]> m) allocated ∅ in
  exists w1,
    @handleCollisions _ (MemStore_Storage F) allIssues w
    = (w1, Ok (filterCollidingIssues
                 (List.map (MemStore.rewriteDependencies idMapping) allIssues) scored))
    /\ store w1 = fold_left (MemStore.createRemapped idMapping) allocated (store w).
Proof.
  intros Hdetect Hsearch Hscore Hne Hremap allocated idMapping.
  unfold handleCollisions. cbn [DetectCollisions SearchIssues ScoreCollisions
                                RemapCollisions MemStore_Storage].
  rewrite Hdetect.
  destruct (decide (length (sqlite.Collisions result) = 0%nat)) as [Hz|_].
  { exfalso. apply (ScoreCollisions_nil _ _ _ _ _ Hscore Hne).
    by destruct (sqlite.Collisions result). }
  rewrite Hsearch, Hscore. unfold MemStore.RemapCollisions. rewrite Hremap.
  fold allocated. fold idMapping.
  eexists. split; [reflexivity|].
  cbn [fst].
  by destruct (showCollisionRemapping_same idMapping scored
                 (with_store (fold_left (MemStore.createRemapped idMapping) allocated
                                (store w)) w)) as [-> _].
Qed.

Lemma filterCollidingIssues_ids (allIssues : list types.Issue)
    (collisions : list sqlite.CollisionDetail) (k : string) :
  k ∈ List.map sqlite.ID collisions ->
  k ∉ List.map types.ID (filterCollidingIssues allIssues collisions).
Proof.
  intros Hk Hin. apply list_elem_of_In, in_map_iff in Hin as (i & <- & Hi).
  apply list_elem_of_In, filterCollidingIssues_elem in Hi as [_ Hi].
  apply list_elem_of_In, in_map_iff in Hk as (c & Heq & Hc).
  apply (Hi c); [by apply list_elem_of_In | exact Heq].
Qed.

Lemma filterCollidingIssues_sub (allIssues : list types.Issue)
    (collisions : list sqlite.CollisionDetail) (k : string) :
  k ∉ List.map types.ID allIssues ->
  k ∉ List.map types.ID (filterCollidingIssues allIssues collisions).
Proof.
  intros Hk Hin. apply Hk. apply list_elem_of_In, in_map_iff in Hin as (i & <- & Hi).
  apply list_elem_of_In, filterCollidingIssues_elem in Hi as [Hi _].
  apply list_elem_of_In, in_map, list_elem_of_In, Hi.
Qed.

(** C1 (as amended).  [main.go] compares no score with a threshold:
    [handleCollisions] hands every collision to [RemapCollisions], and
    [filterCollidingIssues] keeps the colliding ids out of the upsert stage.
    On the store in memory, with its entities under their own ids and a
    journal that has no conflict marker and parses, this gives, for every
    collision that detection and scoring report and whatever its score:
    after the import the entity that the store had under the id of the
    collision is what it was (the incoming entity is not applied to it as an
    update), and the incoming entity is in the store under a new id of the
    same prefix, one that the store did not have and that is the id of no
    entity of the journal.  When the remapping fails the import stops with
    its error. *)
Theorem collisions_always_remapped (F : list MemStore.Op) (w : World MemStore.t)
    (path : string) (data : bytes) (hash : string) (allIssues : list types.Issue)
    (result : sqlite.CollisionResult) (existing : list types.Issue)
    (scored : list sqlite.CollisionDetail) :
  keyed_by_id (MemStore.issues (store w)) ->
  (forall line, line ∈ bytes_Split byte_LF data ->
                isConflictMarker (bytes_TrimSpace line) = false) ->
  parseJSONLIssues data = Ok allIssues ->
  MemStore.IsSQLite (store w) = true ->
  MemStore.DetectCollisions F (store w) allIssues = Ok result ->
  MemStore.SearchIssues F (store w) "" types.EmptyFilter = Ok existing ->
  MemStore.ScoreCollisions F (store w) (sqlite.Collisions result) existing = Ok scored ->
  scored <> [] ->
  let imported := @autoImport_pipeline _ (MemStore_Storage F) _ path data hash w in
  if MemStore.fails F MemStore.OpRemapCollisions
  then
    imported
    = eprintf ("Auto-import failed: error remapping collisions: "
               +:+ MemStore.failure "remap collisions" +:+ LF) w
  else
    exists idMapping,
      forall c, c ∈ scored ->
        MemStore.issues (store imported) !! sqlite.ID c = Some (sqlite.ExistingIssue c)
        /\ exists newID,
             MemStore.issues (store w) !! newID = None
             /\ (newID ∉ List.map types.ID allIssues)
             /\ (exists n, 1 <= n
                           /\ newID = MemStore.prefixOf (sqlite.ID c) +:+ "-" +:+ pretty n)
             /\ MemStore.issues (store imported) !! newID
                = Some (MemStore.enforceI1 (MemStore.clock (store w))
                          (MemStore.rewriteDependencies idMapping
                             (MemStore.with_ID newID (sqlite.IncomingIssue c)))).
Proof.
  intros Hkeyed Hnone Hparse Hsqlite Hdetect Hsearch Hscore Hne imported.
  destruct (MemStore.fails F MemStore.OpRemapCollisions) eqn:Hremap.
  - unfold imported, autoImport_pipeline.
    rewrite (pipeline_no_conflict path data hash w Hnone), Hparse.
    cbn [IsSQLite MemStore_Storage]. rewrite Hsqlite. cbn [negb].
    unfold handleCollisions. cbn [DetectCollisions SearchIssues ScoreCollisions
                                  RemapCollisions MemStore_Storage].
    rewrite Hdetect.
    destruct (decide (length (sqlite.Collisions result) = 0%nat)) as [Hz|_].
    { exfalso. apply (ScoreCollisions_nil _ _ _ _ _ Hscore Hne).
      by destruct (sqlite.Collisions result). }
    rewrite Hsearch, Hscore. unfold MemStore.RemapCollisions. rewrite Hremap.
    by destruct w.
  - destruct (handleCollisions_remaps F w allIssues result existing scored
                Hdetect Hsearch Hscore Hne Hremap) as (w1 & Hhandle & Hstore).
    set (allocated :=
           MemStore.allocate scored
             (List.map types.ID allIssues ++ List.map sqlite.ID scored) (store w)) in *.
    set (idMapping :=
           fold_left (fun m remap => <[sqlite.ID remap.1 := remap.2]> m) allocated ∅) in *.
    exists idMapping.
    destruct (allocate_fresh scored
                (List.map types.ID allIssues ++ List.map sqlite.ID scored) (store w))
      as [Hfresh Hnodup].
    fold allocated in Hfresh, Hnodup. rewrite Forall_forall in Hfresh.
    destruct (createRemapped_fold idMapping allocated (store w) Hnodup Hkeyed)
      as (Hkeyed1 & _ & Hother & Hnew).
    rewrite <- Hstore in Hkeyed1, Hother, Hnew.
    (* the batch fetch after the remapping *)
    assert (exists existing1,
              MemStore.SearchIssues F (store w1) "" types.EmptyFilter = Ok existing1)
      as [existing1 Hsearch1].
    { unfold MemStore.SearchIssues in *.
      destruct (MemStore.fails F MemStore.OpSearchIssues); [discriminate|]. by eexists. }
    set (issues :=
           filterCollidingIssues
             (List.map (MemStore.rewriteDependencies idMapping) allIssues) scored) in *.
    set (upserted := @importIssues_loop _ (MemStore_Storage F)
                       (indexByID existing1) issues w1).
    assert (MemStore.issues (store imported)
            = MemStore.issues (store upserted.1)) as Himported.
    { unfold imported.
      destruct (@pipeline_reaches_hash _ (MemStore_Storage F) _ path data hash w
                  (@importDependenciesFromJSONL _ (MemStore_Storage F) upserted.2
                     (store upserted.1))) as [-> _].
      - split; [exact Hnone|]. split; [exact Hsqlite|].
        exists allIssues, w1, issues, existing1. by repeat split.
      - cbn [SetMetadata MemStore_Storage].
        by rewrite SetMetadata_issues, importDependencies_issues. }
    rewrite Himported.
    intros c Hc.
    destruct (ScoreCollisions_elem _ _ _ _ _ _ Hscore Hc) as (c0 & Hc0 & Hid & Hinc & Hex).
    destruct (DetectCollisions_elem _ _ _ _ _ Hdetect Hc0) as (Hin0 & Hid0 & Hstored).
    rewrite <- Hid, <- Hex in Hstored.
    assert (sqlite.ID c ∉ allocated.*2) as Hold.
    { intros Hin. destruct (Hfresh _ Hin) as [Hnew' _]. congruence. }
    split.
    + unfold upserted. rewrite importIssues_loop_untouched.
      * rewrite Hother by exact Hold. exact Hstored.
      * exact Hkeyed1.
      * rewrite Hother by exact Hold. rewrite Hstored. by eexists.
      * apply filterCollidingIssues_ids.
        apply list_elem_of_In, in_map, list_elem_of_In, Hc.
    + assert (exists newID, (c, newID) ∈ allocated) as [newID Hpair].
      { assert (c ∈ allocated.*1) as Hin1 by (unfold allocated; by rewrite allocate_fst).
        apply list_elem_of_fmap in Hin1 as ([c' newID] & -> & Hin1). by exists newID. }
      exists newID.
      assert (newID ∈ allocated.*2) as Hin2.
      { apply list_elem_of_fmap. by exists (c, newID). }
      destruct (Hfresh _ Hin2) as [Hnone' Hres].
      apply not_elem_of_app in Hres as [Hjournal _].
      split; [exact Hnone'|]. split; [exact Hjournal|]. split.
      { pose proof (allocate_shape scored
                      (List.map types.ID allIssues ++ List.map sqlite.ID scored) (store w))
          as Hshape.
        rewrite Forall_forall in Hshape. exact (Hshape _ Hpair). }
      unfold upserted. rewrite importIssues_loop_untouched.
      * rewrite (Hnew c newID Hpair). reflexivity.
      * exact Hkeyed1.
      * rewrite (Hnew c newID Hpair). by eexists.
      * apply filterCollidingIssues_sub.
        rewrite map_map. cbn. exact Hjournal.
Qed.

End Remapped.

(** The store has bd-42 and the journal bd-1 and an edited bd-42: one
    collision, of score 70.  After the import bd-42 is what it was and the
    incoming entity has an id that is not bd-1, the id of the other entity of
    the journal: it is under bd-2, and bd-1 is the entity of the journal. *)
Lemma collisions_always_remapped_witness :
  keyed_by_id (MemStore.issues (store Scenario.remapImport))
  /\ (forall line,
        line ∈ bytes_Split byte_LF
                 (Scenario.journal [Scenario.alpha; Scenario.cachingEditedLine]) ->
        isConflictMarker (bytes_TrimSpace line) = false)
  /\ @parseJSONLIssues Json_JSON
       (Scenario.journal [Scenario.alpha; Scenario.cachingEditedLine])
     = Ok [Scenario.alphaIssue; Scenario.cachingEdited]
  /\ MemStore.IsSQLite (store Scenario.remapImport) = true
  /\ MemStore.DetectCollisions [] (store Scenario.remapImport)
       [Scenario.alphaIssue; Scenario.cachingEdited]
     = Ok (sqlite.mkCollisionResult [Scenario.cachingCollision 0])
  /\ MemStore.SearchIssues [] (store Scenario.remapImport) "" types.EmptyFilter
     = Ok [Scenario.caching]
  /\ MemStore.ScoreCollisions [] (store Scenario.remapImport)
       [Scenario.cachingCollision 0] [Scenario.caching]
     = Ok [Scenario.cachingCollision 70]
  /\ MemStore.issues
       (store (@autoImport_pipeline _ (MemStore_Storage []) Json_JSON Scenario.jsonlPath
                 (Scenario.journal [Scenario.alpha; Scenario.cachingEditedLine])
                 (sha256_hex (Scenario.journal [Scenario.alpha; Scenario.cachingEditedLine]))
                 Scenario.remapImport)) !! "bd-42"
     = Some Scenario.caching
  /\ (exists idMapping newID,
        newID <> "bd-1" /\ newID <> "bd-42"
        /\ MemStore.issues
             (store (@autoImport_pipeline _ (MemStore_Storage []) Json_JSON
                       Scenario.jsonlPath
                       (Scenario.journal [Scenario.alpha; Scenario.cachingEditedLine])
                       (sha256_hex
                          (Scenario.journal [Scenario.alpha; Scenario.cachingEditedLine]))
                       Scenario.remapImport)) !! newID
           = Some (MemStore.enforceI1 Scenario.now
                     (MemStore.rewriteDependencies idMapping
                        (MemStore.with_ID newID Scenario.cachingEdited))))
  /\ MemStore.issues
       (store (@autoImport_pipeline _ (MemStore_Storage []) Json_JSON Scenario.jsonlPath
                 (Scenario.journal [Scenario.alpha; Scenario.cachingEditedLine])
                 (sha256_hex (Scenario.journal [Scenario.alpha; Scenario.cachingEditedLine]))
                 Scenario.remapImport)) !! "bd-2"
     = Some (MemStore.with_ID "bd-2" Scenario.cachingEdited)
  /\ MemStore.issues
       (store (@autoImport_pipeline _ (MemStore_Storage []) Json_JSON Scenario.jsonlPath
                 (Scenario.journal [Scenario.alpha; Scenario.cachingEditedLine])
                 (sha256_hex (Scenario.journal [Scenario.alpha; Scenario.cachingEditedLine]))
                 Scenario.remapImport)) !! "bd-1"
     = Some Scenario.alphaIssue.
Proof.
  assert (keyed_by_id (MemStore.issues (store Scenario.remapImport))) as Hkeyed.
  { intros k v Hkv.
    change (({[ "bd-42" := Scenario.caching ]} : gmap string types.Issue) !! k = Some v)
      in Hkv.
    apply lookup_singleton_Some in Hkv as [<- <-]. reflexivity. }
  assert (forall line,
            line ∈ bytes_Split byte_LF
                     (Scenario.journal [Scenario.alpha; Scenario.cachingEditedLine]) ->
            isConflictMarker (bytes_TrimSpace line) = false) as Hnone.
  { apply Forall_forall. apply (bool_decide_unpack _). vm_compute. exact I. }
  assert (@parseJSONLIssues Json_JSON
            (Scenario.journal [Scenario.alpha; Scenario.cachingEditedLine])
          = Ok [Scenario.alphaIssue; Scenario.cachingEdited]) as Hparse
    by (vm_compute; reflexivity).
  assert (MemStore.IsSQLite (store Scenario.remapImport) = true) as Hsqlite
    by reflexivity.
  assert (MemStore.DetectCollisions [] (store Scenario.remapImport)
            [Scenario.alphaIssue; Scenario.cachingEdited]
          = Ok (sqlite.mkCollisionResult [Scenario.cachingCollision 0])) as Hdetect
    by (vm_compute; reflexivity).
  assert (MemStore.SearchIssues [] (store Scenario.remapImport) "" types.EmptyFilter
          = Ok [Scenario.caching]) as Hsearch
    by (vm_compute; reflexivity).
  assert (MemStore.ScoreCollisions [] (store Scenario.remapImport)
            (sqlite.Collisions (sqlite.mkCollisionResult [Scenario.cachingCollision 0]))
            [Scenario.caching]
          = Ok [Scenario.cachingCollision 70]) as Hscore
    by (vm_compute; reflexivity).
  assert ([Scenario.cachingCollision 70] <> []) as Hne by discriminate.
  split; [exact Hkeyed|]. split; [exact Hnone|]. split; [exact Hparse|].
  split; [exact Hsqlite|]. split; [exact Hdetect|]. split; [exact Hsearch|].
  split; [exact Hscore|].
  destruct (@collisions_always_remapped Json_JSON [] Scenario.remapImport Scenario.jsonlPath
              (Scenario.journal [Scenario.alpha; Scenario.cachingEditedLine])
              (sha256_hex (Scenario.journal [Scenario.alpha; Scenario.cachingEditedLine]))
              _ _ _ _ Hkeyed Hnone Hparse Hsqlite Hdetect Hsearch Hscore Hne)
    as [idMapping Hall].
  destruct (Hall (Scenario.cachingCollision 70)) as (Hold & newID & _ & Hjournal & _ & Hnew).
  { apply elem_of_cons. by left. }
  split; [exact Hold|]. split.
  - exists idMapping, newID.
    split; [intros ->; apply Hjournal; by left|].
    split; [intros ->; apply Hjournal; right; by left|].
    exact Hnew.
  - split; vm_compute; reflexivity.
Defined.

(** C1, as stated, fails: with a threshold of 50, the incoming bd-42 of
    [Scenario.divergentEdit] (same title, type and priority as the stored
    bd-42, another description) scores 70, and after the import the stored
    bd-42 is what it was while the incoming entity sits under the fresh id
    bd-1. *)
Lemma merge_at_threshold_counterexample :
  Json.Unmarshal (bytes_of_string Scenario.cachingEditedLine) = Ok Scenario.cachingEdited
  /\ MemStore.ScoreCollisions [] Scenario.cachingStore [Scenario.cachingCollision 0]
       [Scenario.caching]
     = Ok [Scenario.cachingCollision 70]
  /\ MemStore.issues (store (Scenario.autoImport [] Scenario.divergentEdit)) !! "bd-42"
     = Some Scenario.caching
  /\ MemStore.issues (store (Scenario.autoImport [] Scenario.divergentEdit)) !! "bd-1"
     = Some (MemStore.with_ID "bd-1" Scenario.cachingEdited)
  /\ MemStore.audit (store (Scenario.autoImport [] Scenario.divergentEdit))
     = [("bd-1", "import-remap", Scenario.now, "created")]
  /\ ~ merges_at_or_above 50 [] Scenario.divergentEdit [Scenario.cachingEdited].
Proof.
  assert (MemStore.issues (store (Scenario.autoImport [] Scenario.divergentEdit)) !! "bd-42"
          = Some Scenario.caching) as Hkept by (vm_compute; reflexivity).
  split; [vm_compute; reflexivity|].
  split; [vm_compute; reflexivity|].
  split; [exact Hkept|].
  split; [vm_compute; reflexivity|].
  split; [vm_compute; reflexivity|].
  intros Hclaim.
  destruct (Hclaim (sqlite.mkCollisionResult [Scenario.cachingCollision 0])
              [Scenario.caching] [Scenario.cachingCollision 70]
              (Scenario.cachingCollision 70))
    as (stored & Hlookup & _ & Hdescr).
  - vm_compute; reflexivity.
  - vm_compute; reflexivity.
  - vm_compute; reflexivity.
  - apply elem_of_cons. by left.
  - vm_compute. discriminate.
  - change (types.ID (sqlite.IncomingIssue (Scenario.cachingCollision 70))) with "bd-42"
      in Hlookup.
    unfold Scenario.autoImport in Hkept. rewrite Hkept in Hlookup.
    injection Hlookup as <-. discriminate Hdescr.
Qed.

(** The dependencies of the import stream follow the remapped entity: with
    the incoming bd-42 remapped to bd-1, bd-8, which depended on bd-42, goes
    on to the upsert stage depending on bd-1. *)
Example remap_rewrites_dependencies :
  (@handleCollisions _ (MemStore_Storage []) [Scenario.cachingEdited; Scenario.follower]
     Scenario.divergentEdit).2
  = Ok [types.with_Dependencies [types.mkDependency "bd-8" "bd-1" "blocks"]
          Scenario.follower].
Proof. vm_compute. reflexivity. Qed.

(** ** The hash after a flush or an import *)

Section Hash.

Context {S : Type} `{!Storage S} `{!JSON}.

Lemma flushToJSONL_commit_store (path : string) (ids : list string) (w : World S) :
  store (flushToJSONL_commit path ids w) =
    let st := (ClearDirtyIssuesByID (store w) ids).1 in
    match os_ReadFile (fs w) path with
    | Ok data => (SetMetadata st "last_import_hash" (sha256_hex data)).1
    | Err _ => st
    end.
Proof.
  unfold flushToJSONL_commit.
  destruct (ClearDirtyIssuesByID (store w) ids) as [st [e|]]; simpl;
    (destruct (os_ReadFile _ _) as [data|e']; simpl;
     [destruct (SetMetadata _ _ _) as [st' [e''|]]|]; reflexivity).
Qed.

(** C4 (as amended).  For a store that keeps the metadata contract: after a
    flush that rewrites the journal, the journal file holds the bytes written
    and, when it can be read back and the [SetMetadata] call returns no
    error, the stored [last_import_hash] is the SHA-256 of those bytes; after
    an import that gets past every stage and whose [SetMetadata] call returns
    no error, the stored [last_import_hash] is the SHA-256 of the journal
    file, which the import has not touched. *)
Theorem hash_after_sync `{!StorageLaws S} (w : World S) :
  (forall w1 path ids,
     flushToJSONL_export w = inr (w1, path, ids) ->
     exists data,
       files (fs (flushToJSONL w)) !! findJSONLPath w = Some data
       /\ (fs_fails OpReadFile (fs w) = false ->
           (SetMetadata (ClearDirtyIssuesByID (store w) ids).1
              "last_import_hash" (sha256_hex data)).2 = None ->
           GetMetadata (store (flushToJSONL w)) "last_import_hash"
           = Ok (sha256_hex data)))
  /\ (forall data st,
        os_ReadFile (fs w) (findJSONLPath w) = Ok data ->
        (validateJSONLHash w).2.2 = true ->
        import_reaches_hash data (validateJSONLHash w).1 st ->
        (SetMetadata st "last_import_hash" (sha256_hex data)).2 = None ->
        GetMetadata (store (autoImportIfNewer w)) "last_import_hash"
        = Ok (sha256_hex data)
        /\ files (fs (autoImportIfNewer w)) !! findJSONLPath w = Some data).
Proof.
  split.
  - intros w1 path ids Hexport. rewrite (flushToJSONL_inr _ _ _ _ Hexport).
    destruct (flushToJSONL_commit_frame path ids w1) as (Hfs & _).
    destruct (flushToJSONL_export_inr _ _ _ _ Hexport)
      as (-> & Hdirty & Hne & m & Hfetch & Hwrite & Hstore & _).
    pose proof (writeJSONLAtomically_spec (findJSONLPath w) (env_pid (env w))
                  (sortByID (map_to_list m).*2) (fs w)) as [Hfaults Hres].
    rewrite Hwrite in Hfaults, Hres. simpl in Hfaults, Hres.
    destruct Hres as (data & Hj & Hfiles).
    assert (files (fs w1) !! findJSONLPath w = Some data) as Hfile
      by (rewrite Hfiles; apply lookup_insert_eq).
    exists data. split; [by rewrite Hfs|].
    intros Hreadable Hset. rewrite flushToJSONL_commit_store, Hstore.
    assert (os_ReadFile (fs w1) (findJSONLPath w) = Ok data) as ->.
    { unfold os_ReadFile, fs_fails in *. by rewrite Hfaults, Hreadable, Hfile. }
    cbn zeta.
    destruct (SetMetadata _ _ _) as [st' failed] eqn:Hsm. simpl in Hset. subst failed.
    simpl. by eapply metadata_set_get.
  - intros data st Hread Hshould Hreaches Hset.
    pose proof (validateJSONLHash_same w) as (_ & Hfs & _).
    pose proof (validateJSONLHash_answer w) as Hans.
    rewrite autoImport_gate.
    destruct (validateJSONLHash w) as [w1 [[[p d] h] b]]. simpl in *. subst b.
    rewrite Hread in Hans. destruct (decide _); [discriminate|].
    injection Hans as -> -> ->.
    destruct (pipeline_reaches_hash (findJSONLPath w) data (sha256_hex data) w1 st Hreaches)
      as [-> ->].
    destruct (SetMetadata _ _ _) as [st' failed] eqn:Hsm. simpl in Hset. subst failed.
    split; [by eapply metadata_set_get|].
    rewrite Hfs. unfold os_ReadFile in Hread.
    destruct (fs_fails OpReadFile (fs w)); [discriminate|].
    destruct (files (fs w) !! findJSONLPath w); [by injection Hread as -> | discriminate].
Qed.

End Hash.

(** ** The dirty set after a flush *)

Section Dirty.

Context {S : Type} `{!Storage S} `{!JSON}.

(** C5 (as amended).  A flush that ends without rewriting the journal, as
    every flush does whose temp-file write or rename fails, leaves the store
    and with it the dirty set as they were, the journal file as it was, and
    no temp file unless it could create none (the files are then untouched).
    A flush that rewrites the journal has read its ids from the dirty set,
    leaves no temp file and hands exactly those ids to
    [ClearDirtyIssuesByID]: for a store that keeps the dirty-set contract,
    when that call returns no error the ids left dirty are those that were
    dirty at the time of the call and are not in the snapshot, so an id
    marked dirty after the snapshot stays dirty. *)
Theorem flush_dirty_set `{!StorageLaws S} (w : World S) :
  (forall w',
     flushToJSONL_export w = inl w' ->
     flushToJSONL w = w'
     /\ store w' = store w
     /\ GetDirtyIssues (store w') = GetDirtyIssues (store w)
     /\ files (fs w') !! findJSONLPath w = files (fs w) !! findJSONLPath w
     /\ (files (fs w') = files (fs w)
         \/ files (fs w') !! tempPathOf (findJSONLPath w) (env_pid (env w)) = None))
  /\ (forall w1 path ids,
        flushToJSONL_export w = inr (w1, path, ids) ->
        GetDirtyIssues (store w) = Ok ids
        /\ store w1 = store w
        /\ files (fs w1) !! tempPathOf (findJSONLPath w) (env_pid (env w)) = None
        /\ forall st dirty,
             GetDirtyIssues st = Ok dirty ->
             (ClearDirtyIssuesByID st ids).2 = None ->
             GetDirtyIssues (store (flushToJSONL_commit path ids (with_store st w1)))
             = Ok (List.filter (fun id => negb (bool_decide (id ∈ ids))) dirty)).
Proof.
  split.
  - intros w' Hexport.
    destruct (flushToJSONL_export_inl _ _ Hexport) as (Hstore & Henv & Hfaults & Hfiles).
    split; [unfold flushToJSONL; by rewrite Hexport|].
    split; [exact Hstore|]. split; [by rewrite Hstore|].
    destruct Hfiles as [-> | ->].
    + split; [reflexivity | by left].
    + split; [|right; apply lookup_delete_eq].
      apply lookup_delete_ne, tempPath_ne.
  - intros w1 path ids Hexport.
    destruct (flushToJSONL_export_inr _ _ _ _ Hexport)
      as (-> & Hdirty & Hne & m & Hfetch & Hwrite & Hstore & _).
    split; [exact Hdirty|]. split; [exact Hstore|].
    pose proof (writeJSONLAtomically_spec (findJSONLPath w) (env_pid (env w))
                  (sortByID (map_to_list m).*2) (fs w)) as [_ Hres].
    rewrite Hwrite in Hres. simpl in Hres. destruct Hres as (data & Hj & Hfiles).
    split.
    + rewrite Hfiles. rewrite lookup_insert_ne by (symmetry; apply tempPath_ne).
      apply lookup_delete_eq.
    + intros st dirty Hst Hclear. rewrite flushToJSONL_commit_store.
      cbn [store with_store fs].
      destruct (ClearDirtyIssuesByID st ids) as [st' failed] eqn:Hc.
      simpl in Hclear. subst failed. cbn [fst].
      pose proof (dirty_clear st st' ids dirty Hc Hst) as Hcleared.
      destruct (os_ReadFile _ _); [|exact Hcleared].
      cbn zeta. by rewrite dirty_metadata.
Qed.

(** X22.  A flush that started and ended without rewriting the journal has left
    [isDirty] false, failed or not:  [flushToJSONL] called again returns at its
    first checks, and [persistentPostRun] does not call it, until a command
    marks the process dirty again. *)
Lemma flush_leaves_process_clean (w w' : World S) :
  storeActive (flush w) = true ->
  isDirty (flush w) = true ->
  flushToJSONL_export w = inl w' ->
  isDirty (flush w') = false
  /\ flushToJSONL w' = w'
  /\ store (persistentPostRun w') = store w'
  /\ fs (persistentPostRun w') = fs w'.
Proof.
  intros Hactive Hdirty Hexport.
  assert (isDirty (flush w') = false) as Hclean.
  { revert Hexport. unfold flushToJSONL_export. rewrite Hactive, Hdirty.
    set (w0 := with_flush _ w).
    assert (isDirty (flush w0) = false) as H0 by reflexivity.
    cbn [negb]. change (storeActive (flush w0)) with true. cbn [negb].
    destruct (GetDirtyIssues _) as [dirtyIDs|err].
    2: { intros [= <-].
         by destruct (recordFlushFailure_frame ("failed to get dirty issues: " +:+ err) w0)
           as (_ & _ & _ & -> & _). }
    destruct (decide _); [by intros [= <-]|].
    pose proof (readExistingJSONL_same (findJSONLPath w0) w0) as Hsame.
    destruct (readExistingJSONL _ _) as [w1 issueMap].
    destruct Hsame as (_ & _ & Hflush & _). cbn [fst] in Hflush.
    destruct (fetchAndUpdateDirtyIssues _ _ _) as [m|err].
    2: { intros [= <-].
         destruct (recordFlushFailure_frame err w1) as (_ & _ & _ & -> & _).
         by rewrite Hflush. }
    destruct (writeJSONLAtomically _ _ _ _) as [f [err|]]; [|discriminate].
    intros [= <-].
    destruct (recordFlushFailure_frame err (with_fs f w1)) as (_ & _ & _ & -> & _).
    cbn [flush with_fs]. by rewrite Hflush. }
  split; [exact Hclean|].
  assert (flushToJSONL w' = w') as Hagain.
  { unfold flushToJSONL, flushToJSONL_export. rewrite Hclean.
    by destruct (storeActive (flush w')). }
  split; [exact Hagain|].
  unfold persistentPostRun. rewrite Hclean. split; reflexivity.
Qed.

End Dirty.

(** A flush of two dirty entities, and a first import of two entities, on
    a store without faults: the stored hash is that of the journal. *)
Lemma hash_after_sync_witness :
  (exists data,
     files (fs (Scenario.flushJSONL [] Scenario.unflushed)) !! Scenario.jsonlPath
     = Some data
     /\ MemStore.GetMetadata [] (store (Scenario.flushJSONL [] Scenario.unflushed))
          "last_import_hash"
        = Ok (sha256_hex data))
  /\ MemStore.GetMetadata [] (store (Scenario.autoImport [] Scenario.firstImport))
       "last_import_hash"
     = Ok (sha256_hex (Scenario.journal [Scenario.alpha; Scenario.gamma])).
Proof.
  assert (@StorageLaws MemStore.t (MemStore_Storage [])) as Laws
    by (apply MemStore_Laws, not_elem_of_nil).
  split.
  - destruct (@hash_after_sync _ (MemStore_Storage []) Json_JSON Laws Scenario.unflushed)
      as [Hflush _].
    edestruct Hflush as (data & Hfile & Hhash); [vm_compute; reflexivity|].
    exists data. split; [exact Hfile|]. apply Hhash; reflexivity.
  - destruct (@hash_after_sync _ (MemStore_Storage []) Json_JSON Laws Scenario.firstImport)
      as [_ Himport].
    refine (proj1 (Himport (Scenario.journal [Scenario.alpha; Scenario.gamma]) _ _ _ _ _)).
    + vm_compute; reflexivity.
    + vm_compute; reflexivity.
    + split.
      { apply Forall_forall. apply (bool_decide_unpack _). vm_compute. exact I. }
      split; [reflexivity|].
      exists [Scenario.alphaIssue; Scenario.gammaIssue], Scenario.firstImport,
        [Scenario.alphaIssue; Scenario.gammaIssue], [].
      split; [vm_compute; reflexivity|].
      split; [vm_compute; reflexivity|].
      split; [vm_compute; reflexivity | reflexivity].
    + reflexivity.
Defined.

(** C4, as stated, fails: with a store whose [SetMetadata] fails, the flush
    of [Scenario.retrying] rewrites the journal and records success (the
    failure counter goes from 2 to 0), and [last_import_hash] is still
    absent. *)
Lemma flush_success_without_hash_counterexample :
  flushFailureCount (flush (Scenario.flushJSONL [MemStore.OpSetMetadata] Scenario.retrying))
  = 0
  /\ lastFlushError (flush (Scenario.flushJSONL [MemStore.OpSetMetadata] Scenario.retrying))
     = None
  /\ stderr (Scenario.flushJSONL [MemStore.OpSetMetadata] Scenario.retrying)
     = ["Warning: failed to update last_import_hash after export: "
        +:+ "set metadata: database is locked" +:+ LF]
  /\ MemStore.GetMetadata [MemStore.OpSetMetadata]
       (store (Scenario.flushJSONL [MemStore.OpSetMetadata] Scenario.retrying))
       "last_import_hash"
     = Ok ""
  /\ ~ success_stores_hash [MemStore.OpSetMetadata] Scenario.retrying.
Proof.
  split; [vm_compute; reflexivity|].
  split; [vm_compute; reflexivity|].
  split; [vm_compute; reflexivity|].
  split; [vm_compute; reflexivity|].
  intros Hclaim. unfold success_stores_hash in Hclaim.
  destruct (files (fs (@flushToJSONL _ (MemStore_Storage [MemStore.OpSetMetadata]) Json_JSON
                         Scenario.retrying)) !! Scenario.jsonlPath) as [data|] eqn:Hfile;
    [|vm_compute in Hfile; discriminate Hfile].
  eassert (MemStore.GetMetadata [MemStore.OpSetMetadata] _ "last_import_hash"
           = Ok (sha256_hex data)) as Hhash.
  { eapply Hclaim; [vm_compute; reflexivity | vm_compute; reflexivity | exact Hfile]. }
  assert (MemStore.GetMetadata [MemStore.OpSetMetadata]
            (store (Scenario.flushJSONL [MemStore.OpSetMetadata] Scenario.retrying))
            "last_import_hash" = Ok "") as Hempty by (vm_compute; reflexivity).
  unfold Scenario.flushJSONL in Hempty. rewrite Hempty in Hhash.
  injection Hhash as Hhash. symmetry in Hhash. by apply sha256_hex_nonempty in Hhash.
Qed.

(** A flush whose rename fails, a flush that goes through, and a flush
    during which bd-5 is marked dirty, on a store without faults. *)
Lemma flush_dirty_set_witness :
  (MemStore.dirty (store (Scenario.flushJSONL [] Scenario.renameFails))
   = ["bd-2"; "bd-10"]
   /\ files (fs (Scenario.flushJSONL [] Scenario.renameFails))
      = files (fs Scenario.renameFails))
  /\ MemStore.GetDirtyIssues [] (store (Scenario.flushJSONL [] Scenario.unflushed))
     = Ok []
  /\ (exists w1,
        @flushToJSONL_export _ (MemStore_Storage []) Json_JSON Scenario.unflushed
        = inr (w1, Scenario.jsonlPath, ["bd-2"; "bd-10"])
        /\ MemStore.GetDirtyIssues []
             (store (@flushToJSONL_commit _ (MemStore_Storage []) Scenario.jsonlPath
                       ["bd-2"; "bd-10"] (with_store Scenario.dirtyStoreLater w1)))
           = Ok ["bd-5"]).
Proof.
  assert (@StorageLaws MemStore.t (MemStore_Storage [])) as Laws
    by (apply MemStore_Laws, not_elem_of_nil).
  split; [|split].
  - destruct (@flush_dirty_set _ (MemStore_Storage []) Json_JSON Laws Scenario.renameFails)
      as [Hfail _].
    edestruct Hfail as (Hflush & Hstore & _ & _ & Htemp); [vm_compute; reflexivity|].
    unfold Scenario.flushJSONL. rewrite Hflush, Hstore.
    split; [reflexivity | vm_compute; reflexivity].
  - destruct (@flush_dirty_set _ (MemStore_Storage []) Json_JSON Laws Scenario.unflushed)
      as [_ Hok].
    edestruct Hok as (_ & _ & _ & Hclear); [vm_compute; reflexivity|].
    unfold Scenario.flushJSONL.
    erewrite (@flushToJSONL_inr _ (MemStore_Storage []) Json_JSON Scenario.unflushed);
      [|vm_compute; reflexivity].
    exact (Hclear Scenario.dirtyStore ["bd-2"; "bd-10"] eq_refl eq_refl).
  - eexists. split; [vm_compute; reflexivity|].
    destruct (@flush_dirty_set _ (MemStore_Storage []) Json_JSON Laws Scenario.unflushed)
      as [_ Hok].
    edestruct Hok as (_ & _ & _ & Hclear); [vm_compute; reflexivity|].
    exact (Hclear Scenario.dirtyStoreLater ["bd-2"; "bd-10"; "bd-5"] eq_refl eq_refl).
Defined.

(** C5, as stated, fails: with a store whose [ClearDirtyIssuesByID] fails,
    the flush of [Scenario.retrying] rewrites the journal and records success
    (the failure counter goes from 2 to 0) with a warning, and bd-2 and bd-10
    are still dirty. *)
Lemma flush_success_without_clear_counterexample :
  flushFailureCount
    (flush (Scenario.flushJSONL [MemStore.OpClearDirtyIssuesByID] Scenario.retrying)) = 0
  /\ lastFlushError
       (flush (Scenario.flushJSONL [MemStore.OpClearDirtyIssuesByID] Scenario.retrying))
     = None
  /\ stderr (Scenario.flushJSONL [MemStore.OpClearDirtyIssuesByID] Scenario.retrying)
     = ["Warning: failed to clear dirty issues: "
        +:+ "clear dirty issues: database is locked" +:+ LF]
  /\ MemStore.dirty
       (store (Scenario.flushJSONL [MemStore.OpClearDirtyIssuesByID] Scenario.retrying))
     = ["bd-2"; "bd-10"]
  /\ ~ success_clears_snapshot [MemStore.OpClearDirtyIssuesByID] Scenario.retrying.
Proof.
  split; [vm_compute; reflexivity|].
  split; [vm_compute; reflexivity|].
  split; [vm_compute; reflexivity|].
  split; [vm_compute; reflexivity|].
  intros Hclaim. unfold success_clears_snapshot in Hclaim.
  eassert (MemStore.dirty _ = List.filter _ _) as Hcleared.
  { eapply Hclaim; [vm_compute; reflexivity | vm_compute; reflexivity]. }
  vm_compute in Hcleared. discriminate Hcleared.
Qed.

(** * Further properties of the sync paths *)

(** ** What auto-import leaves alone *)

Section Untouched.

Context {S : Type} `{!Storage S} `{!JSON}.

Lemma checkMergeConflicts_same (path : string) (data : bytes) (w : World S) :
  same_but_stderr w (checkMergeConflicts path data w).1.
Proof.
  unfold checkMergeConflicts. generalize (bytes_Split byte_LF data). intros lines.
  induction lines as [|line lines IH]; cbn [checkMergeConflicts_lines];
    [apply same_refl|].
  destruct (isConflictMarker _); [apply same_fold_eprintf | exact IH].
Qed.

Lemma autoImport_pipeline_frame (path : string) (data : bytes) (hash : string)
    (w : World S) :
  fs (autoImport_pipeline path data hash w) = fs w
  /\ flush (autoImport_pipeline path data hash w) = flush w
  /\ env (autoImport_pipeline path data hash w) = env w.
Proof.
  unfold autoImport_pipeline.
  pose proof (checkMergeConflicts_same path data w) as (_ & Hf0 & Hfl0 & He0).
  destruct (checkMergeConflicts path data w) as [w0 conflict]. simpl in *.
  destruct conflict; [by rewrite Hf0, Hfl0, He0|].
  destruct (parseJSONLIssues data) as [allIssues|err];
    [|simpl; by rewrite Hf0, Hfl0, He0].
  destruct (IsSQLite (store w0)); simpl; [|by rewrite Hf0, Hfl0, He0].
  pose proof (handleCollisions_frame allIssues w0) as (Hf1 & Hfl1 & He1).
  destruct (handleCollisions allIssues w0) as [w1 [issues|err]]; simpl in *;
    [|by rewrite Hf1, Hfl1, He1, Hf0, Hfl0, He0].
  unfold importIssuesFromJSONL.
  destruct (SearchIssues (store w1) "" types.EmptyFilter) as [existing|err];
    [|simpl; by rewrite Hf1, Hfl1, He1, Hf0, Hfl0, He0].
  pose proof (importIssues_loop_frame (indexByID existing) issues w1)
    as (Hf2 & Hfl2 & He2 & _).
  destruct (importIssues_loop (indexByID existing) issues w1) as [w2 issues2].
  simpl in *.
  destruct (SetMetadata _ _ _) as [st [err|]]; simpl;
    by rewrite Hf2, Hfl2, He2, Hf1, Hfl1, He1, Hf0, Hfl0, He0.
Qed.

(** X1.  Auto-import reads the journal and writes the store: whatever the
    journal holds and whatever the store answers, it leaves the files (the
    journal among them), the auto-flush state (it marks nothing dirty and resets
    no failure count) and the environment as they were. *)
Theorem auto_import_leaves_files_and_flush_state (w : World S) :
  fs (autoImportIfNewer w) = fs w
  /\ flush (autoImportIfNewer w) = flush w
  /\ env (autoImportIfNewer w) = env w.
Proof.
  rewrite autoImport_gate.
  pose proof (validateJSONLHash_same w) as (_ & Hf & Hfl & He).
  destruct (validateJSONLHash w) as [w1 [[[p d] h] b]]. simpl in *.
  destruct b; [|by rewrite Hf, Hfl, He].
  destruct (autoImport_pipeline_frame p d h w1) as (-> & -> & ->).
  by rewrite Hf, Hfl, He.
Qed.

(** X2.  With a store that is not the SQLite one, a journal that passes the
    gate, has no conflict marker and parses is not imported: the store is not
    touched (so no hash is stored and the next run says the same), and the two
    lines of the notice are what is printed last. *)
Theorem import_disabled_without_sqlite (w : World S) (data : bytes)
    (allIssues : list types.Issue) :
  os_ReadFile (fs w) (findJSONLPath w) = Ok data ->
  (validateJSONLHash w).2.2 = true ->
  (forall line, line ∈ bytes_Split byte_LF data ->
                isConflictMarker (bytes_TrimSpace line) = false) ->
  parseJSONLIssues data = Ok allIssues ->
  IsSQLite (store w) = false ->
  store (autoImportIfNewer w) = store w
  /\ stderr (autoImportIfNewer w)
     = stderr (validateJSONLHash w).1
       ++ ["Auto-import disabled for non-SQLite backend (no collision detection)." +:+ LF;
           "To import manually, run: bd import -i " +:+ findJSONLPath w +:+ LF].
Proof.
  intros Hread Hshould Hnone Hparse Hsqlite.
  pose proof (validateJSONLHash_same w) as (Hs & _).
  pose proof (validateJSONLHash_answer w) as Hans.
  rewrite autoImport_gate.
  destruct (validateJSONLHash w) as [w1 [[[p d] h] b]]. simpl in *. subst b.
  rewrite Hread in Hans. destruct (decide _); [discriminate|].
  injection Hans as -> -> ->.
  unfold autoImport_pipeline.
  rewrite (pipeline_no_conflict (findJSONLPath w) data (sha256_hex data) w1 Hnone).
  rewrite Hparse, Hs, Hsqlite. simpl. split; [exact Hs|].
  by rewrite <- app_assoc.
Qed.

End Untouched.

Section Skipped.

Context {S : Type} `{!Storage S} `{!JSON}.

Lemma findJSONLPath_env (w w' : World S) :
  env w' = env w -> findJSONLPath w' = findJSONLPath w.
Proof. unfold findJSONLPath. by intros ->. Qed.

Lemma autoImport_frame (w : World S) :
  fs (autoImportIfNewer w) = fs w /\ env (autoImportIfNewer w) = env w.
Proof.
  rewrite autoImport_gate.
  pose proof (validateJSONLHash_same w) as (_ & Hf & _ & He).
  destruct (validateJSONLHash w) as [w1 [[[p d] h] b]]. simpl in *.
  destruct b; [|by rewrite Hf, He].
  destruct (autoImport_pipeline_frame p d h w1) as (-> & _ & ->). by rewrite Hf, He.
Qed.

(** The gate on a process state whose store holds the hash of the journal. *)
Lemma gate_skips (w : World S) (data : bytes) :
  os_ReadFile (fs w) (findJSONLPath w) = Ok data ->
  GetMetadata (store w) "last_import_hash" = Ok (sha256_hex data) ->
  autoImportIfNewer w
  = debugf ("Debug: auto-import skipped, JSONL unchanged (hash match)" +:+ LF) w.
Proof.
  intros Hread Hmeta. rewrite autoImport_gate. unfold validateJSONLHash.
  rewrite Hread, Hmeta. destruct (decide _) as [_|Hne]; [reflexivity | by destruct Hne].
Qed.

(** X3.  An import that went through and stored its hash is not repeated: run
    again on the state it left, auto-import stops at the gate, and store, files
    and flush state stay as the first run left them. *)
Theorem second_import_is_skipped `{!StorageLaws S} (w : World S) (data : bytes) (st : S) :
  os_ReadFile (fs w) (findJSONLPath w) = Ok data ->
  (validateJSONLHash w).2.2 = true ->
  import_reaches_hash data (validateJSONLHash w).1 st ->
  (SetMetadata st "last_import_hash" (sha256_hex data)).2 = None ->
  autoImportIfNewer (autoImportIfNewer w)
  = debugf ("Debug: auto-import skipped, JSONL unchanged (hash match)" +:+ LF)
      (autoImportIfNewer w)
  /\ same_but_stderr (autoImportIfNewer w) (autoImportIfNewer (autoImportIfNewer w)).
Proof.
  intros Hread Hshould Hreaches Hset.
  assert (autoImportIfNewer (autoImportIfNewer w)
          = debugf ("Debug: auto-import skipped, JSONL unchanged (hash match)" +:+ LF)
              (autoImportIfNewer w)) as Hskip.
  { apply (gate_skips _ data).
    - destruct (autoImport_frame w) as (Hf & He).
      by rewrite (findJSONLPath_env w _ He), Hf.
    - pose proof (validateJSONLHash_answer w) as Hans.
      rewrite autoImport_gate.
      destruct (validateJSONLHash w) as [w1 [[[p d] h] b]]. simpl in *. subst b.
      rewrite Hread in Hans. destruct (decide _); [discriminate|].
      injection Hans as -> -> ->.
      destruct (pipeline_reaches_hash (findJSONLPath w) data (sha256_hex data) w1 st
                  Hreaches) as [-> _].
      destruct (SetMetadata _ _ _) as [st' failed] eqn:Hsm. simpl in Hset. subst failed.
      simpl. by eapply metadata_set_get. }
  split; [exact Hskip|]. rewrite Hskip. apply same_debugf.
Qed.

(** X4.  The flush stores the hash of the journal it has written, so that the
    journal is not imported back: after a flush that rewrote the journal, could
    read it back and stored the hash, auto-import stops at the gate. *)
Theorem flush_is_not_imported_back `{!StorageLaws S} (w w1 : World S) (path : string)
    (ids : list string) :
  flushToJSONL_export w = inr (w1, path, ids) ->
  fs_fails OpReadFile (fs w) = false ->
  (forall data,
     (SetMetadata (ClearDirtyIssuesByID (store w) ids).1
        "last_import_hash" (sha256_hex data)).2 = None) ->
  autoImportIfNewer (flushToJSONL w)
  = debugf ("Debug: auto-import skipped, JSONL unchanged (hash match)" +:+ LF)
      (flushToJSONL w)
  /\ same_but_stderr (flushToJSONL w) (autoImportIfNewer (flushToJSONL w)).
Proof.
  intros Hexport Hreadable Hset.
  rewrite (flushToJSONL_inr _ _ _ _ Hexport).
  destruct (flushToJSONL_commit_frame path ids w1) as (Hfs & Henv & _).
  destruct (flushToJSONL_export_inr _ _ _ _ Hexport)
    as (-> & Hdirty & Hne & m & Hfetch & Hwrite & Hstore & _ & Henv1 & _).
  pose proof (writeJSONLAtomically_spec (findJSONLPath w) (env_pid (env w))
                (sortByID (map_to_list m).*2) (fs w)) as [Hfaults Hres].
  rewrite Hwrite in Hfaults, Hres. simpl in Hfaults, Hres.
  destruct Hres as (data & Hj & Hfiles).
  assert (os_ReadFile (fs w1) (findJSONLPath w) = Ok data) as Hread.
  { unfold os_ReadFile, fs_fails in *. rewrite Hfaults, Hreadable, Hfiles.
    by rewrite lookup_insert_eq. }
  assert (autoImportIfNewer (flushToJSONL_commit (findJSONLPath w) ids w1)
          = debugf ("Debug: auto-import skipped, JSONL unchanged (hash match)" +:+ LF)
              (flushToJSONL_commit (findJSONLPath w) ids w1)) as Hskip.
  { apply (gate_skips _ data).
    - rewrite (findJSONLPath_env w (flushToJSONL_commit (findJSONLPath w) ids w1))
        by (by rewrite Henv).
      by rewrite Hfs.
    - rewrite flushToJSONL_commit_store, Hstore, Hread. cbn zeta.
      specialize (Hset data).
      destruct (SetMetadata _ _ _) as [st' failed] eqn:Hsm. simpl in Hset. subst failed.
      simpl. by eapply metadata_set_get. }
  split; [exact Hskip|]. rewrite Hskip. apply same_debugf.
Qed.

End Skipped.

Section FlushMore.

Context {S : Type} `{!Storage S} `{!JSON}.

(** X5.  With the store active and the process dirty but no id in the dirty set,
    the flush has nothing to do: it reads and writes no file, leaves the store
    alone (no hash is stored), prints nothing, and counts as a success, which
    resets the failure count; [isDirty] is taken. *)
Theorem flush_with_empty_dirty_set (w : World S) :
  storeActive (flush w) = true ->
  isDirty (flush w) = true ->
  GetDirtyIssues (store w) = Ok [] ->
  store (flushToJSONL w) = store w
  /\ fs (flushToJSONL w) = fs w
  /\ stderr (flushToJSONL w) = stderr w
  /\ isDirty (flush (flushToJSONL w)) = false
  /\ flushFailureCount (flush (flushToJSONL w)) = 0
  /\ lastFlushError (flush (flushToJSONL w)) = None.
Proof.
  intros Hactive Hdirty Hnone.
  unfold flushToJSONL, flushToJSONL_export. rewrite Hactive, Hdirty.
  set (w0 := with_flush _ w).
  cbn [negb]. change (storeActive (flush w0)) with true. cbn [negb].
  change (store w0) with (store w). rewrite Hnone.
  destruct (decide (length (@nil string) = 0%nat)) as [_|Hne]; [|by destruct Hne].
  repeat split.
Qed.

(** X6.  A flush writes the journal and its temp file and nothing else: every
    other file is as it was, whatever the flush met on its way. *)
Theorem flush_touches_two_paths (w : World S) (p : string) :
  p <> findJSONLPath w ->
  p <> tempPathOf (findJSONLPath w) (env_pid (env w)) ->
  files (fs (flushToJSONL w)) !! p = files (fs w) !! p.
Proof.
  intros Hj Ht. unfold flushToJSONL.
  destruct (flushToJSONL_export w) as [w'|[[w1 path] ids]] eqn:Hexport.
  - destruct (flushToJSONL_export_inl _ _ Hexport) as (_ & _ & _ & [-> | ->]);
      [reflexivity|].
    by apply lookup_delete_ne.
  - destruct (flushToJSONL_commit_frame path ids w1) as (-> & _).
    destruct (flushToJSONL_export_inr _ _ _ _ Hexport)
      as (-> & _ & _ & m & _ & Hwrite & _).
    pose proof (writeJSONLAtomically_spec (findJSONLPath w) (env_pid (env w))
                  (sortByID (map_to_list m).*2) (fs w)) as [_ Hres].
    rewrite Hwrite in Hres. simpl in Hres. destruct Hres as (data & _ & ->).
    rewrite lookup_insert_ne by (intros Heq; by apply Hj).
    by apply lookup_delete_ne.
Qed.

(** X7.  [PersistentPostRun] flushes exactly when the process is dirty and
    auto-flush is enabled, then marks the store inactive: a flush timer that
    fires afterwards finds the store inactive and does nothing. *)
Theorem post_run_flushes_then_closes (w : World S) :
  storeActive (flush (persistentPostRun w)) = false
  /\ flushToJSONL (persistentPostRun w) = persistentPostRun w
  /\ (if isDirty (flush w) && autoFlushEnabled (flush w)
      then
        let f := flush w in
        let stopped :=
          with_flush
            (mkFlushState (autoFlushEnabled f) (isDirty f) (needsFullExport f) false
               (storeActive f) (flushFailureCount f) (lastFlushError f)) w in
        store (persistentPostRun w) = store (flushToJSONL stopped)
        /\ fs (persistentPostRun w) = fs (flushToJSONL stopped)
        /\ stderr (persistentPostRun w) = stderr (flushToJSONL stopped)
      else
        store (persistentPostRun w) = store w
        /\ fs (persistentPostRun w) = fs w
        /\ stderr (persistentPostRun w) = stderr w).
Proof.
  split; [reflexivity|]. split.
  - unfold flushToJSONL, flushToJSONL_export.
    assert (storeActive (flush (persistentPostRun w)) = false) as -> by reflexivity.
    reflexivity.
  - unfold persistentPostRun.
    destruct (isDirty (flush w) && autoFlushEnabled (flush w)); repeat split.
Qed.

(** X8.  After a success, [n] failures in a row leave the counter at [n] and the
    last error recorded; each prints its warning, and from the third on each
    also prints the three lines of the critical notice.  Store and files are not
    touched. *)
Theorem consecutive_flush_failures (errs : list error) (w : World S) :
  Z.of_nat (length errs) < 2 ^ 63 ->
  let w' := fold_left (fun w e => recordFlushFailure e w) errs (recordFlushSuccess w) in
  flushFailureCount (flush w') = Z.of_nat (length errs)
  /\ lastFlushError (flush w') = last errs
  /\ length (stderr w') = (length (stderr w) + length errs + 3 * (length errs - 2))%nat
  /\ store w' = store w
  /\ fs w' = fs w.
Proof.
  induction errs as [|e errs IH] using rev_ind; intros Hlen w'.
  - subst w'. simpl. repeat split. lia.
  - subst w'. rewrite fold_left_app. cbn [fold_left].
    rewrite length_app in Hlen |- *. simpl in Hlen |- *.
    destruct IH as (Hc & _ & Hs & Hst & Hfs); [lia|].
    set (w1 := fold_left _ errs _) in *.
    destruct (recordFlushFailure_frame e w1) as (Hst' & Hfs' & _ & _ & Hc' & He').
    rewrite Hc', He', Hst', Hfs', Hc, last_snoc.
    assert (int_wrap (Z.of_nat (length errs) + 1) = Z.of_nat (length errs) + 1) as Hw.
    { unfold int_wrap. rewrite Z.mod_small by lia. lia. }
    rewrite Hw. split; [lia|]. split; [reflexivity|]. split; [|by split].
    unfold recordFlushFailure. rewrite Hc, Hw.
    destruct (3 <=? Z.of_nat (length errs) + 1) eqn:E; simpl;
      rewrite ?length_app; simpl; rewrite ?length_app; simpl.
    + apply Z.leb_le in E. rewrite Hs. lia.
    + apply Z.leb_gt in E. rewrite Hs. lia.
Qed.

(** X24.  A request for a full export is not honoured.  The flush takes
    [needsFullExport] back without looking at it: with the store active, the
    flush after [markDirtyAndScheduleFullExport] is the flush after
    [markDirtyAndScheduleFlush], the incremental one. *)
Theorem full_export_is_incremental (w : World S) :
  flushToJSONL (markDirtyAndScheduleFullExport w)
  = if storeActive (flush w) then flushToJSONL (markDirtyAndScheduleFlush w)
    else markDirtyAndScheduleFullExport w.
Proof.
  unfold flushToJSONL, flushToJSONL_export, markDirtyAndScheduleFullExport,
    markDirtyAndScheduleFlush.
  destruct w as [st f out [en dirty full timer active n e] en'].
  destruct en, active; reflexivity.
Qed.

(** X25.  After [clearAutoFlushState] nothing is flushed, whatever the dirty
    set of the store holds: a flush timer that fires finds [isDirty] false and
    returns, [PersistentPostRun] does not flush, and the failure count is back
    to zero. *)
Theorem cleared_state_is_not_flushed (w : World S) :
  flushToJSONL (clearAutoFlushState w) = clearAutoFlushState w
  /\ store (persistentPostRun (clearAutoFlushState w)) = store w
  /\ fs (persistentPostRun (clearAutoFlushState w)) = fs w
  /\ stderr (persistentPostRun (clearAutoFlushState w)) = stderr w
  /\ flushFailureCount (flush (persistentPostRun (clearAutoFlushState w))) = 0.
Proof.
  unfold flushToJSONL, flushToJSONL_export, persistentPostRun, clearAutoFlushState.
  destruct w as [st f out [en dirty full timer active n e] en'].
  destruct en, active; repeat split; reflexivity.
Qed.

End FlushMore.

(** ** Lines and the scanner *)

Lemma byte_eqb_false (a b : byte) : a <> b -> Byte.eqb a b = false.
Proof.
  intros Hne. destruct (Byte.eqb a b) eqn:E; [|reflexivity].
  apply Byte.byte_dec_bl in E. by destruct Hne.
Qed.

Lemma bytes_Split_nonempty (data : bytes) : bytes_Split byte_LF data <> [].
Proof.
  destruct data as [|b data]; simpl; [discriminate|].
  destruct (Byte.eqb b byte_LF); [discriminate|].
  destruct (bytes_Split byte_LF data); discriminate.
Qed.

Lemma bytes_Split_line (t rest : bytes) :
  byte_LF ∉ t ->
  bytes_Split byte_LF (t ++ byte_LF :: rest) = t :: bytes_Split byte_LF rest.
Proof.
  induction t as [|b t IH]; intros Hnl; simpl.
  - reflexivity.
  - rewrite byte_eqb_false by (intros ->; apply Hnl; apply elem_of_cons; by left).
    rewrite IH by (intros Hin; apply Hnl; apply elem_of_cons; by right).
    reflexivity.
Qed.

Lemma bytes_Split_no_newline (t : bytes) :
  byte_LF ∉ t -> bytes_Split byte_LF t = [t].
Proof.
  induction t as [|b t IH]; intros Hnl; simpl; [reflexivity|].
  rewrite byte_eqb_false by (intros ->; apply Hnl; apply elem_of_cons; by left).
  rewrite IH by (intros Hin; apply Hnl; apply elem_of_cons; by right).
  reflexivity.
Qed.

Lemma bytes_Split_lines (front : list bytes) (tail : bytes) :
  Forall (fun t => byte_LF ∉ t) front ->
  bytes_Split byte_LF (lines_text front ++ tail) = front ++ bytes_Split byte_LF tail.
Proof.
  unfold lines_text. induction 1 as [|t front Ht _ IH]; simpl; [reflexivity|].
  rewrite <- !app_assoc. simpl. rewrite bytes_Split_line by exact Ht. by rewrite IH.
Qed.

Lemma scanner_pieces_app (front pieces : list bytes) :
  pieces <> [] ->
  match rev (front ++ pieces) with
  | [] :: before => rev before
  | _ => front ++ pieces
  end
  = front ++ match rev pieces with
             | [] :: before => rev before
             | _ => pieces
             end.
Proof.
  intros Hne. rewrite rev_app_distr.
  destruct (rev pieces) as [|p before] eqn:E.
  { apply (f_equal (@rev _)) in E. rewrite rev_involutive in E. by destruct Hne. }
  simpl. destruct p; [|reflexivity].
  by rewrite rev_app_distr, rev_involutive.
Qed.

Lemma scanner_pieces_lines (front : list bytes) (tail : bytes) :
  Forall (fun t => byte_LF ∉ t) front ->
  scanner_pieces (lines_text front ++ tail) = front ++ scanner_pieces tail.
Proof.
  intros Hfront. unfold scanner_pieces. cbv zeta.
  rewrite bytes_Split_lines by exact Hfront.
  apply scanner_pieces_app, bytes_Split_nonempty.
Qed.

Lemma dropCR_id (t : bytes) : last t <> Some byte_CR -> dropCR t = t.
Proof.
  intros Hlast. unfold dropCR. destruct (rev t) as [|b before] eqn:E; [reflexivity|].
  apply (f_equal (@rev _)) in E. rewrite rev_involutive in E. simpl in E. subst t.
  rewrite last_snoc in Hlast.
  rewrite byte_eqb_false; [reflexivity|]. intros ->. by apply Hlast.
Qed.

Lemma scanner_tokens_app (maxTokenSize : nat) (front rest : list bytes) :
  Forall (fun t => (length t < maxTokenSize)%nat) front ->
  scanner_tokens maxTokenSize (front ++ rest)
  = (List.map dropCR front ++ (scanner_tokens maxTokenSize rest).1,
     (scanner_tokens maxTokenSize rest).2).
Proof.
  induction 1 as [|t front Ht _ IH]; simpl.
  - by destruct (scanner_tokens maxTokenSize rest).
  - destruct (maxTokenSize <=? length t)%nat eqn:E; [apply Nat.leb_le in E; lia|].
    rewrite IH. reflexivity.
Qed.

Lemma scanner_Scan_lines (maxTokenSize : nat) (front : list bytes) (tail : bytes) :
  Forall (fun t => (byte_LF ∉ t) /\ (length t < maxTokenSize)%nat) front ->
  scanner_Scan maxTokenSize (lines_text front ++ tail)
  = (List.map dropCR front ++ (scanner_Scan maxTokenSize tail).1,
     (scanner_Scan maxTokenSize tail).2).
Proof.
  intros Hfront. unfold scanner_Scan.
  rewrite scanner_pieces_lines by (eapply Forall_impl; [exact Hfront | by intros t [? _]]).
  apply scanner_tokens_app. eapply Forall_impl; [exact Hfront | by intros t [_ ?]].
Qed.

(** A line of [maxTokenSize] bytes or more stops the scanner. *)
Lemma scanner_Scan_long (maxTokenSize : nat) (long rest : bytes) :
  byte_LF ∉ long ->
  (0 < maxTokenSize <= length long)%nat ->
  rest = [] \/ (exists r, rest = byte_LF :: r) ->
  scanner_Scan maxTokenSize (long ++ rest) = ([], true).
Proof.
  intros Hnl [Hpos Hlen] Hrest. unfold scanner_Scan.
  assert (exists pieces, scanner_pieces (long ++ rest) = long :: pieces) as (pieces & ->).
  { destruct Hrest as [-> | (r & ->)].
    - rewrite app_nil_r. unfold scanner_pieces. rewrite bytes_Split_no_newline by exact Hnl.
      simpl. destruct long; [simpl in Hlen; lia|]. by eexists.
    - pose proof (scanner_pieces_lines [long] r) as Hp. unfold lines_text in Hp.
      simpl in Hp. rewrite app_nil_r, <- app_assoc in Hp. simpl in Hp.
      rewrite Hp by (by constructor). by eexists. }
  simpl. destruct (maxTokenSize <=? length long)%nat eqn:E; [reflexivity|].
  apply Nat.leb_gt in E. lia.
Qed.

Lemma scanner_Scan_nil (maxTokenSize : nat) : scanner_Scan maxTokenSize [] = ([], false).
Proof. reflexivity. Qed.

Section Readers.

Context {S : Type} `{!Storage S} `{!JSON}.

Lemma parseJSONLIssues_loop_ok (tokens : list bytes) (lineNo : Z)
    (acc issues : list types.Issue) :
  Forall2 (fun t i => t <> [] /\ json_Unmarshal t = Ok i) tokens issues ->
  parseJSONLIssues_loop tokens lineNo acc = Ok (acc ++ issues).
Proof.
  intros Hall. revert lineNo acc.
  induction Hall as [|t i tokens issues [Hne Hu] _ IH]; intros lineNo acc;
    cbn [parseJSONLIssues_loop].
  - by rewrite app_nil_r.
  - destruct (decide (t = [])); [contradiction|]. rewrite Hu, IH.
    by rewrite <- app_assoc.
Qed.

Lemma parseable_ok (tokens : list bytes) (issues : list types.Issue) :
  Forall2 (fun t i => t <> [] /\ json_Unmarshal t = Ok i) tokens issues ->
  parseable tokens = issues.
Proof.
  induction 1 as [|t i tokens issues [Hne Hu] _ IH]; [reflexivity|].
  rewrite parseable_cons. destruct (decide (t = [])); [contradiction|].
  by rewrite Hu, IH.
Qed.

(** X9.  Write, then read.  A journal made of one line per entity, as the
    flush's writer makes it, is read back as the same entities in the same order
    by the import's parser and by the flush's reader, provided the codec reads
    back what it writes and writes lines that are safe for the scanner. *)
Theorem journal_round_trip (issues : list types.Issue) (data : bytes) :
  journal_text issues data ->
  (forall issue text,
     issue ∈ issues -> json_Marshal issue = Ok text ->
     json_Unmarshal text = Ok issue /\ line_safe MaxScanTokenSize text) ->
  parseJSONLIssues data = Ok issues
  /\ parseable (scanner_Scan MaxScanTokenSize data).1 = issues
  /\ (scanner_Scan MaxScanTokenSize data).2 = false.
Proof.
  intros (texts & Hall & ->) Hcodec.
  assert (Forall2 (fun t i => t <> [] /\ json_Unmarshal t = Ok i) texts issues
          /\ Forall (line_safe MaxScanTokenSize) texts) as [Hback Hsafe].
  { clear -Hall Hcodec. induction Hall as [|i t issues texts Hm _ IH].
    - split; constructor.
    - destruct (Hcodec i t) as (Hu & Hs); [apply elem_of_cons; by left | exact Hm |].
      destruct IH as [IH1 IH2].
      { intros i' t' Hin. apply Hcodec. apply elem_of_cons. by right. }
      split; constructor; [split; [apply Hs | exact Hu] | exact IH1 | exact Hs | exact IH2]. }
  assert (forall n, (MaxScanTokenSize <= n)%nat ->
            scanner_Scan n (lines_text texts) = (texts, false)) as Hscan.
  { intros n Hn. rewrite <- (app_nil_r (lines_text texts)).
    rewrite scanner_Scan_lines, scanner_Scan_nil.
    - simpl. rewrite app_nil_r. f_equal.
      clear -Hsafe. induction Hsafe as [|t texts (_ & _ & Hcr & _) _ IH]; [reflexivity|].
      simpl. by rewrite dropCR_id, IH.
    - eapply Forall_impl; [exact Hsafe|]. intros t (_ & Hnl & _ & Hlen). split; [exact Hnl | lia]. }
  fold (lines_text texts). split; [|split].
  - unfold parseJSONLIssues. rewrite Hscan by (unfold MaxScanTokenSize; lia).
    by rewrite (parseJSONLIssues_loop_ok texts 0 [] issues Hback).
  - rewrite Hscan by lia. simpl. by apply parseable_ok.
  - by rewrite Hscan by lia.
Qed.

(** X10.  A line of 64 KiB or more in the journal ends what the flush reads of
    it: the scanner has its default buffer and its error is not looked at, so
    the entities of that line and of every line after it are absent from the
    map, and nothing is printed about them.  What is read is what the lines
    before it hold. *)
Theorem long_line_ends_reading (w : World S) (path : string)
    (front : list bytes) (long rest : bytes) :
  os_Open (fs w) path = Ok (lines_text front ++ long ++ rest) ->
  Forall (fun t => (byte_LF ∉ t) /\ (length t < MaxScanTokenSize)%nat) front ->
  byte_LF ∉ long ->
  (MaxScanTokenSize <= length long)%nat ->
  rest = [] \/ (exists r, rest = byte_LF :: r) ->
  readExistingJSONL path w = readExistingJSONL_loop (List.map dropCR front) 0 ∅ w
  /\ (readExistingJSONL path w).2 = indexByID (parseable (List.map dropCR front)).
Proof.
  intros Hopen Hfront Hnl Hlen Hrest.
  assert (readExistingJSONL path w = readExistingJSONL_loop (List.map dropCR front) 0 ∅ w)
    as Hread.
  { unfold readExistingJSONL. rewrite Hopen, scanner_Scan_lines by exact Hfront.
    rewrite scanner_Scan_long; [|exact Hnl | unfold MaxScanTokenSize in *; lia | exact Hrest].
    simpl. by rewrite app_nil_r. }
  split; [exact Hread|]. rewrite Hread. apply readExistingJSONL_loop_map.
Qed.

(** X11.  The same for the import, whose scanner takes lines below 2 MiB and
    whose error is looked at: with lines before it that parse, a line of 2 MiB
    or more fails the parse with the scanner's error. *)
Theorem long_line_fails_parse (front : list bytes) (long rest : bytes)
    (issues : list types.Issue) :
  Forall (fun t => (byte_LF ∉ t) /\ (length t < 2 * 1024 * 1024)%nat
                   /\ last t <> Some byte_CR) front ->
  Forall2 (fun t i => t <> [] /\ json_Unmarshal t = Ok i) front issues ->
  byte_LF ∉ long ->
  (2 * 1024 * 1024 <= length long)%nat ->
  rest = [] \/ (exists r, rest = byte_LF :: r) ->
  parseJSONLIssues (lines_text front ++ long ++ rest)
  = Err "scanner error: bufio.Scanner: token too long".
Proof.
  intros Hfront Hparse Hnl Hlen Hrest. unfold parseJSONLIssues.
  rewrite scanner_Scan_lines
    by (eapply Forall_impl; [exact Hfront | by intros t (? & ? & _)]).
  rewrite scanner_Scan_long; [|exact Hnl | lia | exact Hrest].
  simpl. rewrite app_nil_r.
  assert (List.map dropCR front = front) as ->.
  { clear -Hfront. induction Hfront as [|t front (_ & _ & Hcr) _ IH]; [reflexivity|].
    simpl. by rewrite dropCR_id, IH. }
  by rewrite (parseJSONLIssues_loop_ok front 0 [] issues Hparse).
Qed.

End Readers.

Section Upserts.

Context {S : Type} `{!Storage S} `{!JSON}.

(** X12.  The update map of the import holds the nine content fields and
    [closed_at] always, [estimated_minutes] and [external_ref] only when the
    incoming entity has them, and no other key: an import does not clear an
    estimate or an external reference, and never sends an id, a creation or
    update time, or dependencies. *)
Theorem buildIssueUpdates_keys (now : Time) (issue : types.Issue) :
  dom (buildIssueUpdates now issue)
  = alwaysUpdated
    ∪ (if types.EstimatedMinutes issue is Some _ then {[ "estimated_minutes" ]} else ∅)
    ∪ (if types.ExternalRef issue is Some _ then {[ "external_ref" ]} else ∅).
Proof.
  unfold buildIssueUpdates, alwaysUpdated.
  destruct (types.EstimatedMinutes issue) as [m|], (types.ExternalRef issue) as [r|];
    destruct (decide (types.Status issue = "closed"));
    try destruct (types.ClosedAt issue) as [c|];
    try destruct (negb (Time_IsZero (types.UpdatedAt issue)));
    rewrite !dom_insert_L, dom_empty_L; set_solver.
Qed.

End Upserts.

Section Couplings.

Context {S : Type} `{!Storage S} `{!JSON}.

(** X13.  [enforceClosedAtInvariant] establishes the coupling of status and
    [closed_at] and touches no other field; applied again, at another time, it
    changes nothing. *)
Theorem enforceClosedAtInvariant_couples (now later : Time) (issue : types.Issue) :
  (types.Status (enforceClosedAtInvariant now issue) = "closed"
   <-> is_Some (types.ClosedAt (enforceClosedAtInvariant now issue)))
  /\ enforceClosedAtInvariant now issue
     = types.with_ClosedAt (types.ClosedAt (enforceClosedAtInvariant now issue)) issue
  /\ enforceClosedAtInvariant later (enforceClosedAtInvariant now issue)
     = enforceClosedAtInvariant now issue.
Proof.
  destruct issue as [id ti de ds ac no st pr it asg em er ca ua cl lv cpa os deps].
  unfold enforceClosedAtInvariant. simpl.
  destruct (decide (st = "closed")) as [Hc|Hc]; [destruct cl as [c|]|]; simpl;
    destruct (decide (st = "closed")); try contradiction; simpl;
    (split; [split; [eauto | try done] | split; reflexivity]).
  all: try (intros Hc'; by destruct Hc).
  all: try (by intros [? ?]).
Qed.

(** X14.  [showCollisionRemapping] prints a header, at most ten mappings, a line
    that counts the rest when there are more, and an empty line; it changes
    nothing else. *)
Theorem showCollisionRemapping_lines (idMapping : gmap string string)
    (collisions : list sqlite.CollisionDetail) (w : World S) :
  same_but_stderr w (showCollisionRemapping idMapping collisions w)
  /\ length (stderr (showCollisionRemapping idMapping collisions w))
     = (length (stderr w) + 2 + Nat.min (size idMapping) 10
        + (if (10 <? size idMapping)%nat then 1 else 0))%nat.
Proof.
  split; [apply showCollisionRemapping_same|].
  unfold showCollisionRemapping. rewrite <- length_map_to_list.
  set (n := length (map_to_list idMapping)).
  set (maxShow := if (n <? 10)%nat then n else 10%nat).
  assert (maxShow = Nat.min n 10) as HmaxShow.
  { subst maxShow. destruct (n <? 10)%nat eqn:E;
      [apply Nat.ltb_lt in E | apply Nat.ltb_ge in E]; lia. }
  assert (forall (l : list (string * string)) (w0 : World S),
            length (stderr (fold_left
                              (fun w '(oldID, newID) =>
                                 eprintf ("  " +:+ oldID +:+ " → " +:+ newID +:+ " ("
                                          +:+ titleOfCollision collisions oldID +:+ ")" +:+ LF) w)
                              l w0))
            = (length (stderr w0) + length l)%nat) as Hfold.
  { induction l as [|[o nw] l IH]; intros w0; simpl; [lia|].
    rewrite IH. simpl. rewrite length_app. simpl. lia. }
  cbn [eprintf stderr]. rewrite length_app. cbn [length].
  assert (forall w0 : World S,
            length (stderr (if (maxShow <? n)%nat
                            then eprintf ("  ... and " +:+ pretty (Z.of_nat (n - maxShow))
                                          +:+ " more" +:+ LF) w0
                            else w0))
            = (length (stderr w0) + (if (10 <? n)%nat then 1 else 0))%nat) as Hmore.
  { intros w0. rewrite HmaxShow.
    destruct (Nat.ltb_spec (Nat.min n 10) n) as [E1|E1],
             (Nat.ltb_spec 10 n) as [E2|E2]; try lia;
      cbn [eprintf stderr]; rewrite ?length_app; simpl; lia. }
  rewrite Hmore, Hfold. simpl. rewrite length_app, length_take. simpl.
  fold n. rewrite HmaxShow. lia.
Qed.

(** X15.  Two processes never share a temp file: the temp path of a journal
    carries the process id. *)
Theorem tempPath_per_process (jsonlPath : string) (pid1 pid2 : Z) :
  pid1 <> pid2 -> tempPathOf jsonlPath pid1 <> tempPathOf jsonlPath pid2.
Proof.
  unfold tempPathOf. intros Hpid Heq. apply Hpid.
  assert (forall a b c : string, a +:+ b = a +:+ c -> b = c) as Hinj.
  { induction a as [|x a IH]; intros b c; simpl; [done|]. intros [= H']. by apply IH. }
  apply Hinj, Hinj in Heq. by apply (inj pretty) in Heq.
Qed.

End Couplings.

Section Merge.

Context {S : Type} `{!Storage S} `{!JSON}.

Lemma indexed_lookup (issues : list types.Issue) (m : gmap string types.Issue)
    (k : string) :
  fold_left (fun m issue => <[types.ID issue := issue]> m) issues m !! k
  = match last (List.filter (fun i => bool_decide (types.ID i = k)) issues) with
    | Some v => Some v
    | None => m !! k
    end.
Proof.
  revert m. induction issues as [|issue issues IH]; intros m; [reflexivity|].
  cbn [fold_left List.filter]. rewrite IH.
  destruct (bool_decide (types.ID issue = k)) eqn:E.
  - apply bool_decide_eq_true in E. rewrite last_cons.
    destruct (last _); [reflexivity|]. by rewrite <- E, lookup_insert_eq.
  - apply bool_decide_eq_false in E.
    destruct (last _); [reflexivity|]. by rewrite lookup_insert_ne.
Qed.

(** X16.  What the flush reads of the journal, id by id: nothing when the file
    cannot be opened; otherwise the entity of the last line that parses with
    that id, so of two lines with one id the later wins. *)
Theorem journal_last_line_wins (path : string) (w : World S) (k : string) :
  (readExistingJSONL path w).2 !! k
  = match os_Open (fs w) path with
    | Ok data =>
        last (List.filter (fun i => bool_decide (types.ID i = k))
                (parseable (scanner_Scan MaxScanTokenSize data).1))
    | Err _ => None
    end.
Proof.
  unfold readExistingJSONL. destruct (os_Open (fs w) path) as [data|e];
    [|apply lookup_empty].
  rewrite readExistingJSONL_loop_map, indexed_lookup, lookup_empty.
  by destruct (last _).
Qed.

(** The map after [fetchAndUpdateDirtyIssues], key by key. *)
Lemma fetch_lookup (st : S) (ids : list string)
    (m m' : gmap string types.Issue) (k : string) :
  fetchAndUpdateDirtyIssues st ids m = Ok m' ->
  m' !! k = if bool_decide (k ∈ ids) then fetched st k else m !! k.
Proof.
  revert m. induction ids as [|id ids IH]; intros m; cbn [fetchAndUpdateDirtyIssues].
  - intros [= <-]. rewrite bool_decide_eq_false_2; [reflexivity | apply not_elem_of_nil].
  - destruct (GetIssue st id) as [[issue|]|e] eqn:Hi; [| |discriminate].
    + destruct (GetDependencyRecords st id) as [deps|e] eqn:Hd; [|discriminate].
      intros Hf. rewrite (IH _ Hf).
      destruct (decide (k ∈ ids)) as [Hin|Hnin].
      * rewrite !bool_decide_eq_true_2; [reflexivity | (apply elem_of_cons; by right) | exact Hin].
      * rewrite (bool_decide_eq_false_2 _ Hnin).
        destruct (decide (id = k)) as [->|Hne].
        -- rewrite bool_decide_eq_true_2 by (apply elem_of_cons; by left).
           rewrite lookup_insert_eq. unfold fetched. by rewrite Hi, Hd.
        -- rewrite lookup_insert_ne by exact Hne.
           rewrite bool_decide_eq_false_2; [reflexivity|].
           intros Hin. apply elem_of_cons in Hin as [->|Hin]; [by apply Hne | by apply Hnin].
    + intros Hf. rewrite (IH _ Hf).
      destruct (decide (k ∈ ids)) as [Hin|Hnin].
      * rewrite !bool_decide_eq_true_2; [reflexivity | (apply elem_of_cons; by right) | exact Hin].
      * rewrite (bool_decide_eq_false_2 _ Hnin).
        destruct (decide (id = k)) as [->|Hne].
        -- rewrite bool_decide_eq_true_2 by (apply elem_of_cons; by left).
           rewrite lookup_delete_eq. unfold fetched. by rewrite Hi.
        -- rewrite lookup_delete_ne by exact Hne.
           rewrite bool_decide_eq_false_2; [reflexivity|].
           intros Hin. apply elem_of_cons in Hin as [->|Hin]; [by apply Hne | by apply Hnin].
Qed.

Lemma readExistingJSONL_map_fs (path : string) (w w0 : World S) :
  fs w0 = fs w -> (readExistingJSONL path w0).2 = (readExistingJSONL path w).2.
Proof.
  intros Hfs. unfold readExistingJSONL. rewrite Hfs.
  destruct (os_Open (fs w) path); [|reflexivity].
  by rewrite !readExistingJSONL_loop_map.
Qed.

(** X17.  What a flush writes, exactly.  The journal a flush leaves holds one
    line per id: for an id of the dirty snapshot, the entity the store has for
    it with its dependencies, and no line when the store has none any more; for
    every other id, the entity that the journal already had. *)
Theorem flush_rewrites_journal_exactly (w w1 : World S) (path : string)
    (ids : list string) :
  flushToJSONL_export w = inr (w1, path, ids) ->
  exists issues data,
    files (fs (flushToJSONL w)) !! findJSONLPath w = Some data
    /\ journal_text issues data
    /\ forall issue,
         issue ∈ issues
         <-> exists k,
               (if bool_decide (k ∈ ids) then fetched (store w) k
                else (readExistingJSONL (findJSONLPath w) w).2 !! k) = Some issue.
Proof.
  intros Hexport. rewrite (flushToJSONL_inr _ _ _ _ Hexport).
  destruct (flushToJSONL_commit_frame path ids w1) as (-> & _).
  destruct (flushToJSONL_export_inr _ _ _ _ Hexport)
    as (-> & _ & _ & m & Hfetch & Hwrite & _).
  pose proof (writeJSONLAtomically_spec (findJSONLPath w) (env_pid (env w))
                (sortByID (map_to_list m).*2) (fs w)) as [_ Hres].
  rewrite Hwrite in Hres. simpl in Hres. destruct Hres as (data & Hj & Hfiles).
  exists (sortByID (map_to_list m).*2), data.
  split; [rewrite Hfiles; apply lookup_insert_eq|]. split; [exact Hj|].
  intros issue. rewrite sortByID_Permutation.
  rewrite (readExistingJSONL_map_fs (findJSONLPath w) w) in Hfetch by reflexivity.
  split.
  - intros Hin. apply list_elem_of_fmap in Hin as ([k v] & -> & Hkv).
    apply elem_of_map_to_list in Hkv. exists k.
    by rewrite <- (fetch_lookup _ _ _ _ k Hfetch).
  - intros (k & Hk). rewrite <- (fetch_lookup _ _ _ _ k Hfetch) in Hk.
    apply list_elem_of_fmap. exists (k, issue). split; [reflexivity|].
    by apply elem_of_map_to_list.
Qed.

Lemma string_of_bytes_length (l : bytes) : String.length (string_of_bytes l) = length l.
Proof.
  unfold string_of_bytes, String.string_of_list_byte.
  induction l as [|b l IH]; simpl; [reflexivity | by rewrite IH].
Qed.

Lemma parseJSONLIssues_loop_first_bad (good : list bytes) (bad : bytes)
    (rest : list bytes) (e : error) (lineNo : Z) (acc : list types.Issue) :
  Forall (fun l => l = [] \/ exists i, json_Unmarshal l = Ok i) good ->
  bad <> [] -> json_Unmarshal bad = Err e ->
  parseJSONLIssues_loop (good ++ bad :: rest) lineNo acc
  = Err ("parse error at line " +:+ pretty (lineNo + Z.of_nat (length good) + 1) +:+ ": "
         +:+ e +:+ LF +:+ "Snippet: " +:+ snippet_of bad).
Proof.
  intros Hgood Hne He. revert lineNo acc.
  induction Hgood as [|l good Hl _ IH]; intros lineNo acc; cbn [app parseJSONLIssues_loop].
  - destruct (decide (bad = [])); [contradiction|]. rewrite He.
    replace (lineNo + Z.of_nat (length (@nil bytes)) + 1) with (lineNo + 1) by (simpl; lia).
    reflexivity.
  - replace (lineNo + Z.of_nat (length (l :: good)) + 1)
      with ((lineNo + 1) + Z.of_nat (length good) + 1) by (simpl length; lia).
    destruct (decide (l = [])) as [->|Hnonempty]; [apply IH|].
    destruct Hl as [->|(i & ->)]; [contradiction | apply IH].
Qed.

(** X18.  The import's parser reports the first line that does not parse: its
    number, blank lines counted, the decoder's error, and the line itself cut to
    80 bytes; no entity of the lines before it is returned. *)
Theorem parse_error_names_first_bad_line (data : bytes) (good : list bytes)
    (bad : bytes) (rest : list bytes) (e : error) :
  (scanner_Scan (2 * 1024 * 1024) data).1 = good ++ bad :: rest ->
  Forall (fun l => l = [] \/ exists i, json_Unmarshal l = Ok i) good ->
  bad <> [] ->
  json_Unmarshal bad = Err e ->
  parseJSONLIssues data
  = Err ("parse error at line " +:+ pretty (Z.of_nat (length good) + 1) +:+ ": "
         +:+ e +:+ LF +:+ "Snippet: " +:+ snippet_of bad)
  /\ (String.length (snippet_of bad) <= 83)%nat.
Proof.
  intros Hscan Hgood Hne He. split.
  - unfold parseJSONLIssues.
    destruct (scanner_Scan (2 * 1024 * 1024) data) as [tokens tooLong].
    simpl in Hscan. subst tokens.
    by rewrite (parseJSONLIssues_loop_first_bad good bad rest e 0 [] Hgood Hne He).
  - unfold snippet_of. destruct (Nat.ltb_spec 80 (length bad)) as [Hlong|Hshort].
    + rewrite string_length_app, string_of_bytes_length, length_take.
      change (String.length "...") with 3%nat. lia.
    + rewrite string_of_bytes_length. lia.
Qed.

Lemma addMissingDependencies_none (existingDeps deps : list types.Dependency) (st : S) :
  Forall (fun dep => dependencyExists existingDeps dep = true) deps ->
  addMissingDependencies existingDeps deps st = st.
Proof.
  induction 1 as [|dep deps Hdep _ IH]; cbn [addMissingDependencies]; [reflexivity|].
  by rewrite Hdep.
Qed.

(** X19.  The dependency stage adds only what is missing: when every issue of
    the list has nothing to add, the store is left as it was, no [AddDependency]
    call is made. *)
Theorem import_dependencies_adds_only_missing (issues : list types.Issue) (st : S) :
  Forall (nothingToAdd st) issues ->
  importDependenciesFromJSONL issues st = st.
Proof.
  induction 1 as [|issue issues Hissue _ IH]; cbn [importDependenciesFromJSONL];
    [reflexivity|].
  destruct (decide (length (types.Dependencies issue) = 0%nat)) as [|Hlen]; [exact IH|].
  destruct Hissue as [Hnil | [(e & He) | (existingDeps & Hr & Hall)]].
  - rewrite Hnil in Hlen. by destruct Hlen.
  - rewrite He. exact IH.
  - rewrite Hr, addMissingDependencies_none by exact Hall. exact IH.
Qed.

End Merge.


Lemma strings_SplitN2_length (s : string) (sep : ascii) :
  length (strings_SplitN2 s sep) = if strings_Contains s sep then 2%nat else 1%nat.
Proof.
  induction s as [|c s IH]; simpl; [reflexivity|].
  destruct (Ascii.eqb c sep); simpl; [reflexivity|].
  destruct (strings_SplitN2 s sep) as [|first others]; simpl in *;
    destruct (strings_Contains s sep); simpl in *; congruence.
Qed.

(** [SplitN] cuts at the first separator: what follows it is kept whole. *)
Lemma strings_SplitN2_first (before after : string) (sep : ascii) :
  strings_Contains before sep = false ->
  strings_SplitN2 (before +:+ String sep after) sep = [before; after].
Proof.
  induction before as [|c before IH]; simpl.
  - intros _. by rewrite Ascii.eqb_refl.
  - destruct (Ascii.eqb c sep); simpl; [discriminate|]. intros Hnone.
    by rewrite IH.
Qed.

Section CommandFacts.

Context {S : Type} `{!Storage S} `{!Externals}.

Lemma parseDependencySpec_total (depSpec : string) :
  parseDependencySpec depSpec
  = Some match strings_SplitN2 depSpec ":" with
         | [before; after] => (strings_TrimSpace before, strings_TrimSpace after)
         | _ => (DepBlocks, depSpec)
         end.
Proof.
  unfold parseDependencySpec.
  pose proof (strings_SplitN2_length depSpec ":") as Hlen.
  destruct (strings_Contains depSpec ":").
  - destruct (strings_SplitN2 depSpec ":") as [|a [|b [|c l]]]; try discriminate Hlen.
    reflexivity.
  - destruct (strings_SplitN2 depSpec ":") as [|a [|b l]]; try discriminate Hlen.
    reflexivity.
Qed.

(** X20.  What [addDependenciesToIssue] does to the store, for any list of
    specs: it calls [AddDependency] once for each dependency the specs ask for,
    in order, each from the issue given, and goes on after a call that fails.
    The format is never refused: a spec with a colon always splits in two, at
    its first colon.  Files and flush state are not touched. *)
Theorem addDependenciesToIssue_adds_each (actor issueID : string)
    (dependencies : list string) (w : World S) :
  store (addDependenciesToIssue actor issueID dependencies w)
  = fold_left (fun st dep => (AddDependency st dep actor).1)
      (specifiedDependencies issueID dependencies) (store w)
  /\ fs (addDependenciesToIssue actor issueID dependencies w) = fs w
  /\ flush (addDependenciesToIssue actor issueID dependencies w) = flush w
  /\ Forall (fun dep => types.IssueID dep = issueID
                        /\ DependencyType_IsValid (types.Type_ dep) = true)
       (specifiedDependencies issueID dependencies).
Proof.
  revert w. induction dependencies as [|depSpec rest IH]; intros w.
  - repeat split. constructor.
  - cbn [addDependenciesToIssue].
    change (specifiedDependencies issueID (depSpec :: rest))
      with (match specifiedDependency issueID depSpec with
            | Some dep => dep :: specifiedDependencies issueID rest
            | None => specifiedDependencies issueID rest
            end).
    unfold specifiedDependency. cbv zeta.
    set (spec := strings_TrimSpace depSpec).
    destruct (decide (spec = "")) as [Hblank|Hspec]; [apply IH|].
    rewrite parseDependencySpec_total.
    destruct (match strings_SplitN2 spec ":" with
              | [before; after] => (strings_TrimSpace before, strings_TrimSpace after)
              | _ => (DepBlocks, spec)
              end) as [depType dependsOnID].
    destruct (DependencyType_IsValid depType) eqn:Hvalid; cbn [negb].
    + destruct (AddDependency (store w) _ actor) as [st failed] eqn:Hadd.
      set (w1 := match failed with Some err => _ | None => _ end).
      assert (store w1 = st /\ fs w1 = fs w /\ flush w1 = flush w) as (Hs & Hf & Hfl)
        by (subst w1; by destruct failed).
      destruct (IH w1) as (-> & -> & -> & Hall).
      cbn [fold_left]. rewrite Hadd, Hs, Hf, Hfl. cbn [fst].
      repeat split. constructor; [by split | exact Hall].
    + destruct (IH (eprintf ("Warning: invalid dependency type '" +:+ depType
                             +:+ "' for " +:+ issueID +:+ LF) w)) as (-> & -> & -> & Hall).
      repeat split. exact Hall.
Qed.

(** X21.  The version check.  When the metadata cannot be read it does nothing
    (but for a debug line).  Otherwise, whatever the stored version is (none,
    the same, an older or a newer one), the last thing done is to store the
    binary's own version: an older binary writes its version over a newer one,
    after its warning.  Nothing is printed when the stored version is empty or
    the binary's; the outdated notice is for a binary whose version is below the
    stored one, as strings. *)
Theorem checkVersionMismatch_stores_version `{!StorageLaws S} (w : World S) :
  (forall st, (SetMetadata st "bd_version" Version).2 = None) ->
  match GetMetadata (store w) "bd_version" with
  | Err err =>
      same_but_stderr w (checkVersionMismatch w)
      /\ stderr (checkVersionMismatch w)
         = stderr w
           ++ (if decide (env_BD_DEBUG (env w) = "") then []
               else ["Debug: version check skipped, metadata error: " +:+ err +:+ LF])
  | Ok dbVersion =>
      GetMetadata (store (checkVersionMismatch w)) "bd_version" = Ok Version
      /\ fs (checkVersionMismatch w) = fs w
      /\ flush (checkVersionMismatch w) = flush w
      /\ stderr (checkVersionMismatch w) = stderr w ++ versionWarning dbVersion
  end.
Proof.
  intros Hset.
  assert (forall st, GetMetadata (SetMetadata st "bd_version" Version).1 "bd_version"
                     = Ok Version) as Hstored.
  { intros st. specialize (Hset st).
    destruct (SetMetadata st "bd_version" Version) as [st' failed] eqn:Hsm.
    simpl in Hset. subst failed. simpl. by eapply metadata_set_get. }
  unfold checkVersionMismatch, versionWarning.
  destruct (GetMetadata (store w) "bd_version") as [dbVersion|err].
  - destruct (decide (dbVersion = "")) as [->|Hsome].
    + cbn [store with_store fs flush stderr]. rewrite Hstored, app_nil_r. by repeat split.
    + destruct (decide (dbVersion = Version)) as [->|Hne].
      * cbn [store with_store fs flush stderr]. rewrite Hstored, app_nil_r. by repeat split.
      * destruct (String.ltb Version dbVersion);
          cbn [store with_store fs flush stderr eprintf]; rewrite Hstored;
          rewrite <- ?app_assoc; by repeat split.
  - split; [apply same_debugf | apply debugf_stderr].
Qed.

End CommandFacts.



Lemma import_disabled_without_sqlite_witness :
  IsSQLite (Storage := MemStore_Storage []) (store Cases.plainImport) = false
  /\ store (Scenario.autoImport [] Cases.plainImport) = store Cases.plainImport
  /\ stderr (Scenario.autoImport [] Cases.plainImport)
     = ["Auto-import disabled for non-SQLite backend (no collision detection)." +:+ LF;
        "To import manually, run: bd import -i .beads/issues.jsonl" +:+ LF].
Proof.
  assert (os_ReadFile (fs Cases.plainImport) (findJSONLPath Cases.plainImport)
          = Ok (Scenario.journal [Scenario.alpha; Scenario.gamma])) as Hread
    by (vm_compute; reflexivity).
  assert ((@validateJSONLHash _ (MemStore_Storage []) Cases.plainImport).2.2 = true)
    as Hshould by (vm_compute; reflexivity).
  assert (forall line,
            line ∈ bytes_Split byte_LF (Scenario.journal [Scenario.alpha; Scenario.gamma]) ->
            isConflictMarker (bytes_TrimSpace line) = false) as Hnone.
  { apply Forall_forall. apply (bool_decide_unpack _). vm_compute. exact I. }
  assert (@parseJSONLIssues Json_JSON (Scenario.journal [Scenario.alpha; Scenario.gamma])
          = Ok [Scenario.alphaIssue; Scenario.gammaIssue]) as Hparse
    by (vm_compute; reflexivity).
  split; [reflexivity|].
  destruct (@import_disabled_without_sqlite _ (MemStore_Storage []) Json_JSON
              Cases.plainImport _ _ Hread Hshould Hnone Hparse eq_refl) as [Hs He].
  split; [exact Hs|]. unfold Scenario.autoImport. rewrite He.
  vm_compute. reflexivity.
Defined.
(** The first import of two entities, then auto-import again. *)
Lemma second_import_is_skipped_witness :
  os_ReadFile (fs Scenario.firstImport) (findJSONLPath Scenario.firstImport)
  = Ok (Scenario.journal [Scenario.alpha; Scenario.gamma])
  /\ same_but_stderr (Scenario.autoImport [] Scenario.firstImport)
       (Scenario.autoImport [] (Scenario.autoImport [] Scenario.firstImport))
  /\ dom (MemStore.issues
            (store (Scenario.autoImport [] (Scenario.autoImport [] Scenario.firstImport))))
     = {[ "bd-1"; "bd-3" ]}.
Proof.
  assert (@StorageLaws MemStore.t (MemStore_Storage [])) as Laws
    by (apply MemStore_Laws, not_elem_of_nil).
  assert (os_ReadFile (fs Scenario.firstImport) (findJSONLPath Scenario.firstImport)
          = Ok (Scenario.journal [Scenario.alpha; Scenario.gamma])) as Hread
    by (vm_compute; reflexivity).
  split; [exact Hread|]. split; [|vm_compute; reflexivity].
  refine (proj2 (@second_import_is_skipped _ (MemStore_Storage []) Json_JSON Laws
                   Scenario.firstImport _ _ Hread _ _ _)).
  - vm_compute; reflexivity.
  - split.
    { apply Forall_forall. apply (bool_decide_unpack _). vm_compute. exact I. }
    split; [reflexivity|].
    exists [Scenario.alphaIssue; Scenario.gammaIssue], Scenario.firstImport,
      [Scenario.alphaIssue; Scenario.gammaIssue], [].
    split; [vm_compute; reflexivity|].
    split; [vm_compute; reflexivity|].
    split; [vm_compute; reflexivity | reflexivity].
  - reflexivity.
Defined.

(** The flush of two dirty entities, then auto-import. *)
Lemma flush_is_not_imported_back_witness :
  fs_fails OpReadFile (fs Scenario.unflushed) = false
  /\ same_but_stderr (Scenario.flushJSONL [] Scenario.unflushed)
       (Scenario.autoImport [] (Scenario.flushJSONL [] Scenario.unflushed)).
Proof.
  assert (@StorageLaws MemStore.t (MemStore_Storage [])) as Laws
    by (apply MemStore_Laws, not_elem_of_nil).
  split; [reflexivity|].
  refine (proj2 (@flush_is_not_imported_back _ (MemStore_Storage []) Json_JSON Laws
                   Scenario.unflushed _ _ _ _ eq_refl _)).
  - vm_compute; reflexivity.
  - intros data. reflexivity.
Defined.

(** A dirty process whose store has an empty dirty set, after two failed
    flushes: the counter is reset and the journal is as it was. *)
Lemma flush_with_empty_dirty_set_witness :
  storeActive (flush Cases.nothingDirty) = true
  /\ isDirty (flush Cases.nothingDirty) = true
  /\ flushFailureCount (flush Cases.nothingDirty) = 2
  /\ MemStore.GetDirtyIssues [] (store Cases.nothingDirty) = Ok []
  /\ fs (Scenario.flushJSONL [] Cases.nothingDirty) = fs Cases.nothingDirty
  /\ flushFailureCount (flush (Scenario.flushJSONL [] Cases.nothingDirty)) = 0.
Proof.
  destruct (@flush_with_empty_dirty_set _ (MemStore_Storage []) Json_JSON
              Cases.nothingDirty eq_refl eq_refl eq_refl) as (_ & Hfs & _ & _ & Hc & _).
  split; [reflexivity|]. split; [reflexivity|]. split; [reflexivity|].
  split; [reflexivity|]. split; [exact Hfs | exact Hc].
Defined.

(** The flush of [Cases.withNotes] rewrites the journal and leaves the notes. *)
Lemma flush_touches_two_paths_witness :
  Cases.notesPath <> findJSONLPath Cases.withNotes
  /\ Cases.notesPath
     <> tempPathOf (findJSONLPath Cases.withNotes) (env_pid (env Cases.withNotes))
  /\ files (fs (Scenario.flushJSONL [] Cases.withNotes)) !! Cases.notesPath
     = Some (bytes_of_string "keep")
  /\ files (fs (Scenario.flushJSONL [] Cases.withNotes)) !! Scenario.jsonlPath
     <> files (fs Cases.withNotes) !! Scenario.jsonlPath.
Proof.
  assert (Cases.notesPath <> findJSONLPath Cases.withNotes) as Hj by discriminate.
  assert (Cases.notesPath
          <> tempPathOf (findJSONLPath Cases.withNotes) (env_pid (env Cases.withNotes)))
    as Ht by (intros Heq; vm_compute in Heq; discriminate Heq).
  split; [exact Hj|]. split; [exact Ht|]. split.
  - unfold Scenario.flushJSONL.
    rewrite (@flush_touches_two_paths _ (MemStore_Storage []) Json_JSON
               Cases.withNotes Cases.notesPath Hj Ht).
    vm_compute. reflexivity.
  - intros Heq. vm_compute in Heq. discriminate Heq.
Defined.

(** The rename fails: the flush has failed, the process is clean, bd-2 and
    bd-10 are still in the dirty set, and neither a second flush nor the end
    of the command writes anything. *)
Lemma flush_leaves_process_clean_witness :
  storeActive (flush Scenario.renameFails) = true
  /\ isDirty (flush Scenario.renameFails) = true
  /\ lastFlushError (flush (Scenario.flushJSONL [] Scenario.renameFails)) <> None
  /\ MemStore.dirty (store (Scenario.flushJSONL [] Scenario.renameFails)) = ["bd-2"; "bd-10"]
  /\ isDirty (flush (Scenario.flushJSONL [] Scenario.renameFails)) = false
  /\ Scenario.flushJSONL [] (Scenario.flushJSONL [] Scenario.renameFails)
     = Scenario.flushJSONL [] Scenario.renameFails.
Proof.
  assert (@flushToJSONL_export _ (MemStore_Storage []) Json_JSON Scenario.renameFails
          = inl (Scenario.flushJSONL [] Scenario.renameFails)) as Hexport
    by (vm_compute; reflexivity).
  destruct (@flush_leaves_process_clean _ (MemStore_Storage []) Json_JSON
              Scenario.renameFails _ eq_refl eq_refl Hexport) as (Hclean & Hagain & _).
  split; [reflexivity|]. split; [reflexivity|].
  split; [vm_compute; discriminate|]. split; [vm_compute; reflexivity|].
  split; [exact Hclean | exact Hagain].
Defined.

(** Four failures in a row: the counter is at 4 and ten lines were printed,
    four warnings and the critical notice twice. *)
Lemma consecutive_flush_failures_witness :
  Z.of_nat (length ["disk full"; "disk full"; "disk full"; "read-only"]) < 2 ^ 63
  /\ flushFailureCount
       (flush (fold_left (fun w e => recordFlushFailure e w)
                 ["disk full"; "disk full"; "disk full"; "read-only"]
                 (recordFlushSuccess Scenario.retrying))) = 4
  /\ length (stderr (fold_left (fun w e => recordFlushFailure e w)
                       ["disk full"; "disk full"; "disk full"; "read-only"]
                       (recordFlushSuccess Scenario.retrying))) = 10%nat.
Proof.
  assert (Z.of_nat (length ["disk full"; "disk full"; "disk full"; "read-only"]) < 2 ^ 63)
    as Hlen by reflexivity.
  destruct (consecutive_flush_failures
              ["disk full"; "disk full"; "disk full"; "read-only"] Scenario.retrying Hlen)
    as (Hc & _ & Hs & _).
  split; [exact Hlen|]. split; [exact Hc | exact Hs].
Defined.


Lemma repeat_not_elem {A} (x y : A) (n : nat) : x <> y -> y ∉ repeat x n.
Proof.
  intros Hne Hin. apply list_elem_of_In, repeat_spec in Hin. by apply Hne.
Qed.

(** The journal of bd-1 and bd-3 as the codec writes it. *)
Lemma journal_round_trip_witness :
  @journal_text Json_JSON [Scenario.alphaIssue; Scenario.gammaIssue]
    (Scenario.journal [Scenario.alpha; Scenario.gamma])
  /\ @parseJSONLIssues Json_JSON (Scenario.journal [Scenario.alpha; Scenario.gamma])
     = Ok [Scenario.alphaIssue; Scenario.gammaIssue].
Proof.
  assert (@journal_text Json_JSON [Scenario.alphaIssue; Scenario.gammaIssue]
            (Scenario.journal [Scenario.alpha; Scenario.gamma])) as Hj.
  { exists [bytes_of_string Scenario.alpha; bytes_of_string Scenario.gamma].
    split; [|vm_compute; reflexivity].
    repeat constructor; vm_compute; reflexivity. }
  split; [exact Hj|].
  refine (proj1 (@journal_round_trip Json_JSON _ _ Hj _)).
  intros issue text Hin Hm.
  apply elem_of_cons in Hin as [->|Hin];
    [|apply elem_of_cons in Hin as [->|Hin]; [|by apply elem_of_nil in Hin]];
    vm_compute in Hm; injection Hm as <-;
    (split; [vm_compute; reflexivity|]);
    unfold line_safe; apply (bool_decide_unpack _); vm_compute; exact I.
Defined.

(** The flush's reader on [Cases.withLongLine]: bd-1 is read, bd-3, which
    comes after the long line, is not. *)
Lemma long_line_ends_reading_witness :
  os_Open (fs Cases.longJournal) Scenario.jsonlPath = Ok Cases.withLongLine
  /\ (MaxScanTokenSize <= length Cases.longLine)%nat
  /\ (@readExistingJSONL _ Json_JSON Scenario.jsonlPath
        Cases.longJournal).2
     = {[ "bd-1" := Scenario.alphaIssue ]}
  /\ stderr (@readExistingJSONL _ Json_JSON Scenario.jsonlPath
               Cases.longJournal).1 = [].
Proof.
  assert (os_Open (fs Cases.longJournal) Scenario.jsonlPath = Ok Cases.withLongLine)
    as Hopen by reflexivity.
  assert (MaxScanTokenSize <= length Cases.longLine)%nat as Hlen
    by (unfold Cases.longLine; by rewrite repeat_length).
  destruct (@long_line_ends_reading _ Json_JSON Cases.longJournal
              Scenario.jsonlPath [bytes_of_string Scenario.alpha] Cases.longLine
              (byte_LF :: Scenario.journal [Scenario.gamma])) as [Hread Hmap].
  - exact Hopen.
  - constructor; [|constructor]. apply (bool_decide_unpack _). vm_compute. exact I.
  - apply repeat_not_elem. discriminate.
  - exact Hlen.
  - right. by eexists.
  - split; [exact Hopen|]. split; [exact Hlen|]. split.
    + rewrite Hmap. vm_compute. reflexivity.
    + rewrite Hread. vm_compute. reflexivity.
Defined.

(** The import's parser on the line of bd-1 followed by a line of 2 MiB. *)
Lemma long_line_fails_parse_witness :
  (2 * 1024 * 1024 <= length Cases.hugeLine)%nat
  /\ @parseJSONLIssues Json_JSON
       (lines_text [bytes_of_string Scenario.alpha] ++ Cases.hugeLine ++ [])
     = Err "scanner error: bufio.Scanner: token too long".
Proof.
  assert (2 * 1024 * 1024 <= length Cases.hugeLine)%nat as Hlen
    by (unfold Cases.hugeLine; by rewrite repeat_length).
  split; [exact Hlen|].
  apply (@long_line_fails_parse Json_JSON [bytes_of_string Scenario.alpha]
           Cases.hugeLine [] [Scenario.alphaIssue]).
  - constructor; [|constructor]. split; [|split].
    + apply (bool_decide_unpack _). vm_compute. exact I.
    + apply Nat.ltb_lt. vm_compute. reflexivity.
    + vm_compute. discriminate.
  - constructor; [|constructor]. split; [discriminate | vm_compute; reflexivity].
  - apply repeat_not_elem. discriminate.
  - exact Hlen.
  - by left.
Defined.
(** The flush of [Scenario.unflushed]: bd-1 and bd-3 come from the journal,
    bd-2 and bd-10 from the store. *)
Lemma flush_rewrites_journal_exactly_witness :
  exists issues data,
    files (fs (@flushToJSONL _ (MemStore_Storage []) Json_JSON Scenario.unflushed))
      !! findJSONLPath Scenario.unflushed = Some data
    /\ @journal_text Json_JSON issues data
    /\ forall issue,
         issue ∈ issues
         <-> exists k,
               (if bool_decide (k ∈ ["bd-2"; "bd-10"])
                then @fetched _ (MemStore_Storage []) (store Scenario.unflushed) k
                else (@readExistingJSONL _ Json_JSON (findJSONLPath Scenario.unflushed)
                        Scenario.unflushed).2 !! k) = Some issue.
Proof.
  eapply (@flush_rewrites_journal_exactly _ (MemStore_Storage []) Json_JSON
            Scenario.unflushed).
  vm_compute. reflexivity.
Defined.

(** The third line of [Cases.broken] is the first that does not parse; the
    second is blank and counts. *)
Lemma parse_error_names_first_bad_line_witness :
  (@scanner_Scan (2 * 1024 * 1024) Cases.broken).1
  = [bytes_of_string Scenario.alpha; []] ++ bytes_of_string "{broken"
    :: [bytes_of_string Scenario.gamma]
  /\ @parseJSONLIssues Json_JSON Cases.broken
     = Err ("parse error at line 3: invalid character in JSON input" +:+ LF
            +:+ "Snippet: {broken").
Proof.
  assert ((@scanner_Scan (2 * 1024 * 1024) Cases.broken).1
          = [bytes_of_string Scenario.alpha; []] ++ bytes_of_string "{broken"
            :: [bytes_of_string Scenario.gamma]) as Hscan by (vm_compute; reflexivity).
  split; [exact Hscan|].
  refine (proj1 (@parse_error_names_first_bad_line Json_JSON Cases.broken _ _ _
                   "invalid character in JSON input" Hscan _ _ _)).
  - constructor; [right; eexists; vm_compute; reflexivity|].
    constructor; [by left | constructor].
  - discriminate.
  - vm_compute. reflexivity.
Defined.

(** bd-3 lists the dependency on bd-1 that the store already has. *)
Lemma import_dependencies_adds_only_missing_witness :
  Forall (@nothingToAdd _ (MemStore_Storage []) Cases.linkedStore) [Cases.gammaLinked]
  /\ @importDependenciesFromJSONL _ (MemStore_Storage []) [Cases.gammaLinked]
       Cases.linkedStore = Cases.linkedStore.
Proof.
  assert (Forall (@nothingToAdd _ (MemStore_Storage []) Cases.linkedStore)
            [Cases.gammaLinked]) as Hall.
  { constructor; [|constructor]. right. right. exists [Cases.blocks31].
    split; [vm_compute; reflexivity|]. constructor; [vm_compute; reflexivity | constructor]. }
  split; [exact Hall|].
  exact (@import_dependencies_adds_only_missing _ (MemStore_Storage []) _ _ Hall).
Defined.

(** The processes 4242 and 4243 on one journal. *)
Lemma tempPath_per_process_witness :
  (4242 : Z) <> 4243
  /\ tempPathOf Scenario.jsonlPath 4242 = ".beads/issues.jsonl.tmp.4242"
  /\ tempPathOf Scenario.jsonlPath 4242 <> tempPathOf Scenario.jsonlPath 4243.
Proof.
  assert ((4242 : Z) <> 4243) as Hpid by discriminate.
  split; [exact Hpid|]. split; [vm_compute; reflexivity|].
  exact (tempPath_per_process Scenario.jsonlPath 4242 4243 Hpid).
Defined.

(** A binary at 0.9.9 on a database written by 0.10.0: as strings 0.9.9 is
    the greater, so the binary counts as newer, and its version is stored. *)
Lemma checkVersionMismatch_stores_version_witness :
  (forall st, (@SetMetadata _ (MemStore_Storage []) st "bd_version"
                 (@Version Cases.binary)).2 = None)
  /\ MemStore.GetMetadata [] (store Cases.newerDatabase) "bd_version" = Ok "0.10.0"
  /\ MemStore.GetMetadata []
       (store (@checkVersionMismatch _ (MemStore_Storage []) Cases.binary
                 Cases.newerDatabase)) "bd_version" = Ok "0.9.9"
  /\ nth 2 (stderr (@checkVersionMismatch _ (MemStore_Storage []) Cases.binary
                      Cases.newerDatabase)) ""
     = "⚠️  Your binary appears NEWER than the database." +:+ LF.
Proof.
  assert (@StorageLaws MemStore.t (MemStore_Storage [])) as Laws
    by (apply MemStore_Laws, not_elem_of_nil).
  assert (forall st, (@SetMetadata _ (MemStore_Storage []) st "bd_version"
                        (@Version Cases.binary)).2 = None) as Hset
    by (intros st; reflexivity).
  split; [exact Hset|]. split; [reflexivity|].
  generalize (@checkVersionMismatch_stores_version _ (MemStore_Storage []) Cases.binary
                Laws Cases.newerDatabase Hset).
  change (@GetMetadata _ (MemStore_Storage []) (store Cases.newerDatabase) "bd_version")
    with (@Ok string "0.10.0").
  intros (Hv & _ & _ & Hs). split; [exact Hv|]. rewrite Hs. vm_compute. reflexivity.
Defined.

(** Five specs: a bare id, a typed one with blanks, a blank one, one of an
    unknown type, and one with two colons. *)
Example addDependenciesToIssue_specs :
  @specifiedDependencies Cases.binary "bd-9"
    ["bd-1"; " discovered-from : bd-3 "; "  "; "bogus:bd-1"; "related:a:b"]
  = [ types.mkDependency "bd-9" "bd-1" "blocks";
      types.mkDependency "bd-9" "bd-3" "discovered-from";
      types.mkDependency "bd-9" "a:b" "related" ].
Proof. vm_compute. reflexivity. Qed.
